(** * Wallet ledger: balance-mutation core of [src/server/storage.ts]

    Shallow embedding of [DatabaseStorage.deposit], [DatabaseStorage.transfer]
    and [DatabaseStorage.createWallet] (with [WalletFactory.createWallet]),
    over a store holding the [wallets] and [transactions] tables of the
    drizzle schema, and of the route handlers, the analytics and the
    wallet serializer around them.

    Numbers.  A JS [number] is an IEEE 754 binary64 value, written with
    the [spec_float] type of the Standard Library: [parseFloat], [+], [-]
    and [<] round and compare as doubles do (ties to even), and
    [toFixed(2)] and [toString()] print them as ECMAScript specifies.  A
    [decimal(12, 2)] column is kept as its value in cents ([Z]); the text
    the code sends for it is converted as Postgres converts text to
    [numeric(12,2)]: rounded to two places, half away from zero, and
    rejected when it does not fit.

    Effects.  Reads ([db.select]) are total lookups.  Every write-side call
    that can fail (a database insert or update, a step of
    [WalletSerializer.serializeWallet]) consumes one entry of a fault
    oracle held in the state: [Some e] makes the call throw [e], [None] (or
    an exhausted oracle) lets it go through.  Every write that is performed
    is appended to a trace, so the order of writes can be observed. *)

From Stdlib Require Import QArith Qround Qabs Qpower ZArith String List Bool Lia Lqa.
From Stdlib Require Import DecimalString.
From Stdlib Require Import Floats.SpecFloat.
From stdpp Require Import base gmap strings.

Open Scope string_scope.

(* ------------------------------------------------------------------ *)
(** ** JS numbers: IEEE 754 binary64 *)

Definition number : Type := spec_float.

Definition Qpow2 (k : Z) : Q := Qpower (2 # 1) k.

(** The exact value of a finite double ([0] for the others). *)
Definition num_value (x : number) : Q :=
  match x with
  | S754_finite s m e =>
      let v := (inject_Z (Zpos m) * Qpow2 e)%Q in if s then (- v)%Q else v
  | _ => 0%Q
  end.

Definition is_finite (x : number) : bool :=
  match x with
  | S754_zero _ | S754_finite _ _ _ => true
  | _ => false
  end.

(** Neither negative nor [NaN] ([-0] counts as non-negative). *)
Definition num_nonneg (x : number) : bool :=
  match x with
  | S754_zero _ => true
  | S754_infinity s | S754_finite s _ _ => negb s
  | S754_nan => false
  end.

Definition sgn (s : bool) (q : Q) : Q := if s then (- q)%Q else q.

(** [n / d] rounded to the nearest integer, ties to even. *)
Definition round_even (n : Z) (d : positive) : Z :=
  let q := (n / Zpos d)%Z in
  let r := (n mod Zpos d)%Z in
  match Z.compare (2 * r) (Zpos d) with
  | Lt => q
  | Gt => (q + 1)%Z
  | Eq => if Z.even q then q else (q + 1)%Z
  end.

(** The exponent [E] with [2^E <= a < 2^(E+1)], for [a > 0]. *)
Definition binade (a : Q) : Z :=
  let L := (Z.log2 (Qnum a) - Z.log2 (Zpos (Qden a)))%Z in
  if Qle_bool (Qpow2 L) a then L else (L - 1)%Z.

(** The double nearest to [a > 0] (sign [s]): 53-bit significand,
    subnormals below [2^-1022], infinity past the largest double. *)
Definition round_pos (s : bool) (a : Q) : number :=
  let E := Z.max (binade a - 52) (-1074) in
  let r := (a * Qpow2 (- E))%Q in
  let m := round_even (Qnum r) (Qden r) in
  let '(m, E) := if (m =? 2 ^ 53)%Z then ((2 ^ 52)%Z, (E + 1)%Z) else (m, E) in
  match m with
  | Zpos p => if (E <=? 971)%Z then S754_finite s p E else S754_infinity s
  | _ => S754_zero s
  end.

(** The double nearest to a rational: what reading a decimal literal or
    [parseFloat] gives, and how [+] and [-] round their exact result. *)
Definition number_of_Q (x : Q) : number :=
  match Qnum x with
  | Z0 => S754_zero false
  | Zpos _ => round_pos false x
  | Zneg _ => round_pos true (- x)
  end.

(** Unary [-]. *)
Definition num_neg (x : number) : number :=
  match x with
  | S754_zero s => S754_zero (negb s)
  | S754_infinity s => S754_infinity (negb s)
  | S754_nan => S754_nan
  | S754_finite s m e => S754_finite (negb s) m e
  end.

(** [x + y] (ECMAScript Number::add). *)
Definition num_add (x y : number) : number :=
  match x, y with
  | S754_nan, _ | _, S754_nan => S754_nan
  | S754_infinity sx, S754_infinity sy => if Bool.eqb sx sy then x else S754_nan
  | S754_infinity _, _ => x
  | _, S754_infinity _ => y
  | S754_zero sx, S754_zero sy => S754_zero (sx && sy)
  | _, _ =>
      let q := (num_value x + num_value y)%Q in
      if Qeq_bool q 0 then S754_zero false else number_of_Q q
  end.

(** [x - y] is [x + (-y)]. *)
Definition num_sub (x y : number) : number := num_add x (num_neg y).

Definition Qlt_bool (x y : Q) : bool := negb (Qle_bool y x).

(** [x < y] ([false] when either is [NaN]). *)
Definition num_lt (x y : number) : bool :=
  match x, y with
  | S754_nan, _ | _, S754_nan => false
  | S754_infinity sx, S754_infinity sy => sx && negb sy
  | S754_infinity sx, _ => sx
  | _, S754_infinity sy => negb sy
  | _, _ => Qlt_bool (num_value x) (num_value y)
  end.

(** Same double (the same bits up to the [NaN] payload). *)
Definition num_eqb (x y : number) : bool :=
  match x, y with
  | S754_zero a, S754_zero b => Bool.eqb a b
  | S754_infinity a, S754_infinity b => Bool.eqb a b
  | S754_nan, S754_nan => true
  | S754_finite a m e, S754_finite b m' e' => Bool.eqb a b && Pos.eqb m m' && Z.eqb e e'
  | _, _ => false
  end.

Definition num_abs (x : number) : number :=
  match x with
  | S754_zero _ => S754_zero false
  | S754_infinity _ => S754_infinity false
  | S754_nan => S754_nan
  | S754_finite _ m e => S754_finite false m e
  end.

(** A rational rounded to cents, half away from zero. *)
Definition round_cents (v : Q) : Z :=
  if Qle_bool 0 v then Qfloor (v * inject_Z 100 + Qmake 1 2)%Q
  else (- Qfloor ((- v) * inject_Z 100 + Qmake 1 2)%Q)%Z.

(** ** Printing numbers: [toString()] and [toFixed(2)] *)

Definition digits (n : N) : string :=
  NilZero.string_of_uint (N.to_uint n).

Definition two_digits (n : N) : string :=
  if (n <? 10)%N then "0" ++ digits n else digits n.

(** Decimal text of a cents value, as Postgres prints a [decimal(12,2)]. *)
Definition decimal_to_string (c : Z) : string :=
  let a := Z.to_N (Z.abs c) in
  (if (c <? 0)%Z then "-" else "") ++ digits (a / 100) ++ "." ++ two_digits (a mod 100).

Definition Qpow10 (k : Z) : Q :=
  if (0 <=? k)%Z then inject_Z (10 ^ k) else Qmake 1 (Z.to_pos (10 ^ (- k))).

Definition ndigits (n : Z) : Z := Z.of_nat (String.length (digits (Z.to_N n))).

(** The [n] with [10^(n-1) <= v < 10^n], for [v > 0]. *)
Definition dec_exponent (v : Q) : Z :=
  let L := (ndigits (Qnum v) - ndigits (Zpos (Qden v)))%Z in
  if Qle_bool (Qpow10 L) v then (L + 1)%Z else L.

Definition round_trips (x : number) (c : Z) (u : Q) : bool :=
  num_eqb (number_of_Q (inject_Z c * u)) x.

(** Of the two multiples of [u] around [v], one that reads back as [x]
    (the nearer one, ties to even, if both do). *)
Definition pick (x : number) (v u : Q) : option Z :=
  let lo := Qfloor (v / u) in
  let hi := (lo + 1)%Z in
  match round_trips x lo u, round_trips x hi u with
  | true, true =>
      let dl := (v / u - inject_Z lo)%Q in
      let dh := (inject_Z hi - v / u)%Q in
      if Qlt_bool dl dh then Some lo
      else if Qlt_bool dh dl then Some hi
      else if Z.even lo then Some lo else Some hi
  | true, false => Some lo
  | false, true => Some hi
  | false, false => None
  end.

(** The digits [s] (with [k] digits) and exponent [n] of ECMAScript
    Number::toString: [k] as small as possible with [s * 10^(n-k)]
    reading back as [x]; 17 digits always suffice. *)
Fixpoint shortest_from (x : number) (v : Q) (n : Z) (k : nat) (fuel : nat) : Z * Z * Z :=
  match fuel with
  | O => (Qfloor (v / Qpow10 (n - Z.of_nat k)), Z.of_nat k, n)
  | S f =>
      match pick x v (Qpow10 (n - Z.of_nat k)) with
      | Some s =>
          if (s =? 10 ^ Z.of_nat k)%Z then ((10 ^ (Z.of_nat k - 1))%Z, Z.of_nat k, (n + 1)%Z)
          else (s, Z.of_nat k, n)
      | None => shortest_from x v n (S k) f
      end
  end.

Definition shortest (x : number) : Z * Z * Z :=
  let v := Qabs (num_value x) in
  shortest_from x v (dec_exponent v) 1 16.

Definition zeros (n : Z) : string := String.concat "" (List.repeat "0" (Z.to_nat n)).

Definition toString_digits (s k n : Z) : string :=
  let ds := digits (Z.to_N s) in
  if ((k <=? n) && (n <=? 21))%Z then ds ++ zeros (n - k)
  else if ((0 <? n) && (n <=? 21))%Z then
    substring 0 (Z.to_nat n) ds ++ "." ++ substring (Z.to_nat n) (Z.to_nat (k - n)) ds
  else if ((-6 <? n) && (n <=? 0))%Z then "0." ++ zeros (- n) ++ ds
  else
    let e := (n - 1)%Z in
    let es := (if (e <? 0)%Z then "-" else "+") ++ digits (Z.to_N (Z.abs e)) in
    if (k =? 1)%Z then ds ++ "e" ++ es
    else substring 0 1 ds ++ "." ++ substring 1 (Z.to_nat (k - 1)) ds ++ "e" ++ es.

(** [x.toString()]. *)
Definition number_toString (x : number) : string :=
  match x with
  | S754_nan => "NaN"
  | S754_zero _ => "0"
  | S754_infinity s => if s then "-Infinity" else "Infinity"
  | S754_finite s _ _ =>
      let '(d, k, n) := shortest (num_abs x) in
      (if s then "-" else "") ++ toString_digits d k n
  end.

(** [x.toFixed(2)]: the integer [n] with [n / 100] closest to [|x|] (the
    larger of two), printed with the sign of [x]; [x.toString()] when
    [|x| >= 10^21]. *)
Definition toFixed2 (x : number) : string :=
  match x with
  | S754_nan => "NaN"
  | S754_infinity s => if s then "-Infinity" else "Infinity"
  | _ =>
      let v := num_value x in
      let sign := if Qlt_bool v 0 then "-" else "" in
      let a := Qabs v in
      if Qle_bool (inject_Z (10 ^ 21)) a then sign ++ number_toString (num_abs x)
      else sign ++ decimal_to_string (Qfloor (a * 100 + Qmake 1 2))
  end.

(** [parseFloat] of a [decimal(12,2)] column value given in cents: the
    column comes as its decimal text, which reads as the double nearest
    to its value. *)
Definition parseFloat (cents : Z) : number := number_of_Q (Qmake cents 100).

(** The double of the decimal literal [n / d] (as [JSON.parse] reads it). *)
Definition literal (n : Z) (d : positive) : number := number_of_Q (Qmake n d).

(** Cross-checks against the binary64 operations of the Standard
    Library's [SpecFloat]. *)
Definition sf_of_Z (n : Z) : number := binary_normalize 53 1024 n 0 false.

Definition sample_cents : list Z :=
  [0; 1; 3; 15; 100; 101; 1005; 50000; 100000; 999999999999; -7; 12345678; 30; 20; 10]%Z.

Definition sample_cent_pairs : list (Z * Z) :=
  flat_map (fun a => map (fun b => (a, b)) sample_cents) sample_cents.

Example parseFloat_is_SFdiv :
  forallb (fun c => num_eqb (parseFloat c) (SFdiv 53 1024 (sf_of_Z c) (sf_of_Z 100)))
    sample_cents = true.
Proof. vm_compute. reflexivity. Qed.

Example num_add_is_SFadd :
  forallb (fun '(a, b) => num_eqb (num_add (parseFloat a) (parseFloat b))
                                  (SFadd 53 1024 (parseFloat a) (parseFloat b)))
    sample_cent_pairs = true.
Proof. vm_compute. reflexivity. Qed.

Example num_sub_is_SFsub :
  forallb (fun '(a, b) => num_eqb (num_sub (parseFloat a) (parseFloat b))
                                  (SFsub 53 1024 (parseFloat a) (parseFloat b)))
    sample_cent_pairs = true.
Proof. vm_compute. reflexivity. Qed.

(** Outputs of a JS engine. *)
Example toFixed2_1_005 : toFixed2 (literal 1005 1000) = "1.00".
Proof. vm_compute. reflexivity. Qed.
Example toString_0_1_plus_0_2 : number_toString (num_add (literal 1 10) (literal 2 10)) = "0.30000000000000004".
Proof. vm_compute. reflexivity. Qed.
Example toFixed2_0_03_minus_0_015 : toFixed2 (num_sub (literal 3 100) (literal 15 1000)) = "0.01".
Proof. vm_compute. reflexivity. Qed.
Example toFixed2_1_01_plus_1_005 : toFixed2 (num_add (literal 101 100) (literal 1005 1000)) = "2.01".
Proof. vm_compute. reflexivity. Qed.
Example toString_1_005 : number_toString (literal 1005 1000) = "1.005".
Proof. vm_compute. reflexivity. Qed.
Example toString_1e21 : number_toString (number_of_Q (inject_Z (10^21))) = "1e+21".
Proof. vm_compute. reflexivity. Qed.
Example toFixed2_1e21 : toFixed2 (number_of_Q (inject_Z (10^21))) = "1e+21".
Proof. vm_compute. reflexivity. Qed.
Example toString_1e_7 : number_toString (literal 1 10000000) = "1e-7".
Proof. vm_compute. reflexivity. Qed.
Example toString_123_456 : number_toString (literal 123456 1000) = "123.456".
Proof. vm_compute. reflexivity. Qed.
Example toString_min_subnormal : number_toString (literal 5 (10^324)) = "5e-324".
Proof. vm_compute. reflexivity. Qed.
Example toString_max_double :
  number_toString (number_of_Q (inject_Z ((2 ^ 53 - 1) * 2 ^ 971))) = "1.7976931348623157e+308".
Proof. vm_compute. reflexivity. Qed.
Example toFixed2_neg_small : toFixed2 (num_neg (literal 1 1000)) = "-0.00".
Proof. vm_compute. reflexivity. Qed.
Example toString_third : number_toString (literal 1 3) = "0.3333333333333333".
Proof. vm_compute. reflexivity. Qed.
Example toString_2_pow_53_plus_1 : number_toString (literal 9007199254740993 1) = "9007199254740992".
Proof. vm_compute. reflexivity. Qed.
Example toFixed2_0_015 : toFixed2 (literal 15 1000) = "0.01".
Proof. vm_compute. reflexivity. Qed.
Example decimal_to_string_limit : decimal_to_string 100000 = "1000.00".
Proof. reflexivity. Qed.

(* ------------------------------------------------------------------ *)
(** ** Data model (the drizzle schema) *)

(** A row of [wallets]; timestamps are not modelled. *)
Record wallet := mkWallet {
  w_id : string;
  w_userId : string;
  w_balance : Z;             (* decimal(12,2), in cents *)
  w_walletType : string;
  w_transactionLimit : Z     (* decimal(12,2), in cents *)
}.

(** A row of [transactions]; [t_id] stands for the generated uuid. *)
Record transaction := mkTransaction {
  t_id : nat;
  t_walletId : string;
  t_amount : Z;              (* decimal(12,2), in cents *)
  t_type : string;           (* deposit | transfer_out | transfer_in *)
  t_paymentMode : string;    (* UPI | Card | WalletBalance *)
  t_status : string;         (* pending | success | failed *)
  t_description : option string;
  t_recipientWalletId : option string;
  t_recipientUserId : option string;
  t_errorMessage : option string
}.

(** What can be thrown: a plain JS error of some class ([Error],
    [TypeError], ...) with its message, or the custom
    [InsufficientFundsException] of [src/server/errors]. *)
Inductive js_error :=
| Error (name : string) (message : string)
| InsufficientFundsException (availableBalance requestedAmount : number) (walletId : string).

(** [error.name]: the class a caller can test with [instanceof]. *)
Definition error_name (e : js_error) : string :=
  match e with
  | Error n _ => n
  | InsufficientFundsException _ _ _ => "InsufficientFundsException"
  end.

(** [error.message]. *)
Definition error_message (e : js_error) : string :=
  match e with
  | Error _ m => m
  | InsufficientFundsException a r _ =>
      "Insufficient funds: Available $" ++ toFixed2 a ++ ", Required $" ++ toFixed2 r
  end.

(** A write that reached the store or the disk.  [EvSerializeFailed w]
    is a write of [w]'s file that failed after the file was opened. *)
Inductive event :=
| EvInsertWallet (w : wallet)
| EvInsertTx (t : transaction)
| EvUpdateBalance (walletId : string) (balance : Z)
| EvUpdateStatus (txId : nat) (status : string) (errorMessage : option string)
| EvSerializeWallet (w : wallet)
| EvSerializeFailed (w : wallet).

Record store := mkStore {
  wallets : gmap string wallet;
  transactions : list transaction;
  next_tx : nat;                      (* source of fresh transaction ids *)
  next_wallet : nat;                  (* source of fresh wallet ids *)
  faults : list (option js_error);    (* fault oracle of the write calls *)
  trace : list event                  (* writes performed, oldest first *)
}.

Definition set_wallets (m : gmap string wallet) (s : store) : store :=
  mkStore m (transactions s) (next_tx s) (next_wallet s) (faults s) (trace s).
Definition set_transactions (l : list transaction) (s : store) : store :=
  mkStore (wallets s) l (next_tx s) (next_wallet s) (faults s) (trace s).
Definition set_next_tx (n : nat) (s : store) : store :=
  mkStore (wallets s) (transactions s) n (next_wallet s) (faults s) (trace s).
Definition set_next_wallet (n : nat) (s : store) : store :=
  mkStore (wallets s) (transactions s) (next_tx s) n (faults s) (trace s).
Definition set_faults (f : list (option js_error)) (s : store) : store :=
  mkStore (wallets s) (transactions s) (next_tx s) (next_wallet s) f (trace s).
Definition record (ev : event) (s : store) : store :=
  mkStore (wallets s) (transactions s) (next_tx s) (next_wallet s) (faults s)
    (trace s ++ [ev]).

(* ------------------------------------------------------------------ *)
(** ** The async store monad: state and thrown errors *)

Inductive result (A : Type) :=
| Ok (a : A)
| Throw (e : js_error).
Arguments Ok {A} a.
Arguments Throw {A} e.

Definition M (A : Type) : Type := store -> result A * store.

Global Instance M_ret : MRet M := fun A a s => (Ok a, s).
Global Instance M_bind : MBind M := fun A B k m s =>
  match m s with
  | (Ok a, s') => k a s'
  | (Throw e, s') => (Throw e, s')
  end.

Definition ok_or {A} (d : A) (r : result A) : A :=
  match r with Ok a => a | Throw _ => d end.

Definition throw {A} (e : js_error) : M A := fun s => (Throw e, s).

(** [try { body } catch (error) { handler(error) }]. *)
Definition try_catch {A} (body : M A) (handler : js_error -> M A) : M A :=
  fun s =>
    match body s with
    | (Ok a, s') => (Ok a, s')
    | (Throw e, s') => handler e s'
    end.

Definition modify (f : store -> store) : M unit := fun s => (Ok tt, f s).

(** A write-side call that may fail: consumes one oracle entry. *)
Definition fault_point : M unit := fun s =>
  match faults s with
  | Some e :: rest => (Throw e, set_faults rest s)
  | None :: rest => (Ok tt, set_faults rest s)
  | [] => (Ok tt, s)
  end.

Definition get : M store := fun s => (Ok s, s).

(* ------------------------------------------------------------------ *)
(** ** Text sent for a [decimal(12,2)] column

    The code sends a decimal column either [x.toFixed(2)] (the new
    balances) or [x.toString()] (the [amount] of a new transaction, by
    [amount.toString()]).  Postgres reads the text as a [numeric], rounds
    it to two places, half away from zero, and rejects a value of 10^10
    or more in absolute value ("numeric field overflow").

    - [x.toFixed(2)] is the decimal text of [round_cents x] when
      [|x| < 10^21]; for larger [|x|] it is [x.toString()], whose value
      overflows the column as [round_cents x] does.
    - [x.toString()] of a finite [x] is the shortest decimal that reads
      back as [x] ([shown_value]), whose rounding may differ from that of
      [x] itself: [0.015] is the double [0.01499999999999999944...], and
      its text ["0.015"] is stored as [0.02].
    - ["Infinity"] and ["-Infinity"] do not fit a [numeric(12,2)].
      ["NaN"] would be stored as [NaN], which a column of cents does not
      hold; no caller sends it, since the amounts are positive and the
      balances finite. *)
Inductive decimal_text :=
| Fixed2 (x : number)
| Shown (x : number).

Definition numeric_overflow : js_error := Error "error" "numeric field overflow".

(** A value in cents stored in a [numeric(12,2)] column. *)
Definition decimal_column (c : Z) : result Z :=
  if (Z.abs c <? 10 ^ 12)%Z then Ok c else Throw numeric_overflow.

(** The value of the decimal text [x.toString()], for a finite [x]. *)
Definition shown_value (x : number) : Q :=
  match x with
  | S754_finite s _ _ =>
      let '(d, k, n) := shortest (num_abs x) in sgn s (inject_Z d * Qpow10 (n - k))%Q
  | _ => 0%Q
  end.

Definition numeric_of (t : decimal_text) : result Z :=
  match t with
  | Fixed2 x =>
      match x with
      | S754_zero _ | S754_finite _ _ _ => decimal_column (round_cents (num_value x))
      | _ => Throw numeric_overflow
      end
  | Shown x =>
      match x with
      | S754_zero _ | S754_finite _ _ _ => decimal_column (round_cents (shown_value x))
      | _ => Throw numeric_overflow
      end
  end.

Example numeric_of_shown_0_015 : numeric_of (Shown (literal 15 1000)) = Ok 2%Z.
Proof. vm_compute. reflexivity. Qed.

Example numeric_of_fixed_0_015 : numeric_of (Fixed2 (literal 15 1000)) = Ok 1%Z.
Proof. vm_compute. reflexivity. Qed.

(* ------------------------------------------------------------------ *)
(** ** Store calls of [DatabaseStorage] *)

(** [db.select().from(wallets).where(eq(wallets.id, walletId))], first row. *)
Definition select_wallet (walletId : string) : M (option wallet) :=
  fun s => (Ok (wallets s !! walletId), s).

(** The [fs.writeFile] of a wallet's JSON text, once the file is open:
    opening truncated the file, so a failure of the write leaves a
    strict prefix of the JSON text of an object, which does not parse. *)
Definition write_wallet_file (w : wallet) : M unit := fun s =>
  match faults s with
  | Some e :: rest => (Throw e, record (EvSerializeFailed w) (set_faults rest s))
  | None :: rest => (Ok tt, record (EvSerializeWallet w) (set_faults rest s))
  | [] => (Ok tt, record (EvSerializeWallet w) s)
  end.

(** [WalletSerializer.serializeWallet(wallet)]: [ensureDirectory()], then
    [fs.writeFile] of the JSON text; any failure is rethrown.  The first
    fault point is a failure that leaves the wallet's file as it was:
    [fs.access]/[fs.mkdir] of [ensureDirectory], or (with the same
    effect) [fs.writeFile] failing to open the file.  On [undefined] the
    access [wallet.id] throws a [TypeError], which the serializer's own
    catch rethrows as well. *)
Definition serializeWallet (w : option wallet) : M unit :=
  _ ← fault_point;
  match w with
  | None => throw (Error "TypeError" "Cannot read properties of undefined (reading 'id')")
  | Some w => write_wallet_file w
  end.

Definition with_balance (b : Z) (w : wallet) : wallet :=
  mkWallet (w_id w) (w_userId w) b (w_walletType w) (w_transactionLimit w).

(** [db.update(wallets).set({balance}).where(eq(wallets.id, walletId))
    .returning()], first returned row: Postgres converts the text of the
    new balance for the matching row; without a matching row nothing is
    converted. *)
Definition db_update_balance (walletId : string) (newBalance : decimal_text) : M (option wallet) :=
  fun s =>
    match wallets s !! walletId with
    | Some w =>
        match numeric_of newBalance with
        | Ok b =>
            let w' := with_balance b w in
            (Ok (Some w'),
             record (EvUpdateBalance walletId b)
               (set_wallets (<[walletId := w']> (wallets s)) s))
        | Throw e => (Throw e, s)
        end
    | None => (Ok None, s)
    end.

(** [DatabaseStorage.updateWalletBalance]. *)
Definition updateWalletBalance (walletId : string) (newBalance : decimal_text) : M (option wallet) :=
  _ ← fault_point;
  wallet ← db_update_balance walletId newBalance;
  _ ← serializeWallet wallet;
  mret wallet.

(** An [InsertTransaction] object: the [amount] is sent as text. *)
Record insert_transaction := mkInsertTransaction {
  i_walletId : string;
  i_amount : decimal_text;
  i_type : string;
  i_paymentMode : string;
  i_status : string;
  i_description : option string;
  i_recipientWalletId : option string;
  i_recipientUserId : option string
}.

(** The row stored for [t] with the id [id] and the converted amount. *)
Definition tx_row (id : nat) (amount : Z) (t : insert_transaction) : transaction :=
  mkTransaction id (i_walletId t) amount (i_type t) (i_paymentMode t) (i_status t)
    (i_description t) (i_recipientWalletId t) (i_recipientUserId t) None.

(** The row written by [db.insert(transactions).values(t).returning()];
    the store assigns the id. *)
Definition insert_tx_row (t : insert_transaction) : M transaction :=
  fun s =>
    match numeric_of (i_amount t) with
    | Ok amount =>
        let t' := tx_row (next_tx s) amount t in
        (Ok t', record (EvInsertTx t')
                  (set_next_tx (S (next_tx s))
                     (set_transactions (transactions s ++ [t']) s)))
    | Throw e => (Throw e, s)
    end.

Definition db_insert_tx (t : insert_transaction) : M transaction :=
  _ ← fault_point;
  insert_tx_row t.

(** Modelled from the spec: [TransactionLogger.logTransaction]
    ([src/server/utils/transactionLogger.ts] is not among the sources).
    The spec makes it a best-effort audit observer whose failures are
    logged locally and never surface, and it writes no ledger state. *)
Definition logTransaction (t : transaction) : M unit := mret tt.

(** [DatabaseStorage.createTransaction]. *)
Definition createTransaction (t : insert_transaction) : M transaction :=
  newTransaction ← db_insert_tx t;
  _ ← logTransaction newTransaction;
  mret newTransaction.

(** The [set] of [updateTransactionStatus]: drizzle leaves a column whose
    new value is [undefined] untouched. *)
Definition set_status (transactionId : nat) (status : string)
    (errorMessage : option string) (t : transaction) : transaction :=
  if Nat.eqb (t_id t) transactionId then
    mkTransaction (t_id t) (t_walletId t) (t_amount t) (t_type t) (t_paymentMode t)
      status (t_description t) (t_recipientWalletId t) (t_recipientUserId t)
      (match errorMessage with Some m => Some m | None => t_errorMessage t end)
  else t.

(** The rows of [db.update(transactions).set({status, errorMessage})
    .where(eq(transactions.id, transactionId)).returning()]. *)
Definition update_status_rows (transactionId : nat) (status : string)
    (errorMessage : option string) : M (option transaction) :=
  fun s =>
    let l := map (set_status transactionId status errorMessage) (transactions s) in
    (Ok (find (fun t => Nat.eqb (t_id t) transactionId) l),
     record (EvUpdateStatus transactionId status errorMessage) (set_transactions l s)).

(** [DatabaseStorage.updateTransactionStatus]. *)
Definition updateTransactionStatus (transactionId : nat) (status : string)
    (errorMessage : option string) : M (option transaction) :=
  _ ← fault_point;
  update_status_rows transactionId status errorMessage.

(** The [InsertTransaction] object literals of the source, with
    [amount: amount.toString()]. *)
Definition new_transaction (walletId : string) (amount : number) (type paymentMode status : string)
    (description recipientWalletId recipientUserId : option string) : insert_transaction :=
  mkInsertTransaction walletId (Shown amount) type paymentMode status
    description recipientWalletId recipientUserId.

(* ------------------------------------------------------------------ *)
(** ** [DatabaseStorage.deposit] and [DatabaseStorage.transfer]

    [lock.runExclusive(f)] runs [f] with the lock held; in this sequential
    model it is [f] itself.  Locking is modelled separately (module
    [Locks]).  The [try] blocks are [deposit_try] and [transfer_try]. *)

Definition limit_error (limit : Z) : js_error :=
  Error "Error" ("Amount exceeds transaction limit of $" ++ decimal_to_string limit).

Definition wallet_not_found : js_error := Error "Error" "Wallet not found".

(** The [try] block of [deposit]; [pending] is the record the source
    names [transaction]. *)
Definition deposit_try (walletId : string) (wallet : wallet) (amount : number)
    (pending : transaction) : M (option transaction) :=
  let newBalance := Fixed2 (num_add (parseFloat (w_balance wallet)) amount) in
  _ ← updateWalletBalance walletId newBalance;
  successTransaction ← updateTransactionStatus (t_id pending) "success" None;
  mret successTransaction.

Definition deposit (walletId : string) (amount : number) (paymentMode : string)
    (description : option string) : M (option transaction) :=
  w ← select_wallet walletId;
  match w with
  | None => throw wallet_not_found
  | Some wallet =>
      if num_lt (parseFloat (w_transactionLimit wallet)) amount
      then throw (limit_error (w_transactionLimit wallet))
      else
        transaction ← createTransaction
          (new_transaction walletId amount "deposit" paymentMode "pending" description None None);
        try_catch
          (deposit_try walletId wallet amount transaction)
          (fun error =>
             _ ← updateTransactionStatus (t_id transaction) "failed" (Some (error_message error));
             throw error)
  end.

(** The [try] block of [transfer]. *)
Definition transfer_try (fromWalletId toWalletId : string) (toWallet : wallet)
    (currentBalance amount : number) (description : option string)
    (outTransaction : transaction) : M (option transaction) :=
  let newFromBalance := Fixed2 (num_sub currentBalance amount) in
  _ ← updateWalletBalance fromWalletId newFromBalance;
  let newToBalance := Fixed2 (num_add (parseFloat (w_balance toWallet)) amount) in
  _ ← updateWalletBalance toWalletId newToBalance;
  _ ← createTransaction
    (new_transaction toWalletId amount "transfer_in" "WalletBalance" "success"
       description (Some fromWalletId) None);
  successTransaction ← updateTransactionStatus (t_id outTransaction) "success" None;
  mret successTransaction.

Definition transfer (fromWalletId toWalletId toUserId : string) (amount : number)
    (description : option string) : M (option transaction) :=
  fw ← select_wallet fromWalletId;
  tw ← select_wallet toWalletId;
  match fw, tw with
  | Some fromWallet, Some toWallet =>
      let currentBalance := parseFloat (w_balance fromWallet) in
      if num_lt currentBalance amount
      then throw (InsufficientFundsException currentBalance amount fromWalletId)
      else if num_lt (parseFloat (w_transactionLimit fromWallet)) amount
      then throw (limit_error (w_transactionLimit fromWallet))
      else
        outTransaction ← createTransaction
          (new_transaction fromWalletId amount "transfer_out" "WalletBalance" "pending"
             description (Some toWalletId) (Some toUserId));
        try_catch
          (transfer_try fromWalletId toWalletId toWallet currentBalance amount description
             outTransaction)
          (fun error =>
             _ ← updateTransactionStatus (t_id outTransaction) "failed" (Some (error_message error));
             throw error)
  | _, _ => throw wallet_not_found
  end.

(* ------------------------------------------------------------------ *)
(** ** Wallet provisioning: [WalletFactory.createWallet] and
    [DatabaseStorage.createWallet]

    The factory's static [walletCounter] is only read by
    [inspectWalletType] and [getWalletCount] and is left out. *)

Record WalletConfig := mkWalletConfig {
  cfg_walletType : string;
  cfg_transactionLimit : Z   (* '1000.00' / '10000.00', in cents *)
}.

Definition WalletFactory_createWallet (type : string) : M WalletConfig :=
  if String.eqb type "Basic" then mret (mkWalletConfig "Basic" 100000)
  else if String.eqb type "Premium" then mret (mkWalletConfig "Premium" 1000000)
  else throw (Error "Error" ("Unknown wallet type: " ++ type)).

(** [gen_random_uuid()], drawn from a counter of the state. *)
Definition fresh_wallet_id (n : nat) : string := "wallet-" ++ digits (N.of_nat n).

(** [db.insert(wallets).values({userId, balance: '0.00', walletType,
    transactionLimit}).returning()]; a clash of the generated id with an
    existing row is the primary-key violation of Postgres. *)
Definition insert_wallet_row (userId : string) (balance : Z) (config : WalletConfig) : M wallet :=
  fun s =>
    let id := fresh_wallet_id (next_wallet s) in
    match wallets s !! id with
    | Some _ => (Throw (Error "error" "duplicate key value violates unique constraint"), s)
    | None =>
        let w := mkWallet id userId balance (cfg_walletType config) (cfg_transactionLimit config) in
        (Ok w, record (EvInsertWallet w)
                 (set_next_wallet (S (next_wallet s))
                    (set_wallets (<[id := w]> (wallets s)) s)))
    end.

Definition db_insert_wallet (userId : string) (balance : Z) (config : WalletConfig) : M wallet :=
  _ ← fault_point;
  insert_wallet_row userId balance config.

Definition createWallet (userId walletType : string) : M wallet :=
  config ← WalletFactory_createWallet walletType;
  wallet ← db_insert_wallet userId 0 config;
  _ ← serializeWallet (Some wallet);
  mret wallet.

(* ------------------------------------------------------------------ *)
(** ** Sequences of operations on the ledger

    Each request runs one operation; a thrown error ends that request (the
    route handler answers with an error) and the next one starts from the
    store as it was left. *)

Inductive op :=
| OpDeposit (walletId : string) (amount : number) (paymentMode : string) (description : option string)
| OpTransfer (fromWalletId toWalletId toUserId : string) (amount : number) (description : option string)
| OpCreateWallet (userId walletType : string).

Definition exec_op (o : op) (s : store) : store :=
  match o with
  | OpDeposit w a m d => snd (deposit w a m d s)
  | OpTransfer f t u a d => snd (transfer f t u a d s)
  | OpCreateWallet u ty => snd (createWallet u ty s)
  end.

Fixpoint run (ops : list op) (s : store) : store :=
  match ops with
  | [] => s
  | o :: rest => run rest (exec_op o s)
  end.

(** The caller-side preconditions: positive amounts, distinct wallets. *)
Definition valid_op (o : op) : Prop :=
  match o with
  | OpDeposit _ a _ _ => num_lt (S754_zero false) a = true
  | OpTransfer f t _ a _ => num_lt (S754_zero false) a = true /\ f <> t
  | OpCreateWallet _ _ => True
  end.

(** Every stored balance is non-negative. *)
Definition balances_nonneg (s : store) : Prop :=
  map_Forall (fun _ w => (0 <= w_balance w)%Z) (wallets s).

(** A computation that never makes a stored balance negative, whether it
    returns or throws. *)
Definition keeps {A} (m : M A) : Prop :=
  forall s, balances_nonneg s -> balances_nonneg (snd (m s)).

(* ------------------------------------------------------------------ *)
(** ** The wallet lock table and concurrent transfers

    [getWalletLock(id)] returns the one [Mutex] of wallet [id] (created on
    first use), so a lock is named by its wallet id.  [transfer] runs
    [lock1.runExclusive(() => lock2.runExclusive(body))] with
    [[lock1, lock2] = [fromWalletId, toWalletId].sort()].  An async-mutex
    [Mutex] is not reentrant: [acquire] waits until the mutex is released,
    also when the waiting caller is the holder. *)

(** Code-unit order of two strings (the default comparator of
    [Array.prototype.sort]; wallet ids are ASCII uuids). *)
Definition str_ltb (a b : string) : bool :=
  match Stdlib.Strings.String.compare a b with Lt => true | _ => false end.

(** [[a, b].sort()]. *)
Definition sort_pair (a b : string) : list string :=
  if str_ltb b a then [b; a] else [a; b].

Record xfer := mkXfer {
  x_from : string; x_to : string; x_user : string; x_amount : number; x_desc : option string
}.

Definition lock_order (p : xfer) : list string := sort_pair (x_from p) (x_to p).

(** Program counter of a running transfer: 0 waits for [lock1]; 1 holds
    [lock1] and waits for [lock2]; 2 holds both and runs the body; 3 has
    released [lock2] and releases [lock1]; 4 has returned. *)
Record sys := mkSys {
  pcs : list nat;
  held : gmap string nat;   (* wallet id -> index of the holding transfer *)
  ledger : store
}.

Inductive step (ps : list xfer) : sys -> sys -> Prop :=
| step_lock1 i p l1 l2 pc h st :
    ps !! i = Some p -> lock_order p = [l1; l2] -> pc !! i = Some 0 -> h !! l1 = None ->
    step ps (mkSys pc h st) (mkSys (<[i := 1]> pc) (<[l1 := i]> h) st)
| step_lock2 i p l1 l2 pc h st :
    ps !! i = Some p -> lock_order p = [l1; l2] -> pc !! i = Some 1 -> h !! l2 = None ->
    step ps (mkSys pc h st) (mkSys (<[i := 2]> pc) (<[l2 := i]> h) st)
| step_body i p l1 l2 pc h st :
    ps !! i = Some p -> lock_order p = [l1; l2] -> pc !! i = Some 2 ->
    step ps (mkSys pc h st)
      (mkSys (<[i := 3]> pc) (delete l2 h)
         (snd (transfer (x_from p) (x_to p) (x_user p) (x_amount p) (x_desc p) st)))
| step_unlock1 i p l1 l2 pc h st :
    ps !! i = Some p -> lock_order p = [l1; l2] -> pc !! i = Some 3 ->
    step ps (mkSys pc h st) (mkSys (<[i := 4]> pc) (delete l1 h) st).

Definition sys_init (ps : list xfer) (st : store) : sys :=
  mkSys (map (fun _ => 0) ps) ∅ st.

Definition all_returned (s : sys) : Prop := Forall (fun pc => pc = 4) (pcs s).

(** Steps left before every transfer has returned. *)
Definition steps_left (s : sys) : nat := sum_list (map (fun pc => 4 - pc) (pcs s)).

(** The lock table while transfers that all lock [a] then [b] run:
    [a] is held by exactly the transfer between its two acquisitions and
    its release, [b] by exactly the transfer running its body. *)
Definition lock_inv (ps : list xfer) (a b : string) (S : sys) : Prop :=
  length (pcs S) = length ps /\
  (forall i pc, pcs S !! i = Some pc -> pc <= 4) /\
  (forall i, held S !! a = Some i <->
     pcs S !! i = Some 1 \/ pcs S !! i = Some 2 \/ pcs S !! i = Some 3) /\
  (forall i, held S !! b = Some i <-> pcs S !! i = Some 2).

(** The states a lone transfer from a wallet [x] to itself can be in:
    waiting for its first lock, or holding it and waiting for the
    second acquisition of the same mutex. *)
Definition self_inv (x : string) (S : sys) : Prop :=
  (pcs S = [0] /\ held S = ∅) \/ (pcs S = [1] /\ held S = {[x := 0]}).

(* ------------------------------------------------------------------ *)
(** ** Sample stores *)

Definition wA : wallet := mkWallet "A" "alice" 50000 "Basic" 100000.
Definition wB : wallet := mkWallet "B" "bob" 0 "Basic" 100000.

(** Errors of the infrastructure: the Postgres client and the file system. *)
Definition e_conn : js_error := Error "Error" "Connection terminated unexpectedly".
Definition e_fs : js_error := Error "Error" "ENOSPC: no space left on device, write".

Definition store_of (ws : list wallet) (f : list (option js_error)) : store :=
  mkStore (list_to_map (map (fun w => (w_id w, w)) ws)) [] 0 0 f [].

Definition balance_of (s : store) (id : string) : option Z :=
  w_balance <$> wallets s !! id.

(** A run of requests on the sample wallets; the first transfer is
    rejected for insufficient funds. *)
Definition sample_ops : list op :=
  [OpCreateWallet "carol" "Basic";
   OpDeposit "B" (literal 2500 100) "UPI" None;
   OpTransfer "A" "B" "bob" (literal 60000 100) None;
   OpTransfer "B" "A" "alice" (literal 1250 100) None].

(* ------------------------------------------------------------------ *)
(** ** [getWalletLock]: the map of per-wallet mutexes

    [walletLocks] maps a wallet id to its [Mutex]; a mutex is named by
    the number of mutexes created before it, since every [new Mutex()]
    is a fresh object. *)

Record lock_table := mkLockTable {
  walletLocks : gmap string nat;
  mutexes_created : nat
}.

(** [if (!walletLocks.has(id)) walletLocks.set(id, new Mutex());
    return walletLocks.get(id)!]. *)
Definition getWalletLock (walletId : string) (t : lock_table) : option nat * lock_table :=
  let t :=
    match walletLocks t !! walletId with
    | Some _ => t
    | None => mkLockTable (<[walletId := mutexes_created t]> (walletLocks t))
                          (S (mutexes_created t))
    end in
  (walletLocks t !! walletId, t).

(** A table in which every mutex was created and no mutex serves two
    wallets. *)
Definition lock_table_wf (t : lock_table) : Prop :=
  map_Forall (fun _ m => m < mutexes_created t) (walletLocks t) /\
  (forall a b m, walletLocks t !! a = Some m -> walletLocks t !! b = Some m -> a = b).

Definition empty_lock_table : lock_table := mkLockTable ∅ 0.

(* ------------------------------------------------------------------ *)
(** ** Users: [getWalletByUserId] and [upsertUser] *)

(** A row of [users]; timestamps are not modelled. *)
Record user := mkUser {
  u_id : string;
  u_email : option string;
  u_firstName : option string;
  u_lastName : option string;
  u_profileImageUrl : option string
}.

(** An [UpsertUser] object: [None] is a key left [undefined], [Some None]
    an explicit [null].  The id is always given by the sign-in code that
    calls [upsertUser]. *)
Record upsert_user := mkUpsertUser {
  d_id : string;
  d_email : option (option string);
  d_firstName : option (option string);
  d_lastName : option (option string);
  d_profileImageUrl : option (option string)
}.

(** [db.select().from(wallets).where(eq(wallets.userId, userId))], first
    row; the rows come in the order of the map, standing for the order
    Postgres happens to return. *)
Definition getWalletByUserId (userId : string) : M (option wallet) :=
  fun s => (Ok (head (List.filter (fun w => String.eqb (w_userId w) userId)
                        (map snd (map_to_list (wallets s))))), s).

(** Every wallet row is stored under its own id, as the primary key of
    [wallets] has it. *)
Definition wallets_keyed (s : store) : Prop :=
  map_Forall (fun k w => w_id w = k) (wallets s).

(** Another user already has this email: the [users_email_unique]
    constraint rejects the row ([NULL]s never clash). *)
Definition email_taken (us : gmap string user) (id : string) (email : option string) : bool :=
  match email with
  | None => false
  | Some e => existsb (fun '(_, u) => negb (String.eqb (u_id u) id)
                                     && bool_decide (u_email u = Some e))
                (map_to_list us)
  end.

Definition unique_violation : js_error :=
  Error "error" "duplicate key value violates unique constraint".

(** [insert(users).values(userData).onConflictDoUpdate({target: users.id,
    set: {...userData, updatedAt}}).returning()] on the [users] table: a
    new id gets the given columns and [NULL] elsewhere; an existing id
    keeps the columns [userData] leaves [undefined]. *)
Definition upsert_user_row (d : upsert_user) (us : gmap string user) : result user * gmap string user :=
  let row :=
    match us !! d_id d with
    | None => mkUser (d_id d) (default None (d_email d)) (default None (d_firstName d))
                (default None (d_lastName d)) (default None (d_profileImageUrl d))
    | Some old => mkUser (d_id d) (default (u_email old) (d_email d))
                    (default (u_firstName old) (d_firstName d))
                    (default (u_lastName old) (d_lastName d))
                    (default (u_profileImageUrl old) (d_profileImageUrl d))
    end in
  if email_taken us (d_id d) (u_email row) then (Throw unique_violation, us)
  else (Ok row, <[d_id d := row]> us).

(** The database with its [users] table. *)
Record app_state := mkApp {
  users : gmap string user;
  db : store
}.

(** Calls that read or write the [users] table as well. *)
Definition UM (A : Type) : Type := app_state -> result A * app_state.

Global Instance UM_ret : MRet UM := fun A a st => (Ok a, st).
Global Instance UM_bind : MBind UM := fun A B k m st =>
  match m st with
  | (Ok a, st') => k a st'
  | (Throw e, st') => (Throw e, st')
  end.

Definition lift_db {A} (m : M A) : UM A :=
  fun st => let (r, s') := m (db st) in (r, mkApp (users st) s').

Definition users_upsert_row (d : upsert_user) : UM user :=
  fun st => let (r, us') := upsert_user_row d (users st) in (r, mkApp us' (db st)).

Definition db_upsert_user (d : upsert_user) : UM user :=
  _ ← lift_db fault_point;
  users_upsert_row d.

(** [DatabaseStorage.upsertUser]. *)
Definition upsertUser (userData : upsert_user) : UM user :=
  user ← db_upsert_user userData;
  existingWallet ← lift_db (getWalletByUserId (u_id user));
  match existingWallet with
  | None => _ ← lift_db (createWallet (u_id user) "Basic"); mret user
  | Some _ => mret user
  end.

(* ------------------------------------------------------------------ *)
(** ** The route handlers of [/api/transfer] and [/api/deposit]

    A JSON value of a request body; [JNum] holds the double [JSON.parse]
    reads (a literal too large for a double reads as [Infinity]), and
    arrays and objects, which no field of the two schemas accepts, are
    one case. *)

Inductive jval :=
| JNull
| JBool (b : bool)
| JNum (x : number)
| JStr (s : string)
| JComposite.

(** [req.body]: a JSON object, or anything else. *)
Inductive req_body :=
| ObjBody (fields : gmap string jval)
| OtherBody.

(** [z.string().optional()]. *)
Definition zod_optional_string (v : option jval) : option (option string) :=
  match v with
  | None => Some None
  | Some (JStr s) => Some (Some s)
  | Some _ => None
  end.

(** [z.number().positive()]: a number greater than [0] ([z.number()]
    lets [Infinity] through and rejects [NaN]). *)
Definition zod_positive_number (v : option jval) : option number :=
  match v with
  | Some (JNum x) => if num_lt (S754_zero false) x then Some x else None
  | _ => None
  end.

(** [z.enum(values)]. *)
Definition zod_enum (values : list string) (v : option jval) : option string :=
  match v with
  | Some (JStr s) => if existsb (String.eqb s) values then Some s else None
  | _ => None
  end.

Record transfer_request := mkTransferRequest {
  tr_recipientUserId : string;
  tr_amount : number;
  tr_paymentMode : string;
  tr_description : option string
}.

(** [transferSchema.safeParse(req.body)]. *)
Definition parse_transfer (b : req_body) : option transfer_request :=
  match b with
  | OtherBody => None
  | ObjBody f =>
      match f !! "recipientUserId", zod_positive_number (f !! "amount"),
            zod_enum ["WalletBalance"] (f !! "paymentMode"),
            zod_optional_string (f !! "description") with
      | Some (JStr r), Some a, Some m, Some d =>
          if Nat.leb 1 (String.length r) then Some (mkTransferRequest r a m d) else None
      | _, _, _, _ => None
      end
  end.

Record deposit_request := mkDepositRequest {
  dr_amount : number;
  dr_paymentMode : string;
  dr_description : option string
}.

(** [depositSchema.safeParse(req.body)]. *)
Definition parse_deposit (b : req_body) : option deposit_request :=
  match b with
  | OtherBody => None
  | ObjBody f =>
      match zod_positive_number (f !! "amount"),
            zod_enum ["UPI"; "Card"; "WalletBalance"] (f !! "paymentMode"),
            zod_optional_string (f !! "description") with
      | Some a, Some m, Some d => Some (mkDepositRequest a m d)
      | _, _, _ => None
      end
  end.

(** The JSON bodies the two handlers answer with; the [errors] list of a
    validation failure is not modelled. *)
Inductive resp_body :=
| BMessage (message : string)
| BInvalid (message : string)
| BInsufficient (message : string) (availableBalance requestedAmount : number)
| BTransfer (message : string) (transaction : option transaction)
| BDeposit (message : string) (transaction : option transaction)
    (paymentTransactionId : option string).

(** A status code with its body. *)
Definition response : Type := (nat * resp_body)%type.

(** [error.message || fallback]. *)
Definition message_or (e : js_error) (fallback : string) : string :=
  if String.eqb (error_message e) "" then fallback else error_message e.

Definition from_result {A} (r : result A) : M A := fun s => (r, s).

(** The [/api/transfer] handler for the signed-in user [userId]. *)
Definition transfer_route (userId : string) (body : req_body) : M response :=
  try_catch
    (match parse_transfer body with
     | None => mret (400, BInvalid "Invalid request data")
     | Some req =>
         senderWallet ← getWalletByUserId userId;
         match senderWallet with
         | None => mret (404, BMessage "Sender wallet not found")
         | Some sw =>
             recipientWallet ← getWalletByUserId (tr_recipientUserId req);
             match recipientWallet with
             | None => mret (404, BMessage "Recipient wallet not found")
             | Some rw =>
                 if String.eqb (w_id sw) (w_id rw)
                 then mret (400, BMessage "Cannot transfer to yourself")
                 else
                   transaction ← transfer (w_id sw) (w_id rw) (tr_recipientUserId req)
                                   (tr_amount req) (tr_description req);
                   mret (200, BTransfer "Transfer successful" transaction)
             end
         end
     end)
    (fun error =>
       match error with
       | InsufficientFundsException a r _ =>
           mret (400, BInsufficient (error_message error) a r)
       | Error _ _ => mret (500, BMessage (message_or error "Failed to process transfer"))
       end).

(** What [paymentContext.executePayment] resolves to. *)
Record payment_result := mkPaymentResult {
  p_success : bool;
  p_transactionId : option string;
  p_errorMessage : option string
}.

(** [paymentResult.errorMessage || "Payment processing failed"]. *)
Definition payment_message (p : payment_result) : string :=
  match p_errorMessage p with
  | Some m => if String.eqb m "" then "Payment processing failed" else m
  | None => "Payment processing failed"
  end.

(** The [/api/deposit] handler.  The payment strategies
    ([PaymentStrategyFactory], [PaymentContext]) are not among the
    sources: [pay paymentMode amount description] stands for
    [new PaymentContext(getStrategy(paymentMode)).executePayment(amount,
    description)], an external gateway that touches no table and may
    resolve or throw. *)
Definition deposit_route (pay : string -> number -> option string -> result payment_result)
    (userId : string) (body : req_body) : M response :=
  try_catch
    (match parse_deposit body with
     | None => mret (400, BInvalid "Invalid request data")
     | Some req =>
         wallet ← getWalletByUserId userId;
         match wallet with
         | None => mret (404, BMessage "Wallet not found")
         | Some w =>
             paymentResult ← from_result (pay (dr_paymentMode req) (dr_amount req)
                                              (dr_description req));
             if negb (p_success paymentResult)
             then mret (400, BMessage (payment_message paymentResult))
             else
               transaction ← deposit (w_id w) (dr_amount req) (dr_paymentMode req)
                               (dr_description req);
               mret (200, BDeposit "Deposit successful" transaction
                            (p_transactionId paymentResult))
         end
     end)
    (fun error => mret (500, BMessage (message_or error "Failed to process deposit"))).

(* ------------------------------------------------------------------ *)
(** ** The [/api/analytics] handler

    Computed from the transactions of the user's wallet.  Whether a
    transaction was created today depends on its [createdAt] and on the
    clock, neither of which is modelled: [isToday] stands for that test.
    The groups are keyed by [paymentMode], one of the three modes of the
    schema, so no key collides with a property of [Object.prototype]. *)

Record group := mkGroup {
  g_count : nat;
  g_totalAmount : number;
  g_transactions : list transaction
}.

(** What one step of the grouping [reduce] makes of the group of its
    transaction's mode. *)
Definition add_opt (og : option group) (tx : transaction) : option group :=
  let g := default (mkGroup 0 (S754_zero false) []) og in
  Some (mkGroup (S (g_count g)) (num_add (g_totalAmount g) (parseFloat (t_amount tx)))
                (g_transactions g ++ [tx])).

Record analytics := mkAnalytics {
  failedTransactions : list transaction;
  dailyTotal : number;
  dailyTransactionCount : nat;
  groupedByPaymentType : gmap string group;
  totalTransactions : nat;
  successfulTransactions : nat
}.

Definition is_status (st : string) (tx : transaction) : bool := String.eqb (t_status tx) st.

(** One step of the [reduce] that groups by payment mode. *)
Definition add_to_group (acc : gmap string group) (tx : transaction) : gmap string group :=
  let mode := t_paymentMode tx in
  let acc := match acc !! mode with
             | None => <[mode := mkGroup 0 (S754_zero false) []]> acc
             | Some _ => acc
             end in
  match acc !! mode with
  | Some g => <[mode := mkGroup (S (g_count g)) (num_add (g_totalAmount g) (parseFloat (t_amount tx)))
                                (g_transactions g ++ [tx])]> acc
  | None => acc
  end.

Definition analytics_of (isToday : transaction -> bool) (txs : list transaction) : analytics :=
  let failed := List.filter (is_status "failed") txs in
  let daily := List.filter (fun tx => isToday tx && is_status "success" tx) txs in
  let total := fold_left (fun sum tx => num_add sum (parseFloat (t_amount tx))) daily (S754_zero false) in
  let grouped := fold_left add_to_group (List.filter (is_status "success") txs) ∅ in
  mkAnalytics failed total (length daily) grouped (length txs)
    (length (List.filter (is_status "success") txs)).

(* ------------------------------------------------------------------ *)
(** ** [WalletSerializer]: the [wallet_data] directory

    A file holds a JSON object, or text that cannot be read back as one
    ([None]).  The [createdAt] and [updatedAt] columns are not modelled;
    [serializedAt] is the time of the write. *)

Definition jobject : Type := gmap string jval.

Definition wallet_file_name (walletId : string) : string :=
  "wallet_" ++ walletId ++ ".json".

(** The wallet row as JSON: the decimal columns come as strings. *)
Definition wallet_json (w : wallet) : jobject :=
  <["id" := JStr (w_id w)]> (<["userId" := JStr (w_userId w)]>
  (<["balance" := JStr (decimal_to_string (w_balance w))]>
  (<["walletType" := JStr (w_walletType w)]>
  (<["transactionLimit" := JStr (decimal_to_string (w_transactionLimit w))]> ∅)))).

(** [{...wallet, serializedAt: new Date().toISOString()}]. *)
Definition serialized_json (stamp : string) (w : wallet) : jobject :=
  <["serializedAt" := JStr stamp]> (wallet_json w).

(** The files written by the [serializeWallet] calls of a trace: a write
    that failed after opening the file leaves it unreadable. *)
Definition apply_writes (stamp : string) (evs : list event)
    (files : gmap string (option jobject)) : gmap string (option jobject) :=
  fold_left (fun fs ev =>
               match ev with
               | EvSerializeWallet w =>
                   <[wallet_file_name (w_id w) := Some (serialized_json stamp w)]> fs
               | EvSerializeFailed w => <[wallet_file_name (w_id w) := None]> fs
               | _ => fs
               end) evs files.

(** [WalletSerializer.deserializeWallet]: [null] on any failure. *)
Definition deserializeWallet (walletId : string) (files : gmap string (option jobject))
    : option jobject :=
  match files !! wallet_file_name walletId with
  | Some (Some data) => Some (delete "serializedAt" data)
  | _ => None
  end.

Definition startsWith (s prefix : string) : bool := String.prefix prefix s.

Definition endsWith (s suffix : string) : bool :=
  Nat.leb (String.length suffix) (String.length s) &&
  String.eqb (substring (String.length s - String.length suffix) (String.length suffix) s) suffix.

Definition is_wallet_file (f : string) : bool := startsWith f "wallet_" && endsWith f ".json".

(** The [for] loop: the first unreadable file throws out of it. *)
Fixpoint read_wallet_files (files : gmap string (option jobject)) (names : list string)
    : option (list jobject) :=
  match names with
  | [] => Some []
  | f :: rest =>
      match files !! f with
      | Some (Some data) => cons (delete "serializedAt" data) <$> read_wallet_files files rest
      | _ => None
      end
  end.

(** [WalletSerializer.getAllSerializedWallets]: [fs.readdir] lists the
    files in the order of the map; any failure gives [[]]. *)
Definition getAllSerializedWallets (files : gmap string (option jobject)) : list jobject :=
  let walletFiles := List.filter is_wallet_file (map fst (map_to_list files)) in
  match read_wallet_files files walletFiles with
  | Some ws => ws
  | None => []
  end.

(** Every stored wallet has a file that reads back as its row. *)
Definition files_mirror (files : gmap string (option jobject)) (s : store) : Prop :=
  forall id w, wallets s !! id = Some w -> deserializeWallet id files = Some (wallet_json w).

(* ------------------------------------------------------------------ *)
(** ** Sample requests *)

(** A Basic wallet whose balance has grown past its transaction limit. *)
Definition wC : wallet := mkWallet "C" "carol" 200000 "Basic" 100000.

Definition transfer_body (recipientUserId : string) (amount : number) : req_body :=
  ObjBody (<["recipientUserId" := JStr recipientUserId]>
          (<["amount" := JNum amount]> (<["paymentMode" := JStr "WalletBalance"]> ∅))).

Definition deposit_body (amount : number) (paymentMode : string) : req_body :=
  ObjBody (<["amount" := JNum amount]> (<["paymentMode" := JStr paymentMode]> ∅)).

Definition gateway_approves (paymentMode : string) (amount : number) (description : option string)
    : result payment_result :=
  Ok (mkPaymentResult true (Some "pay_1") None).

Definition gateway_declines (paymentMode : string) (amount : number) (description : option string)
    : result payment_result :=
  Ok (mkPaymentResult false None (Some "Card declined")).

Definition dave : user := mkUser "dave" (Some "dave@example.com") None None None.

Definition sample_app (f : list (option js_error)) : app_state :=
  mkApp {["dave" := dave]} (store_of [wA; wB] f).

Definition carol_signs_in (email : string) : upsert_user :=
  mkUpsertUser "carol" (Some (Some email)) (Some (Some "Carol")) None None.

Definition sample_stamp : string := "2024-01-01T00:00:00.000Z".

Definition sample_files : gmap string (option jobject) :=
  apply_writes sample_stamp [EvSerializeWallet wA; EvSerializeWallet wB] ∅.

(** The user row that [carol_signs_in "carol@example.com"] stores. *)
Definition carol_user : user := mkUser "carol" (Some "carol@example.com") (Some "Carol") None None.

(** The record of a 100.00 transfer from wallet A to wallet B, after success. *)
Definition alice_to_bob_out : transaction :=
  mkTransaction 0 "A" 10000 "transfer_out" "WalletBalance" "success" None (Some "B") (Some "bob") None.

(** The record of a 25.00 UPI deposit on wallet A, after success. *)
Definition alice_deposit : transaction :=
  mkTransaction 0 "A" 2500 "deposit" "UPI" "success" None None None None.

(** [sample_files] with wallet A's file unreadable. *)
Definition corrupt_files : gmap string (option jobject) :=
  <["wallet_A.json" := None]> sample_files.

(** [sample_files] with an unreadable file that is not a wallet file. *)
Definition files_with_notes : gmap string (option jobject) :=
  <["notes.txt" := None]> sample_files.

(** The record of a 25.00 UPI deposit on wallet B, after success. *)
Definition bob_deposit : transaction :=
  mkTransaction 0 "B" 2500 "deposit" "UPI" "success" None None None None.


(** The record of a 1.005 UPI deposit on wallet B, after success. *)
Definition bob_odd_deposit : transaction :=
  mkTransaction 0 "B" 101 "deposit" "UPI" "success" None None None None.

(* ================================================================== *)
(** * Lemmas *)

(** [setoid_replace] on [Q] rewrites with [Qeq]. *)
#[local] Instance Qeq_default_relation : DefaultRelation Qeq | 0 := {}.

(** ** Doubles *)
(* ---------------------------------------------------------------- *)

Lemma Qpow2_pos k : (0 < Qpow2 k)%Q.
Proof. apply Qpower_0_lt. reflexivity. Qed.

Lemma Qpow2_add a b : (Qpow2 (a + b) == Qpow2 a * Qpow2 b)%Q.
Proof. unfold Qpow2. apply Qpower_plus. discriminate. Qed.

Lemma Qpow2_le a b : (a <= b)%Z -> (Qpow2 a <= Qpow2 b)%Q.
Proof. intros H. apply Qpower_le_compat_l; [exact H | discriminate]. Qed.

Lemma Qpow2_le_inv a b : (Qpow2 a <= Qpow2 b)%Q -> (a <= b)%Z.
Proof. intros H. apply (Qpower_le_compat_l_inv (2 # 1)); [exact H | reflexivity]. Qed.

Lemma Qpow2_lt_inv a b : (Qpow2 a < Qpow2 b)%Q -> (a < b)%Z.
Proof. intros H. apply (Qpower_lt_compat_l_inv (2 # 1)); [exact H | reflexivity]. Qed.

Lemma Qpow2_Z k : (0 <= k)%Z -> (Qpow2 k == inject_Z (2 ^ k))%Q.
Proof. intros H. unfold Qpow2. rewrite Zpower_Qpower by exact H. reflexivity. Qed.

Lemma Qpow2_inv k : (Qpow2 (- k) * Qpow2 k == 1)%Q.
Proof. rewrite <- Qpow2_add. replace (- k + k)%Z with 0%Z by lia. reflexivity. Qed.

Lemma round_even_spec n d : (0 <= n)%Z ->
  (0 <= round_even n d)%Z /\ (Z.abs (2 * (round_even n d * Zpos d - n)) <= Zpos d)%Z.
Proof.
  intros Hn. unfold round_even.
  pose proof (Z.div_mod n (Zpos d) ltac:(lia)) as Hdm.
  pose proof (Z.mod_pos_bound n (Zpos d) ltac:(lia)) as Hb.
  assert (0 <= n / Zpos d)%Z by (apply Z.div_pos; lia).
  set (q := (n / Zpos d)%Z) in *. set (r := (n mod Zpos d)%Z) in *.
  destruct (Z.compare_spec (2 * r) (Zpos d)).
  - destruct (Z.even q); split; try lia; apply Z.abs_le; split; nia.
  - split; [lia|]. apply Z.abs_le; split; nia.
  - split; [lia|]. apply Z.abs_le; split; nia.
Qed.

Lemma Qnum_pos a : (0 < a)%Q -> (0 < Qnum a)%Z.
Proof. destruct a as [n d]. unfold Qlt. simpl. lia. Qed.

Lemma binade_le a : (0 < a)%Q -> (Qpow2 (binade a) <= a)%Q.
Proof.
  intros Ha. unfold binade.
  set (L := (Z.log2 (Qnum a) - Z.log2 (Zpos (Qden a)))%Z).
  destruct (Qle_bool (Qpow2 L) a) eqn:E.
  - apply Qle_bool_iff. exact E.
  - pose proof (Qnum_pos a Ha) as Hn.
    destruct a as [n d]. simpl in *.
    pose proof (Z.log2_spec n Hn) as [Hn1 _].
    pose proof (Z.log2_spec (Zpos d) ltac:(lia)) as [_ Hd2].
    assert (Hx : (0 <= Z.log2 n)%Z) by apply Z.log2_nonneg.
    assert (Hy : (0 <= Z.log2 (Zpos d))%Z) by apply Z.log2_nonneg.
    set (x := Z.log2 n) in *. set (y := Z.log2 (Zpos d)) in *.
    assert (Hsplit : (Qpow2 (L - 1) * Qpow2 (y + 1) == Qpow2 x)%Q).
    { rewrite <- Qpow2_add. assert (HL : L = (x - y)%Z) by reflexivity.
      rewrite HL. replace (x - y - 1 + (y + 1))%Z with x by lia. reflexivity. }
    rewrite (Qpow2_Z x Hx) in Hsplit. rewrite (Qpow2_Z (y + 1)) in Hsplit by lia.
    assert (Hpos : (0 < Qpow2 (L - 1))%Q) by apply Qpow2_pos.
    set (P := Qpow2 (L - 1)) in *. clearbody P.
    destruct P as [pn pd].
    unfold Qeq, Qmult in Hsplit. simpl in Hsplit.
    unfold Qlt in Hpos. simpl in Hpos.
    unfold Qle. simpl.
    assert (0 < 2 ^ (y + 1))%Z by (apply Z.pow_pos_nonneg; lia).
    nia.
Qed.


Lemma sgn_dist s x y : (Qabs (sgn s x - sgn s y) == Qabs (x - y))%Q.
Proof.
  destruct s; unfold sgn; [|reflexivity].
  setoid_replace (- x - - y)%Q with (- (x - y))%Q by ring. apply Qabs_opp.
Qed.

Lemma num_value_finite s p e :
  num_value (S754_finite s p e) = sgn s (inject_Z (Zpos p) * Qpow2 e)%Q.
Proof. destruct s; reflexivity. Qed.

Lemma Qpow2_half E : (Qpow2 E == (2 # 1) * Qpow2 (E - 1))%Q.
Proof.
  replace E with ((E - 1) + 1)%Z at 1 by lia. rewrite Qpow2_add.
  unfold Qpow2 at 2. simpl. ring.
Qed.

Lemma scaled_error m r a E : (a == r * Qpow2 E)%Q -> (Qabs (inject_Z m - r) <= 1 # 2)%Q ->
  (Qabs (inject_Z m * Qpow2 E - a) <= Qpow2 (E - 1))%Q.
Proof.
  intros Ha Hm. rewrite Ha.
  setoid_replace (inject_Z m * Qpow2 E - r * Qpow2 E)%Q with ((inject_Z m - r) * Qpow2 E)%Q by ring.
  rewrite Qabs_Qmult. rewrite (Qabs_pos (Qpow2 E)) by (apply Qlt_le_weak, Qpow2_pos).
  rewrite (Qpow2_half E).
  assert (HP : (0 < Qpow2 (E - 1))%Q) by apply Qpow2_pos.
  set (P := Qpow2 (E - 1)) in *.
  apply Qle_trans with ((1 # 2) * ((2 # 1) * P))%Q.
  - apply Qmult_le_compat_r; [exact Hm|]. lra.
  - lra.
Qed.

Lemma round_pos_spec s a : (0 < a)%Q -> (Z.max (binade a - 52) (-1074) <= 970)%Z ->
  is_finite (round_pos s a) = true /\
  (Qabs (num_value (round_pos s a) - sgn s a) <= Qpow2 (Z.max (binade a - 52) (-1074) - 1))%Q.
Proof.
  intros Ha HE. unfold round_pos.
  set (E := Z.max (binade a - 52) (-1074)) in *.
  set (r := (a * Qpow2 (- E))%Q).
  assert (Hr : (0 < r)%Q) by (apply Qmult_lt_0_compat; [exact Ha | apply Qpow2_pos]).
  assert (Har : (a == r * Qpow2 E)%Q).
  { unfold r. rewrite <- Qmult_assoc, Qpow2_inv. ring. }
  pose proof (round_even_spec (Qnum r) (Qden r) ltac:(pose proof (Qnum_pos r Hr); lia)) as [Hm0 Hm].
  set (m := round_even (Qnum r) (Qden r)) in *.
  assert (Hmr : (Qabs (inject_Z m - r) <= 1 # 2)%Q).
  { clearbody r m. destruct r as [rn rd]. cbn [Qnum Qden] in Hm.
    apply Z.abs_le in Hm.
    rewrite Qabs_Qle_condition. unfold Qle, Qminus, Qplus, Qopp, inject_Z; simpl.
    change (Z.neg rd) with (- Z.pos rd)%Z. split; nia. }
  pose proof (scaled_error m r a E Har Hmr) as Herr.
  clearbody m.
  destruct (m =? 2 ^ 53)%Z eqn:Hc.
  - apply Z.eqb_eq in Hc. subst m.
    assert (Hle : (E + 1 <=? 971)%Z = true) by (apply Z.leb_le; lia).
    change (2 ^ 52)%Z with (Zpos 4503599627370496). cbv beta iota zeta. rewrite Hle. split; [reflexivity|].
    rewrite num_value_finite, sgn_dist.
    setoid_replace (inject_Z 4503599627370496 * Qpow2 (E + 1))%Q
      with (inject_Z (2 ^ 53) * Qpow2 E)%Q; [exact Herr|].
    rewrite Qpow2_add. setoid_replace (Qpow2 1) with (2 # 1)%Q by reflexivity.
    setoid_replace (inject_Z (2 ^ 53)) with (inject_Z 4503599627370496 * (2 # 1))%Q by reflexivity.
    ring.
  - destruct m as [|p|p]; try lia.
    + split; [reflexivity|]. simpl num_value.
      setoid_replace (0 - sgn s a)%Q with (sgn s 0%Q - sgn s a)%Q by (destruct s; simpl; ring).
      rewrite sgn_dist.
      setoid_replace (0 - a)%Q with (inject_Z 0 * Qpow2 E - a)%Q by ring. exact Herr.
    + assert (Hle : (E <=? 971)%Z = true) by (apply Z.leb_le; lia).
      rewrite Hle. split; [reflexivity|].
      rewrite num_value_finite, sgn_dist. exact Herr.
Qed.

Lemma number_of_Q_error q K : (0 <= K <= 900)%Z -> (Qabs q < Qpow2 K)%Q ->
  is_finite (number_of_Q q) = true /\ (Qabs (num_value (number_of_Q q) - q) <= Qpow2 (K - 53))%Q.
Proof.
  intros HK Hq. unfold number_of_Q.
  assert (Hfit : forall a, (0 < a)%Q -> (a < Qpow2 K)%Q ->
            (Z.max (binade a - 52) (-1074) <= 970)%Z /\
            (Qpow2 (Z.max (binade a - 52) (-1074) - 1) <= Qpow2 (K - 53))%Q).
  { intros a Ha HaK. pose proof (binade_le a Ha) as Hb.
    assert (binade a < K)%Z by (apply Qpow2_lt_inv; eapply Qle_lt_trans; eassumption).
    split; [lia|]. apply Qpow2_le. lia. }
  destruct q as [n d]. simpl Qnum. destruct n as [|p|p].
  - split; [reflexivity|]. simpl. unfold Qabs, Qminus, Qplus, Qopp. simpl. unfold Qle. simpl.
    pose proof (Qpow2_pos (K - 53)) as HP. unfold Qlt in HP. simpl in HP. lia.
  - assert (Ha : (0 < Zpos p # d)%Q) by (unfold Qlt; simpl; lia).
    rewrite Qabs_pos in Hq by (apply Qlt_le_weak; exact Ha).
    destruct (Hfit _ Ha Hq) as [H1 H2].
    destruct (round_pos_spec false _ Ha H1) as [Hf He].
    split; [exact Hf|]. eapply Qle_trans; [exact He | exact H2].
  - assert (Ha : (0 < - (Zneg p # d))%Q) by (unfold Qlt; simpl; lia).
    rewrite Qabs_neg in Hq by (unfold Qle; simpl; lia).
    destruct (Hfit _ Ha Hq) as [H1 H2].
    destruct (round_pos_spec true _ Ha H1) as [Hf He].
    split; [exact Hf|]. eapply Qle_trans; [|exact H2].
    setoid_replace (Zneg p # d)%Q with (sgn true (- (Zneg p # d)))%Q at 2 by (simpl; ring).
    exact He.
Qed.

Lemma num_neg_value x : is_finite x = true ->
  is_finite (num_neg x) = true /\ (num_value (num_neg x) == - num_value x)%Q.
Proof.
  destruct x as [s|s| |s m e]; simpl; intros H; try discriminate; split; try reflexivity.
  destruct s; simpl; ring.
Qed.

Lemma num_add_error x y K : is_finite x = true -> is_finite y = true -> (0 <= K <= 900)%Z ->
  (Qabs (num_value x + num_value y) < Qpow2 K)%Q ->
  is_finite (num_add x y) = true /\
  (Qabs (num_value (num_add x y) - (num_value x + num_value y)) <= Qpow2 (K - 53))%Q.
Proof.
  intros Hx Hy HK Hq.
  assert (Hgen : forall q, (q == num_value x + num_value y)%Q ->
    is_finite (if Qeq_bool q 0 then S754_zero false else number_of_Q q) = true /\
    (Qabs (num_value (if Qeq_bool q 0 then S754_zero false else number_of_Q q)
           - (num_value x + num_value y)) <= Qpow2 (K - 53))%Q).
  { intros q Hqe. destruct (Qeq_bool q 0) eqn:E.
    - apply Qeq_bool_iff in E. split; [reflexivity|].
      change (num_value (S754_zero false)) with 0%Q.
      rewrite <- Hqe, E. setoid_replace (0 - 0)%Q with 0%Q by ring.
      apply Qlt_le_weak, Qpow2_pos.
    - rewrite <- Hqe. apply number_of_Q_error; [exact HK|]. rewrite Hqe. exact Hq. }
  destruct x as [sx|sx| |sx mx ex]; destruct y as [sy|sy| |sy my ey];
    try discriminate; try (apply Hgen; reflexivity).
  split; [reflexivity|]. cbn [num_value num_add]. setoid_replace (0 - (0 + 0))%Q with 0%Q by ring.
  apply Qlt_le_weak, Qpow2_pos.
Qed.

Lemma num_lt_finite x y : is_finite x = true -> is_finite y = true ->
  num_lt x y = Qlt_bool (num_value x) (num_value y).
Proof.
  destruct x as [sx|sx| |sx mx ex]; destruct y as [sy|sy| |sy my ey];
    intros Hx Hy; try discriminate; reflexivity.
Qed.

Lemma Qlt_bool_true x y : Qlt_bool x y = true <-> (x < y)%Q.
Proof.
  unfold Qlt_bool. rewrite negb_true_iff.
  split; intros H.
  - apply Qnot_le_lt. intros H'. apply Qle_bool_iff in H'. congruence.
  - destruct (Qle_bool y x) eqn:E; [|reflexivity].
    apply Qle_bool_iff in E. exfalso. apply (Qlt_not_le x y H E).
Qed.

Lemma Qlt_bool_false x y : Qlt_bool x y = false <-> (y <= x)%Q.
Proof.
  unfold Qlt_bool. rewrite negb_false_iff. apply Qle_bool_iff.
Qed.

Lemma number_of_Q_nonneg q : (0 <= q)%Q -> num_nonneg (number_of_Q q) = true.
Proof.
  intros H. unfold number_of_Q. destruct q as [n d]. simpl Qnum.
  destruct n as [|p|p]; [reflexivity| |].
  - unfold round_pos.
    destruct (_ =? 2 ^ 53)%Z;
      (match goal with |- context [match ?m with Zpos _ => _ | _ => _ end] => destruct m end);
      try reflexivity; destruct (_ <=? 971)%Z; reflexivity.
  - unfold Qle in H. simpl in H. lia.
Qed.

Lemma num_value_nonneg x : num_nonneg x = true -> (0 <= num_value x)%Q.
Proof.
  destruct x as [s|s| |s m e]; simpl; intros H; try (apply Qle_refl).
  destruct s; [discriminate|]. apply Qmult_le_0_compat.
  - unfold Qle; simpl; lia.
  - apply Qlt_le_weak, Qpow2_pos.
Qed.

Lemma num_add_nonneg x y : num_nonneg x = true -> num_nonneg y = true ->
  num_nonneg (num_add x y) = true.
Proof.
  intros Hx Hy.
  assert (Hgen : num_nonneg x = true -> num_nonneg y = true ->
    num_nonneg (let q := (num_value x + num_value y)%Q in
                if Qeq_bool q 0 then S754_zero false else number_of_Q q) = true).
  { intros. simpl. destruct (Qeq_bool _ 0); [reflexivity|].
    apply number_of_Q_nonneg.
    pose proof (num_value_nonneg x Hx). pose proof (num_value_nonneg y Hy). lra. }
  destruct x as [sx|sx| |sx mx ex]; destruct y as [sy|sy| |sy my ey];
    simpl in Hx, Hy; try discriminate; try (apply Hgen; assumption);
    destruct sx; destruct sy; simpl in *; try discriminate; reflexivity.
Qed.

Lemma finite_neg_not_pos m e : Qlt_bool 0 (num_value (S754_finite true m e)) = false.
Proof.
  apply Qlt_bool_false. pose proof (num_value_nonneg (S754_finite false m e) eq_refl).
  simpl in *. lra.
Qed.

Lemma num_sub_nonneg x y : num_nonneg x = true -> num_lt (S754_zero false) y = true ->
  num_lt x y = false -> num_sub x y = S754_nan \/ num_nonneg (num_sub x y) = true.
Proof.
  intros Hx Hy Hxy. unfold num_sub.
  destruct x as [sx|sx| |sx mx ex]; destruct y as [sy|sy| |sy my ey];
    try (destruct sx); try (destruct sy);
    simpl in Hx; try discriminate;
    cbn [num_lt] in Hy, Hxy; try discriminate;
    try (rewrite finite_neg_not_pos in Hy; discriminate);
    cbn [num_value] in Hy, Hxy; try congruence; auto.
  right. cbn [num_add num_neg].
  destruct (Qeq_bool _ 0); [reflexivity|]. apply number_of_Q_nonneg.
  apply Qlt_bool_false in Hxy. simpl in *. lra.
Qed.

Lemma Qfloor_unique q z : (inject_Z z <= q)%Q -> (q < inject_Z (z + 1))%Q -> Qfloor q = z.
Proof.
  intros H1 H2.
  assert (A : (z <= Qfloor q)%Z).
  { rewrite <- (Qfloor_Z z). apply Qfloor_resp_le. exact H1. }
  assert (B : (Qfloor q < z + 1)%Z).
  { apply Z.lt_nge. intros C. rewrite Zle_Qle in C.
    pose proof (Qfloor_le q). apply (Qlt_not_le _ _ H2). eapply Qle_trans; eassumption. }
  lia.
Qed.

Lemma Qmake_cents n : ((n # 100) == inject_Z n * (1 # 100))%Q.
Proof. unfold Qeq, Qmult, inject_Z. cbn [Qnum Qden]. lia. Qed.

Lemma round_cents_nonneg v : (0 <= v)%Q -> (0 <= round_cents v)%Z.
Proof.
  intros H. unfold round_cents.
  replace (Qle_bool 0 v) with true by (symmetry; apply Qle_bool_iff; exact H).
  change 0%Z with (Qfloor 0). apply Qfloor_resp_le.
  setoid_replace (inject_Z 100) with (100 # 1)%Q by reflexivity. lra.
Qed.

Lemma round_cents_near v n : (Qabs (v - (n # 100)) < 1 # 200)%Q -> round_cents v = n.
Proof.
  intros H. rewrite Qabs_Qlt_condition in H. rewrite Qmake_cents in H. destruct H as [H1 H2].
  unfold round_cents. change (inject_Z 100) with (100 # 1)%Q.
  destruct (Qle_bool 0 v) eqn:E.
  - apply Qfloor_unique.
    + lra.
    + rewrite inject_Z_plus. setoid_replace (inject_Z 1) with 1%Q by reflexivity. lra.
  - enough (Qfloor (- v * (100 # 1) + (1 # 2)) = (- n)%Z) by lia.
    apply Qfloor_unique.
    + rewrite inject_Z_opp. lra.
    + rewrite inject_Z_plus, inject_Z_opp. setoid_replace (inject_Z 1) with 1%Q by reflexivity. lra.
Qed.

Lemma toFixed2_text x : is_finite x = true -> (0 <= num_value x)%Q ->
  (num_value x < inject_Z (10 ^ 21))%Q ->
  toFixed2 x = decimal_to_string (round_cents (num_value x)).
Proof.
  intros Hf H0 H1.
  assert (Hlt : Qlt_bool (num_value x) 0 = false) by (apply Qlt_bool_false; exact H0).
  assert (Hle : Qle_bool (inject_Z (10 ^ 21)) (Qabs (num_value x)) = false).
  { destruct (Qle_bool _ _) eqn:E; [|reflexivity]. apply Qle_bool_iff in E.
    rewrite Qabs_pos in E by exact H0. exfalso. apply (Qlt_not_le _ _ H1 E). }
  assert (Hr : round_cents (num_value x) = Qfloor (Qabs (num_value x) * 100 + Qmake 1 2)).
  { unfold round_cents. replace (Qle_bool 0 (num_value x)) with true
      by (symmetry; apply Qle_bool_iff; exact H0).
    apply Qfloor_comp. rewrite Qabs_pos by exact H0. reflexivity. }
  destruct x as [s|s| |s m e]; try discriminate; unfold toFixed2;
    rewrite Hlt, Hle, Hr; reflexivity.
Qed.

Lemma pow2_34 : (Qpow2 34 == 17179869184 # 1)%Q.
Proof. reflexivity. Qed.
Lemma pow2_35 : (Qpow2 35 == 34359738368 # 1)%Q.
Proof. reflexivity. Qed.
Lemma pow2_m19 : (Qpow2 (-19) == 1 # 524288)%Q.
Proof. reflexivity. Qed.
Lemma pow2_m18 : (Qpow2 (-18) == 1 # 262144)%Q.
Proof. reflexivity. Qed.

Lemma Zcents_bound c : (Z.abs c < 10 ^ 12)%Z ->
  (- (10000000000 # 1) < inject_Z c * (1 # 100) < 10000000000 # 1)%Q.
Proof.
  intros H. split; unfold Qlt, Qmult, inject_Z; simpl; lia.
Qed.

Lemma parseFloat_near c : (Z.abs c < 10 ^ 12)%Z ->
  is_finite (number_of_Q (c # 100)) = true /\
  (Qabs (num_value (number_of_Q (c # 100)) - (c # 100)) <= Qpow2 (-19))%Q.
Proof.
  intros H. apply (number_of_Q_error _ 34); [lia|].
  rewrite pow2_34, Qabs_Qlt_condition, Qmake_cents.
  pose proof (Zcents_bound c H). lra.
Qed.

Lemma add_cents x y b a :
  is_finite x = true -> is_finite y = true ->
  (Z.abs b < 10 ^ 12)%Z -> (Z.abs a < 10 ^ 12)%Z ->
  (Qabs (num_value x - (b # 100)) <= Qpow2 (-19))%Q ->
  (Qabs (num_value y - (a # 100)) <= Qpow2 (-19))%Q ->
  is_finite (num_add x y) = true /\
  round_cents (num_value (num_add x y)) = (b + a)%Z /\
  (Qabs (num_value (num_add x y)) < inject_Z (10 ^ 21))%Q.
Proof.
  intros Hx Hy Hb Ha Ex Ey.
  pose proof (Zcents_bound b Hb). pose proof (Zcents_bound a Ha).
  rewrite pow2_m19, Qabs_Qle_condition, Qmake_cents in Ex, Ey.
  destruct Ex as [Ex1 Ex2], Ey as [Ey1 Ey2].
  match goal with H : (_ < _ < _)%Q |- _ => destruct H end.
  match goal with H : (_ < _ < _)%Q |- _ => destruct H end.
  destruct (num_add_error x y 35 Hx Hy ltac:(lia)) as [Hf He].
  { rewrite pow2_35, Qabs_Qlt_condition. lra. }
  rewrite pow2_m18, Qabs_Qle_condition in He. destruct He as [He1 He2].
  split; [exact Hf|]. split.
  - apply round_cents_near. rewrite Qabs_Qlt_condition, Qmake_cents, inject_Z_plus. lra.
  - setoid_replace (inject_Z (10 ^ 21)) with (1000000000000000000000 # 1)%Q by reflexivity.
    rewrite Qabs_Qlt_condition. lra.
Qed.

(** ** Values stored in a [numeric(12,2)] column *)

Lemma decimal_column_Ok c c' : decimal_column c = Ok c' -> c' = c /\ (Z.abs c < 10 ^ 12)%Z.
Proof.
  unfold decimal_column. destruct (Z.abs c <? 10 ^ 12)%Z eqn:E; intros H; [|discriminate H].
  injection H as <-. split; [reflexivity|]. apply Z.ltb_lt. exact E.
Qed.

Lemma numeric_of_Fixed2_finite x :
  is_finite x = true -> numeric_of (Fixed2 x) = decimal_column (round_cents (num_value x)).
Proof. destruct x; intros H; try discriminate H; reflexivity. Qed.

Lemma numeric_of_Fixed2_nonneg x c :
  num_nonneg x = true -> numeric_of (Fixed2 x) = Ok c -> (0 <= c)%Z.
Proof.
  intros Hn H. destruct (is_finite x) eqn:Hf.
  - rewrite numeric_of_Fixed2_finite in H by exact Hf.
    apply decimal_column_Ok in H as [-> _].
    apply round_cents_nonneg, num_value_nonneg, Hn.
  - destruct x; try discriminate Hf; discriminate H.
Qed.

Lemma numeric_of_Fixed2_nan : numeric_of (Fixed2 S754_nan) = Throw numeric_overflow.
Proof. reflexivity. Qed.

Lemma num_lt_pos_nonneg y : num_lt (S754_zero false) y = true -> num_nonneg y = true.
Proof.
  destruct y as [s|s| |s m e]; intros H; try discriminate H; [exact H|].
  destruct s; [|reflexivity].
  unfold num_lt in H. change (num_value (S754_zero false)) with 0%Q in H.
  rewrite finite_neg_not_pos in H. discriminate H.
Qed.

Lemma parseFloat_nonneg c : (0 <= c)%Z -> num_nonneg (parseFloat c) = true.
Proof.
  intros H. apply number_of_Q_nonneg. unfold Qle. cbn [Qnum Qden]. lia.
Qed.

(** A whole number of cents, read by [parseFloat] or written as a
    two-decimal literal, added or subtracted and printed by [toFixed(2)],
    is stored exactly: the rounding errors of the doubles stay far below
    half a cent. *)
Lemma stored_add_cents b a :
  (Z.abs b < 10 ^ 12)%Z -> (Z.abs a < 10 ^ 12)%Z ->
  numeric_of (Fixed2 (num_add (parseFloat b) (literal a 100))) = decimal_column (b + a).
Proof.
  intros Hb Ha.
  destruct (parseFloat_near b Hb) as [Fb Eb]. destruct (parseFloat_near a Ha) as [Fa Ea].
  destruct (add_cents (parseFloat b) (literal a 100) b a Fb Fa Hb Ha Eb Ea) as (F & R & _).
  rewrite numeric_of_Fixed2_finite by exact F. rewrite R. reflexivity.
Qed.

Lemma stored_sub_cents b a :
  (Z.abs b < 10 ^ 12)%Z -> (Z.abs a < 10 ^ 12)%Z ->
  numeric_of (Fixed2 (num_sub (parseFloat b) (literal a 100))) = decimal_column (b - a).
Proof.
  intros Hb Ha.
  destruct (parseFloat_near b Hb) as [Fb Eb]. destruct (parseFloat_near a Ha) as [Fa Ea].
  destruct (num_neg_value (literal a 100) Fa) as [Fn En].
  assert (Ha' : (Z.abs (- a) < 10 ^ 12)%Z) by lia.
  assert (En' : (Qabs (num_value (num_neg (literal a 100)) - ((- a) # 100)) <= Qpow2 (-19))%Q).
  { rewrite En. change ((- a) # 100)%Q with (- (a # 100))%Q.
    setoid_replace (- num_value (literal a 100) - - (a # 100))%Q
      with (- (num_value (literal a 100) - (a # 100)))%Q by ring.
    rewrite Qabs_opp. exact Ea. }
  destruct (add_cents (parseFloat b) (num_neg (literal a 100)) b (- a) Fb Fn Hb Ha' Eb En')
    as (F & R & _).
  unfold num_sub. rewrite numeric_of_Fixed2_finite by exact F. rewrite R.
  replace (b + - a)%Z with (b - a)%Z by lia. reflexivity.
Qed.

(** ** The monad and the store calls *)

Lemma bind_Ok_inv {A B} (m : M A) (k : A -> M B) s b s2 :
  (x ← m; k x) s = (Ok b, s2) -> exists a s1, m s = (Ok a, s1) /\ k a s1 = (Ok b, s2).
Proof. unfold mbind, M_bind. destruct (m s) as [[a|e] s1]; [eauto | discriminate]. Qed.

Lemma bind_Throw_inv {A B} (m : M A) (k : A -> M B) s e s2 :
  (x ← m; k x) s = (Throw e, s2) ->
  m s = (Throw e, s2) \/ exists a s1, m s = (Ok a, s1) /\ k a s1 = (Throw e, s2).
Proof.
  unfold mbind, M_bind. destruct (m s) as [[a|e'] s1]; [eauto|].
  intros H. injection H as -> ->. left. reflexivity.
Qed.

Lemma fault_point_Ok_inv s u s1 :
  fault_point s = (Ok u, s1) -> s1 = set_faults (tail (faults s)) s.
Proof.
  unfold fault_point. destruct s as [w t n nw f tr]; simpl.
  destruct f as [|[e|] f]; intros H; inversion H; reflexivity.
Qed.

Lemma fault_point_Throw_inv s e s1 :
  fault_point s = (Throw e, s1) -> exists rest, faults s = Some e :: rest /\ s1 = set_faults rest s.
Proof.
  unfold fault_point. destruct (faults s) as [|[e'|] f]; intros H; try discriminate H.
  injection H as <- <-. eauto.
Qed.

Ltac inv_bind H a s1 H1 H2 :=
  apply bind_Ok_inv in H; destruct H as (a & s1 & H1 & H2).

Lemma write_wallet_file_Ok w s u s2 :
  write_wallet_file w s = (Ok u, s2) ->
  wallets s2 = wallets s /\ transactions s2 = transactions s /\ next_tx s2 = next_tx s /\
  next_wallet s2 = next_wallet s /\ trace s2 = (trace s ++ [EvSerializeWallet w])%list.
Proof.
  unfold write_wallet_file. destruct (faults s) as [|[e|] f]; intros H; try discriminate H;
    injection H as _ <-; repeat split; reflexivity.
Qed.

Lemma serializeWallet_Ok w s u s2 :
  serializeWallet (Some w) s = (Ok u, s2) ->
  wallets s2 = wallets s /\ transactions s2 = transactions s /\ next_tx s2 = next_tx s /\
  next_wallet s2 = next_wallet s /\ trace s2 = (trace s ++ [EvSerializeWallet w])%list.
Proof.
  unfold serializeWallet. intros H. inv_bind H u1 s1 Hf H.
  apply fault_point_Ok_inv in Hf. subst s1.
  apply write_wallet_file_Ok in H. exact H.
Qed.

Lemma updateWalletBalance_Ok wid b s r s2 w :
  wallets s !! wid = Some w ->
  updateWalletBalance wid b s = (Ok r, s2) ->
  exists c, numeric_of b = Ok c /\
    r = Some (with_balance c w) /\
    wallets s2 = <[wid := with_balance c w]> (wallets s) /\
    transactions s2 = transactions s /\ next_tx s2 = next_tx s /\
    trace s2 = (trace s ++ [EvUpdateBalance wid c; EvSerializeWallet (with_balance c w)])%list.
Proof.
  intros Hw H. unfold updateWalletBalance in H.
  inv_bind H u s1 Hf H. apply fault_point_Ok_inv in Hf. subst s1.
  inv_bind H ow s3 Hu H. unfold db_update_balance in Hu. cbn [wallets set_faults] in Hu.
  rewrite Hw in Hu. destruct (numeric_of b) as [c|e] eqn:Hc; [|discriminate Hu].
  injection Hu as <- <-.
  inv_bind H u' s4 Hs H. apply serializeWallet_Ok in Hs as (Hw4 & Ht4 & Hn4 & _ & Htr4).
  unfold mret, M_ret in H. injection H as <- <-.
  exists c. split; [reflexivity|]. split; [reflexivity|].
  rewrite Hw4, Ht4, Hn4, Htr4. cbn. rewrite <- app_assoc. repeat split; reflexivity.
Qed.

Lemma createTransaction_Ok t s r s2 :
  createTransaction t s = (Ok r, s2) ->
  exists a, numeric_of (i_amount t) = Ok a /\
    r = tx_row (next_tx s) a t /\ wallets s2 = wallets s /\
    transactions s2 = (transactions s ++ [r])%list /\ next_tx s2 = S (next_tx s) /\
    trace s2 = (trace s ++ [EvInsertTx r])%list.
Proof.
  unfold createTransaction, db_insert_tx. intros H.
  inv_bind H t' s1 Hi H. inv_bind Hi u s3 Hf Hi.
  apply fault_point_Ok_inv in Hf. subst s3.
  unfold insert_tx_row in Hi. destruct (numeric_of (i_amount t)) as [a|e] eqn:Ha; [|discriminate Hi].
  injection Hi as <- <-.
  inv_bind H u' s4 Hl H. unfold logTransaction, mret, M_ret in Hl, H.
  injection Hl as _ <-. injection H as <- <-. exists a. repeat split; reflexivity.
Qed.

Lemma updateTransactionStatus_Ok i st em s r s2 :
  updateTransactionStatus i st em s = (Ok r, s2) ->
  r = find (fun t => Nat.eqb (t_id t) i) (transactions s2) /\
  wallets s2 = wallets s /\
  transactions s2 = map (set_status i st em) (transactions s) /\
  next_tx s2 = next_tx s /\
  trace s2 = (trace s ++ [EvUpdateStatus i st em])%list.
Proof.
  unfold updateTransactionStatus. intros H.
  inv_bind H u s1 Hf H. apply fault_point_Ok_inv in Hf. subst s1.
  unfold update_status_rows in H. injection H as <- <-. repeat split; reflexivity.
Qed.

Lemma updateTransactionStatus_Throw i st em s e s2 :
  updateTransactionStatus i st em s = (Throw e, s2) ->
  exists rest, faults s = Some e :: rest /\ s2 = set_faults rest s.
Proof.
  unfold updateTransactionStatus. intros H. apply bind_Throw_inv in H as [H|(u & s1 & _ & H)].
  - apply fault_point_Throw_inv, H.
  - discriminate H.
Qed.

Lemma updateTransactionStatus_marks i st em s :
  (forall e rest, faults s <> Some e :: rest) ->
  updateTransactionStatus i st em s =
    (Ok (find (fun t => Nat.eqb (t_id t) i) (map (set_status i st em) (transactions s))),
     record (EvUpdateStatus i st em)
       (set_transactions (map (set_status i st em) (transactions s))
          (set_faults (tail (faults s)) s))).
Proof.
  intros H. unfold updateTransactionStatus, mbind, M_bind, fault_point.
  destruct s as [w t n nw f tr]; cbn [faults] in H |- *.
  destruct f as [|[e|] f]; [reflexivity | exfalso; exact (H e f eq_refl) | reflexivity].
Qed.

Lemma try_catch_Ok_inv {A} (body : M A) h s a s2 :
  try_catch body h s = (Ok a, s2) ->
  body s = (Ok a, s2) \/ exists e s1, body s = (Throw e, s1) /\ h e s1 = (Ok a, s2).
Proof. unfold try_catch. destruct (body s) as [[b|e] s1]; intros H; eauto. Qed.

Lemma rethrow_not_Ok {A B} (m : M A) (e : js_error) s (b : B) s2 :
  (_ ← m; throw e) s = (Ok b, s2) -> False.
Proof.
  unfold mbind, M_bind, throw. destruct (m s) as [[a|e'] s1]; discriminate.
Qed.

Lemma with_balance_twice b b' w : with_balance b (with_balance b' w) = with_balance b w.
Proof. reflexivity. Qed.

Lemma i_amount_new_transaction walletId amount type paymentMode status d r u :
  i_amount (new_transaction walletId amount type paymentMode status d r u) = Shown amount.
Proof. reflexivity. Qed.

(** What a failing call leaves of the Transaction table. *)

Lemma txs_bind {A B} (m : M A) (k : A -> M B) :
  (forall s, transactions (snd (m s)) = transactions s) ->
  (forall a s, transactions (snd (k a s)) = transactions s) ->
  forall s, transactions (snd ((x ← m; k x) s)) = transactions s.
Proof.
  intros Hm Hk s. unfold mbind, M_bind. specialize (Hm s).
  destruct (m s) as [[a|e] s1]; cbn [snd] in Hm |- *; [rewrite Hk|]; exact Hm.
Qed.

Lemma fault_point_txs s : transactions (snd (fault_point s)) = transactions s.
Proof. unfold fault_point. destruct (faults s) as [|[e|] f]; reflexivity. Qed.

Lemma updateWalletBalance_txs wid b s :
  transactions (snd (updateWalletBalance wid b s)) = transactions s.
Proof.
  revert s. unfold updateWalletBalance.
  apply txs_bind; [exact fault_point_txs|]. intros _.
  apply txs_bind.
  { intros s. unfold db_update_balance.
    destruct (wallets s !! wid); [destruct (numeric_of b)|]; reflexivity. }
  intros w. apply txs_bind; [|intros _ s; reflexivity].
  unfold serializeWallet. apply txs_bind; [exact fault_point_txs|]. intros _ s.
  destruct w as [w|]; [|reflexivity].
  unfold write_wallet_file. destruct (faults s) as [|[e|] f]; reflexivity.
Qed.

Lemma createTransaction_txs t s :
  exists l, transactions (snd (createTransaction t s)) = (transactions s ++ l)%list.
Proof.
  destruct (createTransaction t s) as [[r|e] s2] eqn:E.
  - apply createTransaction_Ok in E as (a & _ & _ & _ & Ht & _). eauto.
  - exists []. rewrite app_nil_r. cbn [snd].
    unfold createTransaction, db_insert_tx, mbind, M_bind, fault_point, insert_tx_row,
      logTransaction, mret, M_ret in E.
    destruct s as [ws txs n nw f tr]. cbn [faults] in E.
    destruct f as [|[e'|] f]; cbn in E;
      try (destruct (numeric_of (i_amount t)); cbn in E); try discriminate E;
      injection E as _ <-; reflexivity.
Qed.

Lemma deposit_try_Throw walletId w amount t s e s2 :
  deposit_try walletId w amount t s = (Throw e, s2) -> transactions s2 = transactions s.
Proof.
  unfold deposit_try. cbv zeta. intros H.
  apply bind_Throw_inv in H as [H|(u & s1 & H1 & H)].
  - pose proof (updateWalletBalance_txs walletId
      (Fixed2 (num_add (parseFloat (w_balance w)) amount)) s) as E.
    rewrite H in E. exact E.
  - pose proof (updateWalletBalance_txs walletId
      (Fixed2 (num_add (parseFloat (w_balance w)) amount)) s) as E.
    rewrite H1 in E. cbn [snd] in E. rewrite <- E.
    apply bind_Throw_inv in H as [H|(r & s3 & _ & H)]; [|discriminate H].
    apply updateTransactionStatus_Throw in H as (rest & _ & ->). reflexivity.
Qed.

Lemma transfer_try_Throw fromWalletId toWalletId toWallet currentBalance amount description t s e s2 :
  transfer_try fromWalletId toWalletId toWallet currentBalance amount description t s = (Throw e, s2) ->
  exists l, transactions s2 = (transactions s ++ l)%list.
Proof.
  unfold transfer_try. cbv zeta. intros H.
  set (b1 := Fixed2 (num_sub currentBalance amount)) in H.
  set (b2 := Fixed2 (num_add (parseFloat (w_balance toWallet)) amount)) in H.
  pose proof (updateWalletBalance_txs fromWalletId b1 s) as E1.
  apply bind_Throw_inv in H as [H|(u1 & s1 & H1 & H)].
  { rewrite H in E1. exists []. rewrite app_nil_r. exact E1. }
  rewrite H1 in E1. cbn [snd] in E1.
  pose proof (updateWalletBalance_txs toWalletId b2 s1) as E2.
  apply bind_Throw_inv in H as [H|(u2 & s3 & H3 & H)].
  { rewrite H in E2. exists []. rewrite app_nil_r. cbn [snd] in E2. congruence. }
  rewrite H3 in E2. cbn [snd] in E2.
  match type of H with
  | ((_ ← createTransaction ?ti; _) _ = _) =>
      destruct (createTransaction_txs ti s3) as [l E3]
  end.
  apply bind_Throw_inv in H as [H|(u3 & s4 & H4 & H)].
  { rewrite H in E3. cbn [snd] in E3. exists l. congruence. }
  rewrite H4 in E3. cbn [snd] in E3.
  apply bind_Throw_inv in H as [H|(r & s5 & _ & H)]; [|discriminate H].
  apply updateTransactionStatus_Throw in H as (rest & _ & ->).
  exists l. cbn [transactions set_faults]. congruence.
Qed.

Lemma deposit_Ok walletId amount paymentMode description s r s2 :
  deposit walletId amount paymentMode description s = (Ok r, s2) ->
  exists w a nb, wallets s !! walletId = Some w /\
    num_lt (parseFloat (w_transactionLimit w)) amount = false /\
    numeric_of (Shown amount) = Ok a /\
    numeric_of (Fixed2 (num_add (parseFloat (w_balance w)) amount)) = Ok nb /\
    let k := next_tx s in
    let t := tx_row k a (new_transaction walletId amount "deposit" paymentMode "pending"
                           description None None) in
    wallets s2 = <[walletId := with_balance nb w]> (wallets s) /\
    transactions s2 = map (set_status k "success" None) (transactions s ++ [t])%list /\
    next_tx s2 = S k /\
    trace s2 = (trace s ++ [EvInsertTx t; EvUpdateBalance walletId nb;
                            EvSerializeWallet (with_balance nb w);
                            EvUpdateStatus k "success" None])%list /\
    r = find (fun t => Nat.eqb (t_id t) k) (transactions s2).
Proof.
  unfold deposit. intros H.
  inv_bind H ow s1 Hr H. unfold select_wallet in Hr. injection Hr as <- <-.
  destruct (wallets s !! walletId) as [w|] eqn:Hw; [|discriminate].
  destruct (num_lt (parseFloat (w_transactionLimit w)) amount) eqn:Hl; [discriminate|].
  inv_bind H t s1 Hc H.
  apply createTransaction_Ok in Hc as (a & Ha & -> & Hw1 & Ht1 & Hn1 & Htr1).
  rewrite i_amount_new_transaction in Ha.
  apply try_catch_Ok_inv in H as [H | (e & s3 & _ & H)]; [| exfalso; eapply rethrow_not_Ok; exact H].
  unfold deposit_try in H. cbv zeta in H.
  inv_bind H u s3 Hu H.
  apply (updateWalletBalance_Ok _ _ _ _ _ w) in Hu as (nb & Hnb & _ & Hw3 & Ht3 & Hn3 & Htr3);
    [| rewrite Hw1; exact Hw].
  inv_bind H r' s4 Hs H.
  apply updateTransactionStatus_Ok in Hs as (Hr & Hw4 & Ht4 & Hn4 & Htr4).
  unfold mret, M_ret in H. injection H as <- <-.
  exists w, a, nb. do 4 (split; [first [reflexivity | assumption]|]).
  rewrite Hw4, Hw3, Hw1, Ht4, Ht3, Ht1, Hn4, Hn3, Hn1, Htr4, Htr3, Htr1, <- !app_assoc.
  repeat split; try reflexivity. rewrite Hr, Ht4, Ht3, Ht1. reflexivity.
Qed.

Lemma transfer_Ok fromWalletId toWalletId toUserId amount description s r s2 :
  transfer fromWalletId toWalletId toUserId amount description s = (Ok r, s2) ->
  exists fw tw a nf nt,
    wallets s !! fromWalletId = Some fw /\ wallets s !! toWalletId = Some tw /\
    num_lt (parseFloat (w_balance fw)) amount = false /\
    num_lt (parseFloat (w_transactionLimit fw)) amount = false /\
    numeric_of (Shown amount) = Ok a /\
    numeric_of (Fixed2 (num_sub (parseFloat (w_balance fw)) amount)) = Ok nf /\
    numeric_of (Fixed2 (num_add (parseFloat (w_balance tw)) amount)) = Ok nt /\
    let k := next_tx s in
    let out := tx_row k a (new_transaction fromWalletId amount "transfer_out" "WalletBalance"
                 "pending" description (Some toWalletId) (Some toUserId)) in
    let inn := tx_row (S k) a (new_transaction toWalletId amount "transfer_in" "WalletBalance"
                 "success" description (Some fromWalletId) None) in
    wallets s2 = <[toWalletId := with_balance nt tw]> (<[fromWalletId := with_balance nf fw]> (wallets s)) /\
    transactions s2 = map (set_status k "success" None) (transactions s ++ [out; inn])%list /\
    next_tx s2 = S (S k) /\
    trace s2 = (trace s ++ [EvInsertTx out; EvUpdateBalance fromWalletId nf;
                            EvSerializeWallet (with_balance nf fw);
                            EvUpdateBalance toWalletId nt; EvSerializeWallet (with_balance nt tw);
                            EvInsertTx inn; EvUpdateStatus k "success" None])%list /\
    r = find (fun t => Nat.eqb (t_id t) k) (transactions s2).
Proof.
  unfold transfer. intros H.
  inv_bind H ofw s1 Hr H. unfold select_wallet in Hr. injection Hr as <- <-.
  inv_bind H otw s1 Hr H. unfold select_wallet in Hr. injection Hr as <- <-.
  destruct (wallets s !! fromWalletId) as [fw|] eqn:Hfw; [|discriminate].
  destruct (wallets s !! toWalletId) as [tw|] eqn:Htw; [|discriminate].
  cbv zeta in H.
  destruct (num_lt (parseFloat (w_balance fw)) amount) eqn:Hb; [discriminate|].
  destruct (num_lt (parseFloat (w_transactionLimit fw)) amount) eqn:Hl; [discriminate|].
  inv_bind H out s1 Hc H.
  apply createTransaction_Ok in Hc as (a & Ha & -> & Hw1 & Ht1 & Hn1 & Htr1).
  rewrite i_amount_new_transaction in Ha.
  apply try_catch_Ok_inv in H as [H | (e & s3 & _ & H)]; [| exfalso; eapply rethrow_not_Ok; exact H].
  unfold transfer_try in H. cbv zeta in H.
  inv_bind H u s3 Hu H.
  apply (updateWalletBalance_Ok _ _ _ _ _ fw) in Hu as (nf & Hnf & _ & Hw3 & Ht3 & Hn3 & Htr3);
    [| rewrite Hw1; exact Hfw].
  inv_bind H u' s4 Hu H.
  destruct (decide (fromWalletId = toWalletId)) as [<-|Hne].
  - rewrite Hfw in Htw. injection Htw as <-.
    assert (Hw4 : wallets s3 !! fromWalletId = Some (with_balance nf fw))
      by (rewrite Hw3; apply lookup_insert_eq).
    apply (updateWalletBalance_Ok _ _ _ _ _ _ Hw4) in Hu as (nt & Hnt & _ & Hw5 & Ht5 & Hn5 & Htr5).
    inv_bind H t' s5 Hc H.
    apply createTransaction_Ok in Hc as (a' & Ha' & -> & Hw6 & Ht6 & Hn6 & Htr6).
    rewrite i_amount_new_transaction, Ha in Ha'. injection Ha' as <-.
    inv_bind H r' s6 Hs H.
    apply updateTransactionStatus_Ok in Hs as (Hr & Hw7 & Ht7 & Hn7 & Htr7).
    unfold mret, M_ret in H. injection H as <- <-.
    exists fw, fw, a, nf, nt. do 7 (split; [first [reflexivity | assumption]|]).
    rewrite Hw7, Hw6, Hw5, Hw3, Hw1.
    repeat rewrite ?Ht7, ?Ht6, ?Ht5, ?Ht3, ?Ht1, ?Hn7, ?Hn6, ?Hn5, ?Hn3, ?Hn1,
      ?Htr7, ?Htr6, ?Htr5, ?Htr3, ?Htr1.
    rewrite <- !app_assoc. repeat split; try reflexivity.
    rewrite Hr, Ht7, Ht6, Ht5, Ht3, Ht1, Hn5, Hn3, Hn1, <- !app_assoc. reflexivity.
  - assert (Hw4 : wallets s3 !! toWalletId = Some tw)
      by (rewrite Hw3, lookup_insert_ne by congruence; rewrite Hw1; exact Htw).
    apply (updateWalletBalance_Ok _ _ _ _ _ _ Hw4) in Hu as (nt & Hnt & _ & Hw5 & Ht5 & Hn5 & Htr5).
    inv_bind H t' s5 Hc H.
    apply createTransaction_Ok in Hc as (a' & Ha' & -> & Hw6 & Ht6 & Hn6 & Htr6).
    rewrite i_amount_new_transaction, Ha in Ha'. injection Ha' as <-.
    inv_bind H r' s6 Hs H.
    apply updateTransactionStatus_Ok in Hs as (Hr & Hw7 & Ht7 & Hn7 & Htr7).
    unfold mret, M_ret in H. injection H as <- <-.
    exists fw, tw, a, nf, nt. do 7 (split; [first [reflexivity | assumption]|]).
    rewrite Hw7, Hw6, Hw5, Hw3, Hw1.
    repeat rewrite ?Ht7, ?Ht6, ?Ht5, ?Ht3, ?Ht1, ?Hn7, ?Hn6, ?Hn5, ?Hn3, ?Hn1,
      ?Htr7, ?Htr6, ?Htr5, ?Htr3, ?Htr1.
    rewrite <- !app_assoc. repeat split; try reflexivity.
    rewrite Hr, Ht7, Ht6, Ht5, Ht3, Ht1, Hn5, Hn3, Hn1, <- !app_assoc. reflexivity.
Qed.

Ltac run_M :=
  cbv beta iota zeta delta [mbind M_bind mret M_ret throw try_catch modify fault_point
    select_wallet write_wallet_file serializeWallet db_update_balance updateWalletBalance
    insert_tx_row db_insert_tx logTransaction createTransaction update_status_rows
    updateTransactionStatus deposit_try transfer_try
    set_faults set_wallets set_transactions set_next_tx set_next_wallet record
    faults wallets transactions next_tx next_wallet trace].

Lemma set_status_same k st em t :
  t_id t = k -> set_status k st em t =
    mkTransaction (t_id t) (t_walletId t) (t_amount t) (t_type t) (t_paymentMode t) st
      (t_description t) (t_recipientWalletId t) (t_recipientUserId t)
      (match em with Some m => Some m | None => t_errorMessage t end).
Proof. intros <-. unfold set_status. rewrite Nat.eqb_refl. reflexivity. Qed.

Lemma set_status_other k st em t : t_id t <> k -> set_status k st em t = t.
Proof. intros H. unfold set_status. apply Nat.eqb_neq in H. rewrite H. reflexivity. Qed.

Lemma map_set_status_fresh k st em l :
  Forall (fun t => t_id t < k) l -> map (set_status k st em) l = l.
Proof.
  induction 1 as [|t l Ht _ IH]; [reflexivity|].
  cbn [map]. rewrite set_status_other by lia. rewrite IH. reflexivity.
Qed.

Lemma rethrow_eval {A B} (m : M A) (e : js_error) s :
  (_ ← m; throw (A := B) e) s =
    match m s with (Ok _, s') => (Throw e, s') | (Throw e', s') => (Throw e', s') end.
Proof. reflexivity. Qed.

Lemma updateTransactionStatus_fault i st em s e rest :
  faults s = Some e :: rest ->
  updateTransactionStatus i st em s = (Throw e, set_faults rest s).
Proof.
  intros Hf. unfold updateTransactionStatus, mbind, M_bind, fault_point. rewrite Hf. reflexivity.
Qed.
(** ** A transfer from a wallet to itself under the lock table *)

Lemma sort_pair_same x : sort_pair x x = [x; x].
Proof. unfold sort_pair. destruct (str_ltb x x); reflexivity. Qed.

Lemma self_inv_step p x S S' :
  x_from p = x -> x_to p = x -> self_inv x S -> step [p] S S' -> self_inv x S'.
Proof.
  intros Hf Ht HI Hs.
  assert (Hlo : forall i q l1 l2, [p] !! i = Some q -> lock_order q = [l1; l2] ->
            i = 0 /\ l1 = x /\ l2 = x).
  { intros i q l1 l2 Hq Hl. destruct i as [|i]; [|discriminate Hq].
    injection Hq as <-. unfold lock_order in Hl. rewrite Hf, Ht, sort_pair_same in Hl.
    injection Hl as <- <-. auto. }
  destruct Hs as [i q l1 l2 pc h st Hq Hl Hpc Hh | i q l1 l2 pc h st Hq Hl Hpc Hh
                 | i q l1 l2 pc h st Hq Hl Hpc | i q l1 l2 pc h st Hq Hl Hpc];
    destruct (Hlo _ _ _ _ Hq Hl) as (-> & -> & ->); unfold self_inv in *; cbn [pcs held] in *;
    destruct HI as [[-> ->] | [-> ->]]; cbn in Hpc; try discriminate Hpc.
  - right. split; [reflexivity|]. reflexivity.
  - rewrite lookup_singleton_eq in Hh. discriminate Hh.
Qed.

Lemma self_inv_rtc p x S S' :
  x_from p = x -> x_to p = x -> rtc (step [p]) S S' -> self_inv x S -> self_inv x S'.
Proof.
  intros Hf Ht Hr. induction Hr as [S|S1 S2 S3 Hs _ IH]; [auto|].
  intros HI. apply IH. exact (self_inv_step p x S1 S2 Hf Ht HI Hs).
Qed.


(** ** Stored balances stay non-negative *)

Lemma keeps_same_wallets {A} (m : M A) :
  (forall s, wallets (snd (m s)) = wallets s) -> keeps m.
Proof. intros H s Hs. unfold balances_nonneg. rewrite H. exact Hs. Qed.

Lemma keeps_bind {A B} (m : M A) (k : A -> M B) :
  keeps m -> (forall a, keeps (k a)) -> keeps (x ← m; k x).
Proof.
  intros Hm Hk s Hs. unfold mbind, M_bind. specialize (Hm s Hs).
  destruct (m s) as [[a|e] s1]; simpl in *; [apply Hk|]; exact Hm.
Qed.

Lemma keeps_ret {A} (a : A) : keeps (mret a).
Proof. intros s Hs. exact Hs. Qed.

Lemma keeps_throw {A} e : keeps (throw (A := A) e).
Proof. intros s Hs. exact Hs. Qed.

Lemma keeps_try {A} (body : M A) h :
  keeps body -> (forall e, keeps (h e)) -> keeps (try_catch body h).
Proof.
  intros Hb Hh s Hs. unfold try_catch. specialize (Hb s Hs).
  destruct (body s) as [[a|e] s1]; simpl in *; [|apply Hh]; exact Hb.
Qed.

Lemma keeps_fault_point : keeps fault_point.
Proof.
  apply keeps_same_wallets. intros s. unfold fault_point.
  destruct (faults s) as [|[e|] rest]; reflexivity.
Qed.

Lemma keeps_select {A} walletId (k : option wallet -> M A) :
  (forall ow, (forall w, ow = Some w -> (0 <= w_balance w)%Z) -> keeps (k ow)) ->
  keeps (w ← select_wallet walletId; k w).
Proof.
  intros Hk s Hs. unfold mbind, M_bind, select_wallet. simpl.
  apply (Hk (wallets s !! walletId)); [|exact Hs].
  intros w Hw. exact (Hs walletId w Hw).
Qed.

Lemma keeps_serializeWallet w : keeps (serializeWallet w).
Proof.
  unfold serializeWallet. apply keeps_bind; [apply keeps_fault_point|intros _].
  destruct w as [w|]; [|apply keeps_throw]. apply keeps_same_wallets. intros s.
  unfold write_wallet_file. destruct (faults s) as [|[e|] rest]; reflexivity.
Qed.

Lemma keeps_updateWalletBalance walletId b :
  (forall c, numeric_of b = Ok c -> (0 <= c)%Z) -> keeps (updateWalletBalance walletId b).
Proof.
  intros Hb. unfold updateWalletBalance.
  apply keeps_bind; [apply keeps_fault_point|intros _].
  apply keeps_bind; [|intros ow; apply keeps_bind; [apply keeps_serializeWallet|intros ?; apply keeps_ret]].
  intros s Hs. unfold db_update_balance. destruct (wallets s !! walletId) as [w|]; [|exact Hs].
  destruct (numeric_of b) as [c|e] eqn:Hc; [|exact Hs].
  unfold balances_nonneg. simpl. apply map_Forall_insert_2; [exact (Hb c eq_refl)|exact Hs].
Qed.

Lemma keeps_createTransaction t : keeps (createTransaction t).
Proof.
  unfold createTransaction, db_insert_tx.
  apply keeps_bind; [apply keeps_bind; [apply keeps_fault_point|intros _]|intros t'].
  - apply keeps_same_wallets. intros s. unfold insert_tx_row.
    destruct (numeric_of (i_amount t)); reflexivity.
  - apply keeps_bind; [apply keeps_ret|intros ?; apply keeps_ret].
Qed.

Lemma keeps_updateTransactionStatus i st em : keeps (updateTransactionStatus i st em).
Proof.
  unfold updateTransactionStatus. apply keeps_bind; [apply keeps_fault_point|intros _].
  apply keeps_same_wallets. reflexivity.
Qed.

Lemma keeps_deposit walletId amount paymentMode description :
  num_lt (S754_zero false) amount = true -> keeps (deposit walletId amount paymentMode description).
Proof.
  intros Ha. apply num_lt_pos_nonneg in Ha. unfold deposit. apply keeps_select. intros ow Hnn.
  destruct ow as [w|]; [|apply keeps_throw].
  destruct (num_lt _ _); [apply keeps_throw|].
  apply keeps_bind; [apply keeps_createTransaction|intros t].
  apply keeps_try.
  - unfold deposit_try. apply keeps_bind.
    + apply keeps_updateWalletBalance. intros c. apply numeric_of_Fixed2_nonneg.
      apply num_add_nonneg; [|exact Ha]. apply parseFloat_nonneg, (Hnn w eq_refl).
    + intros _. apply keeps_bind; [apply keeps_updateTransactionStatus|intros ?; apply keeps_ret].
  - intros e. apply keeps_bind; [apply keeps_updateTransactionStatus|intros _; apply keeps_throw].
Qed.

Lemma keeps_transfer fromWalletId toWalletId toUserId amount description :
  num_lt (S754_zero false) amount = true ->
  keeps (transfer fromWalletId toWalletId toUserId amount description).
Proof.
  intros Hp. pose proof (num_lt_pos_nonneg _ Hp) as Ha.
  unfold transfer. apply keeps_select. intros ofw Hf.
  apply keeps_select. intros otw Ht.
  destruct ofw as [fw|]; [|apply keeps_throw]. destruct otw as [tw|]; [|apply keeps_throw].
  cbv zeta. destruct (num_lt (parseFloat (w_balance fw)) amount) eqn:Hb; [apply keeps_throw|].
  destruct (num_lt (parseFloat (w_transactionLimit fw)) amount); [apply keeps_throw|].
  apply keeps_bind; [apply keeps_createTransaction|intros t].
  apply keeps_try.
  - unfold transfer_try. cbv zeta.
    apply keeps_bind; [apply keeps_updateWalletBalance|intros _].
    { intros c Hc.
      destruct (num_sub_nonneg (parseFloat (w_balance fw)) amount) as [Hn|Hn].
      - apply parseFloat_nonneg, (Hf fw eq_refl).
      - exact Hp.
      - exact Hb.
      - rewrite Hn, numeric_of_Fixed2_nan in Hc. discriminate Hc.
      - exact (numeric_of_Fixed2_nonneg _ _ Hn Hc). }
    apply keeps_bind.
    + apply keeps_updateWalletBalance. intros c. apply numeric_of_Fixed2_nonneg.
      apply num_add_nonneg; [|exact Ha]. apply parseFloat_nonneg, (Ht tw eq_refl).
    + intros _. apply keeps_bind; [apply keeps_createTransaction|intros _].
      apply keeps_bind; [apply keeps_updateTransactionStatus|intros ?; apply keeps_ret].
  - intros e. apply keeps_bind; [apply keeps_updateTransactionStatus|intros _; apply keeps_throw].
Qed.

Lemma keeps_createWallet userId walletType : keeps (createWallet userId walletType).
Proof.
  unfold createWallet. apply keeps_bind.
  - unfold WalletFactory_createWallet.
    destruct (String.eqb _ _); [apply keeps_ret|]. destruct (String.eqb _ _); [apply keeps_ret|apply keeps_throw].
  - intros cfg. apply keeps_bind.
    + unfold db_insert_wallet. apply keeps_bind; [apply keeps_fault_point|intros _].
      intros s Hs. unfold insert_wallet_row.
      destruct (wallets s !! fresh_wallet_id (next_wallet s)); [exact Hs|].
      unfold balances_nonneg. simpl. apply map_Forall_insert_2; [simpl; lia|exact Hs].
    + intros w. apply keeps_bind; [apply keeps_serializeWallet|intros ?; apply keeps_ret].
Qed.

Lemma exec_op_nonneg o s : valid_op o -> balances_nonneg s -> balances_nonneg (exec_op o s).
Proof.
  intros Hv Hs. destruct o; simpl in Hv |- *.
  - apply keeps_deposit; [exact Hv|exact Hs].
  - apply keeps_transfer; [exact (proj1 Hv)|exact Hs].
  - apply keeps_createWallet, Hs.
Qed.

Lemma run_nonneg ops s : Forall valid_op ops -> balances_nonneg s -> balances_nonneg (run ops s).
Proof.
  intros Hv. revert s. induction Hv as [|o ops Ho _ IH]; intros s Hs; [exact Hs|].
  simpl. apply IH, exec_op_nonneg; assumption.
Qed.

(** ** Transfers that take their locks in one order *)

Lemma sort_pair_sym x y : x <> y -> sort_pair x y = sort_pair y x.
Proof.
  intros Hne. unfold sort_pair, str_ltb.
  rewrite (Stdlib.Strings.String.compare_antisym x y).
  destruct (Stdlib.Strings.String.compare y x) eqn:E; simpl; try reflexivity.
  apply Stdlib.Strings.String.compare_eq_iff in E. congruence.
Qed.

Lemma sort_pair_sorted x y : x <> y ->
  exists l1 l2, sort_pair x y = [l1; l2] /\ str_ltb l1 l2 = true /\
    ((l1 = x /\ l2 = y) \/ (l1 = y /\ l2 = x)).
Proof.
  intros Hne. unfold sort_pair, str_ltb.
  destruct (Stdlib.Strings.String.compare y x) eqn:E.
  - apply Stdlib.Strings.String.compare_eq_iff in E. congruence.
  - exists y, x. rewrite E. auto.
  - exists x, y. rewrite (Stdlib.Strings.String.compare_antisym x y), E. auto.
Qed.

Lemma ins_lookup (l : list nat) i j x y :
  l !! i = Some y -> <[i := x]> l !! j = if decide (i = j) then Some x else l !! j.
Proof.
  intros H. destruct (decide (i = j)) as [<-|Hne].
  - apply list_lookup_insert_eq. eapply lookup_lt_Some. exact H.
  - apply list_lookup_insert_ne. exact Hne.
Qed.

Lemma lookup_map_const {A B} (c : B) (l : list A) i :
  map (fun _ => c) l !! i = (fun _ => c) <$> l !! i.
Proof. revert i. induction l as [|x l IH]; intros [|i]; simpl; auto. Qed.

Lemma lock_inv_init ps a b st : a <> b -> lock_inv ps a b (sys_init ps st).
Proof.
  intros Hab. unfold lock_inv, sys_init; cbn [pcs held].
  split; [apply length_map|]. split.
  - intros i pc. rewrite lookup_map_const. destruct (ps !! i); simpl; intros H; [injection H as <-; lia | discriminate H].
  - split; intros i; rewrite lookup_empty, lookup_map_const; destruct (ps !! i); simpl; naive_solver.
Qed.

Lemma sum_list_insert (g : nat -> nat) (l : list nat) i x y :
  l !! i = Some x -> sum_list (map g (<[i := y]> l)) + g x = sum_list (map g l) + g y.
Proof.
  revert i. induction l as [|z l IH]; intros [|i] H; try discriminate H; simpl in *.
  - injection H as ->. lia.
  - specialize (IH i H). lia.
Qed.

Lemma step_steps_left ps S S' : step ps S S' -> steps_left S' < steps_left S.
Proof.
  unfold steps_left. intros Hs.
  destruct Hs as [i p l1 l2 pc h st Hp Hl Hpc Hh | i p l1 l2 pc h st Hp Hl Hpc Hh
                 | i p l1 l2 pc h st Hp Hl Hpc | i p l1 l2 pc h st Hp Hl Hpc];
    cbn [pcs]; pose proof (fun y => sum_list_insert (fun pc => 4 - pc) pc _ _ y Hpc) as E;
    [specialize (E 1) | specialize (E 2) | specialize (E 3) | specialize (E 4)]; simpl in E; lia.
Qed.

Section LockOrder.
Variables (ps : list xfer) (a b : string).
Hypothesis Hab : a <> b.
Hypothesis Hord : forall i p, ps !! i = Some p -> lock_order p = [a; b].

Lemma lock_inv_step S S' : lock_inv ps a b S -> step ps S S' -> lock_inv ps a b S'.
Proof.
  intros (Hlen & Hbd & Ha & Hb) Hs.
  destruct Hs as [i p l1 l2 pc h st Hp Hl Hpc Hh | i p l1 l2 pc h st Hp Hl Hpc Hh
                 | i p l1 l2 pc h st Hp Hl Hpc | i p l1 l2 pc h st Hp Hl Hpc];
    pose proof (Hord _ _ Hp) as Hl'; rewrite Hl in Hl'; injection Hl' as -> ->;
    unfold lock_inv; cbn [pcs held] in *; pose proof (Ha i) as Hai; pose proof (Hb i) as Hbi;
    (split; [rewrite length_insert; exact Hlen|]);
    (split; [intros j pc' Hj; rewrite (ins_lookup _ _ _ _ _ Hpc) in Hj; case_decide;
             [injection Hj as <-; lia | exact (Hbd _ _ Hj)]|]);
    (split; intros j; specialize (Ha j); specialize (Hb j);
       rewrite ?lookup_insert, ?lookup_delete, !(ins_lookup _ _ _ _ _ Hpc);
       repeat case_decide; subst; try congruence; naive_solver).
Qed.

Lemma lock_inv_rtc S S' : rtc (step ps) S S' -> lock_inv ps a b S -> lock_inv ps a b S'.
Proof.
  intros Hr. induction Hr as [S|S1 S2 S3 Hs _ IH]; [auto|].
  intros HI. apply IH, (lock_inv_step S1 S2 HI Hs).
Qed.

Lemma lock_inv_progress S :
  lock_inv ps a b S -> ~ all_returned S -> exists S', step ps S S'.
Proof.
  intros (Hlen & Hbd & Ha & Hb) Hnot. destruct S as [pc h st]; cbn [pcs held] in *.
  assert (Hp : forall i k, pc !! i = Some k -> exists p, ps !! i = Some p).
  { intros i k Hk. apply lookup_lt_Some in Hk. rewrite Hlen in Hk.
    apply lookup_lt_is_Some_2 in Hk as [p Hp]. eauto. }
  destruct (decide (2 ∈ pc)) as [H2|H2].
  { apply list_elem_of_lookup in H2 as [i Hi]. destruct (Hp _ _ Hi) as [p Hpi].
    eexists. eapply step_body; eauto. }
  destruct (decide (3 ∈ pc)) as [H3|H3].
  { apply list_elem_of_lookup in H3 as [i Hi]. destruct (Hp _ _ Hi) as [p Hpi].
    eexists. eapply step_unlock1; eauto. }
  destruct (decide (1 ∈ pc)) as [H1|H1].
  { apply list_elem_of_lookup in H1 as [i Hi]. destruct (Hp _ _ Hi) as [p Hpi].
    eexists. eapply step_lock2; eauto.
    destruct (h !! b) as [j|] eqn:Hj; [|reflexivity].
    exfalso. apply H2, list_elem_of_lookup. exists j. apply (Hb j). reflexivity. }
  destruct (decide (0 ∈ pc)) as [H0|H0].
  { apply list_elem_of_lookup in H0 as [i Hi]. destruct (Hp _ _ Hi) as [p Hpi].
    eexists. eapply step_lock1; eauto.
    destruct (h !! a) as [j|] eqn:Hj; [|reflexivity].
    destruct (proj1 (Ha j) eq_refl) as [Hk|[Hk|Hk]]; exfalso;
      [apply H1 | apply H2 | apply H3]; apply list_elem_of_lookup; eauto. }
  exfalso. apply Hnot. unfold all_returned. cbn [pcs].
  apply Forall_lookup. intros i k Hk. pose proof (Hbd _ _ Hk).
  assert (k <> 0 /\ k <> 1 /\ k <> 2 /\ k <> 3) by
    (repeat split; intros ->;
     [apply H0 | apply H1 | apply H2 | apply H3]; apply list_elem_of_lookup; eauto).
  lia.
Qed.

Lemma lock_inv_completes S :
  lock_inv ps a b S -> exists S', rtc (step ps) S S' /\ all_returned S'.
Proof.
  remember (steps_left S) as n eqn:En. revert S En.
  induction n as [n IH] using lt_wf_ind. intros S -> HI.
  destruct (decide (Forall (fun pc => pc = 4) (pcs S))) as [Hall|Hnot].
  { exists S. split; [apply rtc_refl|exact Hall]. }
  destruct (lock_inv_progress S HI Hnot) as [S1 Hs].
  destruct (IH (steps_left S1) (step_steps_left ps S S1 Hs) S1 eq_refl (lock_inv_step S S1 HI Hs))
    as (S' & Hr & Hall).
  exists S'. split; [eapply rtc_l; eauto | exact Hall].
Qed.

End LockOrder.


(* ================================================================== *)
(** * Claims *)

(** ** C1 — conservation of a successful transfer *)

(** C1 (amended).  A transfer between two distinct wallets that returns
    normally stores, in the [numeric(12,2)] column, [toFixed(2)] of the
    double [parseFloat(balance) - amount] for the sender and of
    [parseFloat(balance) + amount] for the recipient, both computed from the
    snapshots read under the locks.  When the amount is the literal of a
    whole number [a] of cents, the sender's balance decreases by exactly
    [a] cents and the recipient's increases by exactly [a] cents, so the sum
    of the two balances is unchanged. *)
Theorem transfer_conservation fromWalletId toWalletId toUserId amount description s r s2 :
  fromWalletId <> toWalletId ->
  transfer fromWalletId toWalletId toUserId amount description s = (Ok r, s2) ->
  exists fw tw nf nt,
    wallets s !! fromWalletId = Some fw /\ wallets s !! toWalletId = Some tw /\
    numeric_of (Fixed2 (num_sub (parseFloat (w_balance fw)) amount)) = Ok nf /\
    numeric_of (Fixed2 (num_add (parseFloat (w_balance tw)) amount)) = Ok nt /\
    balance_of s2 fromWalletId = Some nf /\ balance_of s2 toWalletId = Some nt /\
    forall a, amount = literal a 100 -> (Z.abs a < 10 ^ 12)%Z ->
      (Z.abs (w_balance fw) < 10 ^ 12)%Z -> (Z.abs (w_balance tw) < 10 ^ 12)%Z ->
      nf = (w_balance fw - a)%Z /\ nt = (w_balance tw + a)%Z /\
      (nf + nt = w_balance fw + w_balance tw)%Z.
Proof.
  intros Hne H.
  apply transfer_Ok in H as (fw & tw & a & nf & nt & Hfw & Htw & _ & _ & _ & Hnf & Hnt & Hw & _).
  exists fw, tw, nf, nt. unfold balance_of. rewrite Hw.
  rewrite lookup_insert_ne by congruence. rewrite !lookup_insert_eq. cbn.
  do 6 (split; [first [reflexivity | assumption]|]).
  intros k -> Hk Hb Ht.
  rewrite stored_sub_cents in Hnf by assumption. rewrite stored_add_cents in Hnt by assumption.
  apply decimal_column_Ok in Hnf as [-> _]. apply decimal_column_Ok in Hnt as [-> _].
  lia.
Qed.

Lemma transfer_conservation_witness :
  exists r s2,
    "A" <> "B" /\
    transfer "A" "B" "bob" (literal 20000 100) None (store_of [wA; wB] []) = (Ok r, s2) /\
    exists fw tw nf nt,
      wallets (store_of [wA; wB] []) !! "A" = Some fw /\
      wallets (store_of [wA; wB] []) !! "B" = Some tw /\
      numeric_of (Fixed2 (num_sub (parseFloat (w_balance fw)) (literal 20000 100))) = Ok nf /\
      numeric_of (Fixed2 (num_add (parseFloat (w_balance tw)) (literal 20000 100))) = Ok nt /\
      balance_of s2 "A" = Some nf /\ balance_of s2 "B" = Some nt /\
      forall a, literal 20000 100 = literal a 100 -> (Z.abs a < 10 ^ 12)%Z ->
        (Z.abs (w_balance fw) < 10 ^ 12)%Z -> (Z.abs (w_balance tw) < 10 ^ 12)%Z ->
        nf = (w_balance fw - a)%Z /\ nt = (w_balance tw + a)%Z /\
        (nf + nt = w_balance fw + w_balance tw)%Z.
Proof.
  set (res := transfer "A" "B" "bob" (literal 20000 100) None (store_of [wA; wB] [])).
  assert (E : res = (Ok (ok_or None (fst res)), snd res)) by (vm_compute; reflexivity).
  exists (ok_or None (fst res)), (snd res). split; [discriminate|]. split; [exact E|].
  apply (transfer_conservation "A" "B" "bob" (literal 20000 100) None (store_of [wA; wB] [])
           (ok_or None (fst res)) (snd res)).
  - discriminate.
  - exact E.
Defined.

(** C1 (counterexample).  A wallet [A] with balance 0.03 transfers 0.015
    to [B] (balance 0.00): the amount is positive and at most the balance
    and the limit, and the transfer returns normally.  The double
    [0.03 - 0.015] and the double [0 + 0.015] both lie just below 0.015, so
    [toFixed(2)] stores 0.01 on each side: the sender loses 0.02 rather
    than 0.015, and the sum of the two balances drops from 0.03 to 0.02. *)
Lemma transfer_conservation_counterexample :
  let w := mkWallet "A" "alice" 3 "Basic" 100000 in
  let '(r, s2) := transfer "A" "B" "bob" (literal 15 1000) None (store_of [w; wB] []) in
  (exists t, r = Ok t) /\ num_lt (S754_zero false) (literal 15 1000) = true /\
  balance_of s2 "A" = Some 1%Z /\ balance_of s2 "B" = Some 1%Z /\
  (1 + 1 <> w_balance w + w_balance wB)%Z.
Proof.
  vm_compute. split; [eexists; reflexivity|].
  repeat split; try reflexivity. intros H; discriminate H.
Qed.

(** ** C2 — insufficient funds *)

(** C2 (amended).  When both wallets exist and [parseFloat(balance)] is
    below the amount (JavaScript's [<] on doubles), [transfer] throws
    [InsufficientFundsException(parseFloat(balance), amount, fromWalletId)]
    and leaves the store exactly as it was: no balance written, no
    Transaction record, no write attempted at all.  When the sender or the
    recipient wallet does not exist, it throws [Error('Wallet not found')]
    instead, whatever the amount, again leaving the store as it was. *)
Theorem transfer_insufficient_funds fromWalletId toWalletId toUserId amount description s :
  (forall fw tw,
     wallets s !! fromWalletId = Some fw ->
     wallets s !! toWalletId = Some tw ->
     num_lt (parseFloat (w_balance fw)) amount = true ->
     transfer fromWalletId toWalletId toUserId amount description s =
       (Throw (InsufficientFundsException (parseFloat (w_balance fw)) amount fromWalletId), s)) /\
  (wallets s !! fromWalletId = None \/ wallets s !! toWalletId = None ->
     transfer fromWalletId toWalletId toUserId amount description s = (Throw wallet_not_found, s)).
Proof.
  split.
  - intros fw tw Hf Ht Hlt.
    unfold transfer. cbv beta iota zeta delta [mbind M_bind select_wallet].
    rewrite Hf, Ht. cbv beta iota zeta. rewrite Hlt. reflexivity.
  - intros Hn. unfold transfer. cbv beta iota zeta delta [mbind M_bind select_wallet].
    destruct Hn as [Hn|Hn]; rewrite Hn; [reflexivity|].
    destruct (wallets s !! fromWalletId); reflexivity.
Qed.

Lemma transfer_insufficient_funds_witness :
  wallets (store_of [wA; wB] []) !! "B" = Some wB /\
  wallets (store_of [wA; wB] []) !! "A" = Some wA /\
  num_lt (parseFloat (w_balance wB)) (literal 1000 100) = true /\
  transfer "B" "A" "alice" (literal 1000 100) None (store_of [wA; wB] []) =
    (Throw (InsufficientFundsException (parseFloat (w_balance wB)) (literal 1000 100) "B"),
     store_of [wA; wB] []) /\
  (wallets (store_of [wA] []) !! "C" = None /\
   transfer "A" "C" "carol" (literal 1000 100) None (store_of [wA] []) =
     (Throw wallet_not_found, store_of [wA] [])).
Proof.
  assert (H1 : wallets (store_of [wA; wB] []) !! "B" = Some wB) by reflexivity.
  assert (H2 : wallets (store_of [wA; wB] []) !! "A" = Some wA) by reflexivity.
  assert (H3 : num_lt (parseFloat (w_balance wB)) (literal 1000 100) = true)
    by (vm_compute; reflexivity).
  assert (H4 : wallets (store_of [wA] []) !! "C" = None) by reflexivity.
  split; [exact H1|]. split; [exact H2|]. split; [exact H3|]. split.
  - exact (proj1 (transfer_insufficient_funds "B" "A" "alice" (literal 1000 100) None _)
             _ _ H1 H2 H3).
  - split; [exact H4|].
    exact (proj2 (transfer_insufficient_funds "A" "C" "carol" (literal 1000 100) None _)
             (or_intror H4)).
Defined.

(** C2 (counterexample).  The amount 1000.00 exceeds the sender's balance
    of 500.00, but the recipient wallet does not exist: the transfer throws
    [Error('Wallet not found')], not an [InsufficientFundsException]. *)
Lemma transfer_insufficient_funds_counterexample :
  num_lt (parseFloat (w_balance wA)) (literal 100000 100) = true /\
  wallets (store_of [wA] []) !! "A" = Some wA /\
  transfer "A" "C" "carol" (literal 100000 100) None (store_of [wA] []) =
    (Throw wallet_not_found, store_of [wA] []) /\
  forall a q w, wallet_not_found <> InsufficientFundsException a q w.
Proof.
  split; [vm_compute; reflexivity|]. split; [reflexivity|]. split; [vm_compute; reflexivity|].
  intros a q w H. discriminate H.
Qed.

(** ** C3 — limit rejection of a deposit *)

(** C3 (amended).  A deposit on an existing wallet whose amount exceeds the
    wallet's [transactionLimit] throws a plain [Error] whose message is
    ["Amount exceeds transaction limit of $" + limit] and leaves the store
    exactly as it was (balance unchanged, no Transaction record).  The
    rejection has no error class of its own: its class is [Error], the
    class of any store or file-system failure; only
    [InsufficientFundsException] has a class of its own. *)
Theorem deposit_limit_exceeded walletId amount paymentMode description s w :
  wallets s !! walletId = Some w ->
  num_lt (parseFloat (w_transactionLimit w)) amount = true ->
  deposit walletId amount paymentMode description s =
    (Throw (limit_error (w_transactionLimit w)), s) /\
  error_name (limit_error (w_transactionLimit w)) = "Error" /\
  error_message (limit_error (w_transactionLimit w)) =
    "Amount exceeds transaction limit of $" ++ decimal_to_string (w_transactionLimit w).
Proof.
  intros Hw Hlt.
  split; [|split; reflexivity].
  unfold deposit. cbv beta iota zeta delta [mbind M_bind select_wallet].
  rewrite Hw. cbv beta iota zeta. rewrite Hlt. reflexivity.
Qed.

Lemma deposit_limit_exceeded_witness :
  wallets (store_of [wA] []) !! "A" = Some wA /\
  num_lt (parseFloat (w_transactionLimit wA)) (literal 150000 100) = true /\
  deposit "A" (literal 150000 100) "UPI" None (store_of [wA] []) =
    (Throw (limit_error (w_transactionLimit wA)), store_of [wA] []) /\
  error_name (limit_error (w_transactionLimit wA)) = "Error" /\
  error_message (limit_error (w_transactionLimit wA)) =
    "Amount exceeds transaction limit of $" ++ decimal_to_string (w_transactionLimit wA).
Proof.
  assert (H1 : wallets (store_of [wA] []) !! "A" = Some wA) by reflexivity.
  assert (H2 : num_lt (parseFloat (w_transactionLimit wA)) (literal 150000 100) = true)
    by (vm_compute; reflexivity).
  split; [exact H1|]. split; [exact H2|].
  exact (deposit_limit_exceeded "A" (literal 150000 100) "UPI" None _ _ H1 H2).
Defined.

(** C3 (counterexample).  The limit rejection of a 1500.00 deposit and the
    failure of the wallet-file write during a 1.00 deposit (an ENOSPC error
    of the file system) reach the caller as errors of the same class
    [Error]: the type of the error does not tell the business rejection
    from the infrastructure fault. *)
Lemma deposit_limit_exceeded_counterexample :
  let fs_fault := Error "Error" "ENOSPC: no space left on device, write" in
  fst (deposit "A" (literal 150000 100) "UPI" None (store_of [wA] [])) =
    Throw (limit_error 100000) /\
  fst (deposit "A" (literal 100 100) "UPI" None
         (store_of [wA] [None; None; None; Some fs_fault])) =
    Throw fs_fault /\
  error_name (limit_error 100000) = error_name fs_fault.
Proof. vm_compute. repeat split; reflexivity. Qed.

(** ** C4 — exact two-decimal arithmetic *)

(** C4.  Balances are whole numbers of cents in a [numeric(12,2)]
    column.  A deposit of the literal of a whole number [a] of cents on a
    wallet of balance [b] that returns normally stores exactly [b + a]; a
    transfer of such an amount between two distinct wallets that returns
    normally stores exactly [bf - a] for the sender and [bt + a] for the
    recipient.  The errors of the doubles ([parseFloat], [+], [-]) stay
    below half a cent and [toFixed(2)] removes them. *)
Theorem fixed_point_exact :
  (forall walletId a paymentMode description s w r s2,
     wallets s !! walletId = Some w ->
     (Z.abs (w_balance w) < 10 ^ 12)%Z -> (Z.abs a < 10 ^ 12)%Z ->
     deposit walletId (literal a 100) paymentMode description s = (Ok r, s2) ->
     balance_of s2 walletId = Some (w_balance w + a)%Z) /\
  (forall fromWalletId toWalletId toUserId a description s fw tw r s2,
     fromWalletId <> toWalletId ->
     wallets s !! fromWalletId = Some fw -> wallets s !! toWalletId = Some tw ->
     (Z.abs (w_balance fw) < 10 ^ 12)%Z -> (Z.abs (w_balance tw) < 10 ^ 12)%Z ->
     (Z.abs a < 10 ^ 12)%Z ->
     transfer fromWalletId toWalletId toUserId (literal a 100) description s = (Ok r, s2) ->
     balance_of s2 fromWalletId = Some (w_balance fw - a)%Z /\
     balance_of s2 toWalletId = Some (w_balance tw + a)%Z).
Proof.
  split.
  - intros walletId a paymentMode description s w r s2 Hw Hb Ha H.
    apply deposit_Ok in H as (w' & a' & nb & Hw' & _ & _ & Hnb & Hw2 & _).
    rewrite Hw in Hw'. injection Hw' as <-.
    rewrite stored_add_cents in Hnb by assumption.
    apply decimal_column_Ok in Hnb as [-> _].
    unfold balance_of. rewrite Hw2, lookup_insert_eq. reflexivity.
  - intros fromWalletId toWalletId toUserId a description s fw tw r s2 Hne Hf Ht Hbf Hbt Ha H.
    apply transfer_Ok in H as (fw' & tw' & a' & nf & nt & Hf' & Ht' & _ & _ & _ & Hnf & Hnt & Hw & _).
    rewrite Hf in Hf'. injection Hf' as <-. rewrite Ht in Ht'. injection Ht' as <-.
    rewrite stored_sub_cents in Hnf by assumption. rewrite stored_add_cents in Hnt by assumption.
    apply decimal_column_Ok in Hnf as [-> _]. apply decimal_column_Ok in Hnt as [-> _].
    unfold balance_of. rewrite Hw.
    rewrite lookup_insert_ne by congruence. rewrite !lookup_insert_eq. split; reflexivity.
Qed.

Lemma fixed_point_exact_witness :
  (exists r s2,
     deposit "B" (literal 2500 100) "UPI" None (store_of [wA; wB] []) = (Ok r, s2) /\
     balance_of s2 "B" = Some 2500%Z) /\
  (exists r s2,
     transfer "A" "B" "bob" (literal 20000 100) None (store_of [wA; wB] []) = (Ok r, s2) /\
     balance_of s2 "A" = Some 30000%Z /\ balance_of s2 "B" = Some 20000%Z).
Proof.
  split.
  - set (res := deposit "B" (literal 2500 100) "UPI" None (store_of [wA; wB] [])).
    assert (E : res = (Ok (ok_or None (fst res)), snd res)) by (vm_compute; reflexivity).
    exists (ok_or None (fst res)), (snd res). split; [exact E|].
    exact (proj1 fixed_point_exact "B" 2500%Z "UPI" None (store_of [wA; wB] []) wB
             (ok_or None (fst res)) (snd res) eq_refl ltac:(vm_compute; reflexivity)
             ltac:(vm_compute; reflexivity) E).
  - set (res := transfer "A" "B" "bob" (literal 20000 100) None (store_of [wA; wB] [])).
    assert (E : res = (Ok (ok_or None (fst res)), snd res)) by (vm_compute; reflexivity).
    exists (ok_or None (fst res)), (snd res). split; [exact E|].
    exact (proj2 fixed_point_exact "A" "B" "bob" 20000%Z None (store_of [wA; wB] []) wA wB
             (ok_or None (fst res)) (snd res) ltac:(discriminate) eq_refl eq_refl
             ltac:(vm_compute; reflexivity) ltac:(vm_compute; reflexivity)
             ltac:(vm_compute; reflexivity) E).
Defined.

(** ** C5 — failures after the pending record is written *)

(** C5 (amended).  Let a deposit or a transfer pass its checks, insert its
    pending record [t] (a [deposit], resp. [transfer_out], on the debited
    wallet, with no error message), and let a later step of its [try]
    block — the balance update, the wallet-file write, the [transfer_in]
    insert or the [success] update — throw [e].  If the update that marks
    [t] failed goes through, the operation rethrows that same [e], the
    record with [t]'s id is in the store with status [failed] and [e]'s
    message as its [errorMessage], and that update is the last write of the
    operation.  If the marking update itself fails with [e'], the operation
    throws [e'] instead of [e] and [t] stays in the store as it was
    inserted: [pending], with no error message. *)
Theorem mutation_failure_marked :
  (forall walletId amount paymentMode description s w t s1 e s2,
    wallets s !! walletId = Some w ->
    num_lt (parseFloat (w_transactionLimit w)) amount = false ->
    createTransaction (new_transaction walletId amount "deposit" paymentMode "pending"
                         description None None) s = (Ok t, s1) ->
    deposit_try walletId w amount t s1 = (Throw e, s2) ->
    t_id t = next_tx s /\ t_type t = "deposit" /\ t_walletId t = walletId /\
    t_status t = "pending" /\ t_errorMessage t = None /\
    (forall e' rest, faults s2 = Some e' :: rest ->
       exists s3, deposit walletId amount paymentMode description s = (Throw e', s3) /\
         In t (transactions s3)) /\
    ((forall e' rest, faults s2 <> Some e' :: rest) ->
       exists s3, deposit walletId amount paymentMode description s = (Throw e, s3) /\
         (exists t', In t' (transactions s3) /\ t_id t' = t_id t /\ t_type t' = "deposit" /\
            t_walletId t' = walletId /\ t_status t' = "failed" /\
            t_errorMessage t' = Some (error_message e)) /\
         exists pre, trace s3 = (pre ++ [EvUpdateStatus (t_id t) "failed"
                                           (Some (error_message e))])%list)) /\
  (forall fromWalletId toWalletId toUserId amount description s fw tw t s1 e s2,
    wallets s !! fromWalletId = Some fw ->
    wallets s !! toWalletId = Some tw ->
    num_lt (parseFloat (w_balance fw)) amount = false ->
    num_lt (parseFloat (w_transactionLimit fw)) amount = false ->
    createTransaction (new_transaction fromWalletId amount "transfer_out" "WalletBalance" "pending"
                         description (Some toWalletId) (Some toUserId)) s = (Ok t, s1) ->
    transfer_try fromWalletId toWalletId tw (parseFloat (w_balance fw)) amount description t s1
      = (Throw e, s2) ->
    t_id t = next_tx s /\ t_type t = "transfer_out" /\ t_walletId t = fromWalletId /\
    t_status t = "pending" /\ t_errorMessage t = None /\
    (forall e' rest, faults s2 = Some e' :: rest ->
       exists s3, transfer fromWalletId toWalletId toUserId amount description s = (Throw e', s3) /\
         In t (transactions s3)) /\
    ((forall e' rest, faults s2 <> Some e' :: rest) ->
       exists s3, transfer fromWalletId toWalletId toUserId amount description s = (Throw e, s3) /\
         (exists t', In t' (transactions s3) /\ t_id t' = t_id t /\ t_type t' = "transfer_out" /\
            t_walletId t' = fromWalletId /\ t_status t' = "failed" /\
            t_errorMessage t' = Some (error_message e)) /\
         exists pre, trace s3 = (pre ++ [EvUpdateStatus (t_id t) "failed"
                                           (Some (error_message e))])%list)).
Proof.
  split.
  - intros walletId amount paymentMode description s w t s1 e s2 Hw Hl Hc Ht.
    pose proof Hc as Hc'. apply createTransaction_Ok in Hc' as (a & _ & Et & _ & Ht1 & _).
    assert (Hin : In t (transactions s2)).
    { rewrite (deposit_try_Throw _ _ _ _ _ _ _ Ht), Ht1. apply in_or_app. right. left. reflexivity. }
    assert (Hdep : deposit walletId amount paymentMode description s =
              (_ ← updateTransactionStatus (t_id t) "failed" (Some (error_message e)); throw e) s2).
    { unfold deposit. cbv beta iota zeta delta [mbind M_bind select_wallet].
      rewrite Hw. cbv beta iota zeta. rewrite Hl, Hc. unfold try_catch. rewrite Ht. reflexivity. }
    subst t. do 5 (split; [reflexivity|]). split.
    + intros e' rest Hf. rewrite Hdep, rethrow_eval, (updateTransactionStatus_fault _ _ _ _ _ _ Hf).
      eexists. split; [reflexivity|]. exact Hin.
    + intros Hf. rewrite Hdep, rethrow_eval, (updateTransactionStatus_marks _ _ _ _ Hf).
      eexists. split; [reflexivity|]. split.
      * eexists. split; [cbn; apply in_map, Hin|].
        rewrite set_status_same by reflexivity. repeat split; reflexivity.
      * exists (trace s2). reflexivity.
  - intros fromWalletId toWalletId toUserId amount description s fw tw t s1 e s2 Hfw Htw Hb Hl Hc Ht.
    pose proof Hc as Hc'. apply createTransaction_Ok in Hc' as (a & _ & Et & _ & Ht1 & _).
    assert (Hin : In t (transactions s2)).
    { destruct (transfer_try_Throw _ _ _ _ _ _ _ _ _ _ Ht) as [l ->]. rewrite Ht1.
      apply in_or_app. left. apply in_or_app. right. left. reflexivity. }
    assert (Hdep : transfer fromWalletId toWalletId toUserId amount description s =
              (_ ← updateTransactionStatus (t_id t) "failed" (Some (error_message e)); throw e) s2).
    { unfold transfer. cbv beta iota zeta delta [mbind M_bind select_wallet].
      rewrite Hfw, Htw. cbv beta iota zeta. rewrite Hb, Hl, Hc. unfold try_catch. rewrite Ht.
      reflexivity. }
    subst t. do 5 (split; [reflexivity|]). split.
    + intros e' rest Hf. rewrite Hdep, rethrow_eval, (updateTransactionStatus_fault _ _ _ _ _ _ Hf).
      eexists. split; [reflexivity|]. exact Hin.
    + intros Hf. rewrite Hdep, rethrow_eval, (updateTransactionStatus_marks _ _ _ _ Hf).
      eexists. split; [reflexivity|]. split.
      * eexists. split; [cbn; apply in_map, Hin|].
        rewrite set_status_same by reflexivity. repeat split; reflexivity.
      * exists (trace s2). reflexivity.
Qed.

Lemma mutation_failure_marked_witness :
  let s := store_of [wA] [None; Some e_fs; None] in
  let nt := new_transaction "A" (literal 100 100) "deposit" "UPI" "pending" None None None in
  let t := ok_or (tx_row 0 0 nt) (fst (createTransaction nt s)) in
  let s1 := snd (createTransaction nt s) in
  let s2 := snd (deposit_try "A" wA (literal 100 100) t s1) in
  createTransaction nt s = (Ok t, s1) /\
  deposit_try "A" wA (literal 100 100) t s1 = (Throw e_fs, s2) /\
  (forall e' rest, faults s2 <> Some e' :: rest) /\
  exists s3, deposit "A" (literal 100 100) "UPI" None s = (Throw e_fs, s3) /\
    (exists t', In t' (transactions s3) /\ t_id t' = t_id t /\ t_type t' = "deposit" /\
       t_walletId t' = "A" /\ t_status t' = "failed" /\
       t_errorMessage t' = Some (error_message e_fs)) /\
    exists pre, trace s3 = (pre ++ [EvUpdateStatus (t_id t) "failed"
                                      (Some (error_message e_fs))])%list.
Proof.
  intros s nt t s1 s2.
  assert (H1 : createTransaction nt s = (Ok t, s1)) by (vm_compute; reflexivity).
  assert (H2 : deposit_try "A" wA (literal 100 100) t s1 = (Throw e_fs, s2))
    by (vm_compute; reflexivity).
  assert (H3 : forall e' rest, faults s2 <> Some e' :: rest)
    by (intros e' rest; vm_compute; discriminate).
  split; [exact H1|]. split; [exact H2|]. split; [exact H3|].
  destruct (proj1 mutation_failure_marked "A" (literal 100 100) "UPI" None s wA t s1 e_fs s2
              eq_refl ltac:(vm_compute; reflexivity) H1 H2) as (_ & _ & _ & _ & _ & _ & H).
  exact (H H3).
Defined.

(** C5 (counterexample).  A deposit of 1.00 whose balance update fails
    with [e_fs] and whose [failed] update then fails with [e_conn]: the
    caller receives [e_conn], not the error of the failed step, and the
    record stays [pending] with no error message. *)
Lemma mutation_failure_marked_counterexample :
  let '(r, s2) := deposit "A" (literal 100 100) "UPI" None
                    (store_of [wA] [None; Some e_fs; Some e_conn]) in
  r = Throw e_conn /\ e_conn <> e_fs /\
  map t_status (transactions s2) = ["pending"] /\
  map t_errorMessage (transactions s2) = [None].
Proof. vm_compute. repeat split; try reflexivity. discriminate. Qed.

(** ** C6 — the pair of records of a transfer *)

(** C6.  On a store whose Transaction ids are all below the id counter,
    a transfer that returns normally appends exactly two records: a
    [transfer_out] on the sender's wallet, inserted [pending] and resolved
    to [success] by the last write of the transfer, and a [transfer_in] on
    the recipient's wallet, inserted already [success] before that
    resolution; both carry the same amount, the value of the requested
    amount in the [numeric(12,2)] column, and each names the other's
    wallet. *)
Theorem transfer_record_pair fromWalletId toWalletId toUserId amount description s r s2 :
  Forall (fun t => t_id t < next_tx s) (transactions s) ->
  transfer fromWalletId toWalletId toUserId amount description s = (Ok r, s2) ->
  exists out0 out inn mid,
    transactions s2 = (transactions s ++ [out; inn])%list /\
    t_type out = "transfer_out" /\ t_walletId out = fromWalletId /\
    t_recipientWalletId out = Some toWalletId /\
    t_type inn = "transfer_in" /\ t_walletId inn = toWalletId /\
    t_recipientWalletId inn = Some fromWalletId /\
    t_amount out = t_amount inn /\ numeric_of (Shown amount) = Ok (t_amount out) /\
    t_status out0 = "pending" /\ t_status out = "success" /\ t_status inn = "success" /\
    t_id out0 = t_id out /\ t_id out <> t_id inn /\
    trace s2 = (trace s ++ EvInsertTx out0 :: mid ++
                  [EvInsertTx inn; EvUpdateStatus (t_id out) "success" None])%list.
Proof.
  intros Hfresh H.
  apply transfer_Ok in H as (fw & tw & a & nf & nt & _ & _ & _ & _ & Ha & _ & _ & _ & Ht & _ & Htr & _).
  set (k := next_tx s) in *.
  set (out0 := tx_row k a (new_transaction fromWalletId amount "transfer_out" "WalletBalance"
                 "pending" description (Some toWalletId) (Some toUserId))) in *.
  set (inn := tx_row (S k) a (new_transaction toWalletId amount "transfer_in" "WalletBalance"
                 "success" description (Some fromWalletId) None)) in *.
  exists out0, (set_status k "success" None out0), inn.
  exists [EvUpdateBalance fromWalletId nf; EvSerializeWallet (with_balance nf fw);
          EvUpdateBalance toWalletId nt; EvSerializeWallet (with_balance nt tw)].
  rewrite Ht, map_app, (map_set_status_fresh _ _ _ _ Hfresh). cbn [map].
  rewrite (set_status_other k _ _ inn) by (simpl; lia).
  rewrite (set_status_same k _ _ out0) by reflexivity.
  repeat split; try reflexivity.
  - exact Ha.
  - simpl. lia.
  - rewrite Htr. reflexivity.
Qed.

Lemma transfer_record_pair_witness :
  exists r s2,
    Forall (fun t => t_id t < next_tx (store_of [wA; wB] [])) (transactions (store_of [wA; wB] [])) /\
    transfer "A" "B" "bob" (literal 20000 100) None (store_of [wA; wB] []) = (Ok r, s2) /\
    exists out0 out inn mid,
      transactions s2 = (transactions (store_of [wA; wB] []) ++ [out; inn])%list /\
      t_type out = "transfer_out" /\ t_walletId out = "A" /\
      t_recipientWalletId out = Some "B" /\
      t_type inn = "transfer_in" /\ t_walletId inn = "B" /\
      t_recipientWalletId inn = Some "A" /\
      t_amount out = t_amount inn /\ numeric_of (Shown (literal 20000 100)) = Ok (t_amount out) /\
      t_status out0 = "pending" /\ t_status out = "success" /\ t_status inn = "success" /\
      t_id out0 = t_id out /\ t_id out <> t_id inn /\
      trace s2 = (trace (store_of [wA; wB] []) ++ EvInsertTx out0 :: mid ++
                    [EvInsertTx inn; EvUpdateStatus (t_id out) "success" None])%list.
Proof.
  set (res := transfer "A" "B" "bob" (literal 20000 100) None (store_of [wA; wB] [])).
  assert (E : res = (Ok (ok_or None (fst res)), snd res)) by (vm_compute; reflexivity).
  assert (F : Forall (fun t => t_id t < next_tx (store_of [wA; wB] []))
                (transactions (store_of [wA; wB] []))) by constructor.
  exists (ok_or None (fst res)), (snd res). split; [exact F|]. split; [exact E|].
  exact (transfer_record_pair "A" "B" "bob" (literal 20000 100) None (store_of [wA; wB] [])
           (ok_or None (fst res)) (snd res) F E).
Defined.

(** ** C7 — stored balances are never negative *)

(** C7.  From a store whose balances are all non-negative (in particular
    one whose wallets were all created with balance 0.00), any sequence of
    deposits, transfers and wallet creations whose amounts are positive and
    whose transfers have distinct wallets leaves every stored balance
    non-negative after each operation, whether it returned or threw, and
    whatever write of the store or of the wallet files failed. *)
Theorem balance_nonneg_invariant ops s :
  balances_nonneg s ->
  Forall valid_op ops ->
  forall n, balances_nonneg (run (take n ops) s).
Proof.
  intros Hs Hv n. apply run_nonneg; [apply Forall_take, Hv | exact Hs].
Qed.

Lemma balance_nonneg_invariant_witness :
  balances_nonneg (store_of [wA; wB] []) /\
  Forall valid_op sample_ops /\
  forall n, balances_nonneg (run (take n sample_ops) (store_of [wA; wB] [])).
Proof.
  assert (H1 : balances_nonneg (store_of [wA; wB] [])).
  { unfold balances_nonneg. apply map_Forall_to_list. vm_compute.
    repeat constructor; discriminate. }
  assert (H2 : Forall valid_op sample_ops).
  { repeat constructor; try (vm_compute; reflexivity); discriminate. }
  split; [exact H1|]. split; [exact H2|].
  exact (balance_nonneg_invariant sample_ops _ H1 H2).
Defined.

(** ** C8 — lock order and absence of deadlock *)

(** C8.  For two distinct wallets [x] and [y], the transfer [x -> y] and
    the transfer [y -> x] lock the same two wallets in the same order,
    the wallet whose id is smaller in code-unit order first.  Run
    concurrently, with any interleaving of their lock acquisitions, body
    and releases: every reachable state either has both transfers
    returned or allows a step, from every reachable state both transfers
    can run to their return, and every step brings them closer to it, so
    no interleaving runs forever. *)
Theorem transfer_lock_order_no_deadlock x y u1 u2 a1 a2 d1 d2 st :
  x <> y ->
  let ps := [mkXfer x y u1 a1 d1; mkXfer y x u2 a2 d2] in
  (exists l1 l2,
     lock_order (mkXfer x y u1 a1 d1) = [l1; l2] /\
     lock_order (mkXfer y x u2 a2 d2) = [l1; l2] /\
     str_ltb l1 l2 = true /\ ((l1 = x /\ l2 = y) \/ (l1 = y /\ l2 = x))) /\
  (forall S, rtc (step ps) (sys_init ps st) S ->
     (all_returned S \/ exists S', step ps S S') /\
     exists S', rtc (step ps) S S' /\ all_returned S') /\
  (forall S S', step ps S S' -> steps_left S' < steps_left S).
Proof.
  intros Hne ps. destruct (sort_pair_sorted x y Hne) as (l1 & l2 & Hs & Hlt & Hor).
  assert (Hs' : sort_pair y x = [l1; l2]) by (rewrite <- sort_pair_sym by exact Hne; exact Hs).
  assert (Hab : l1 <> l2) by (destruct Hor as [[-> ->]|[-> ->]]; congruence).
  assert (Hord : forall i p, ps !! i = Some p -> lock_order p = [l1; l2]).
  { intros [|[|i]] p Hp; simpl in Hp; try discriminate Hp; injection Hp as <-;
      unfold lock_order; simpl; assumption. }
  split; [exists l1, l2; auto|]. split; [|apply step_steps_left].
  intros S Hr.
  pose proof (lock_inv_rtc ps l1 l2 Hab Hord _ _ Hr (lock_inv_init ps l1 l2 st Hab)) as HI.
  split; [|exact (lock_inv_completes ps l1 l2 Hab Hord S HI)].
  destruct (decide (Forall (fun pc => pc = 4) (pcs S))) as [Hall|Hnot]; [left; exact Hall|].
  right. exact (lock_inv_progress ps l1 l2 Hord S HI Hnot).
Qed.

Lemma transfer_lock_order_no_deadlock_witness :
  "A" <> "B" /\
  let ps := [mkXfer "A" "B" "bob" (literal 20000 100) None;
             mkXfer "B" "A" "alice" (literal 1000 100) None] in
  (exists l1 l2,
     lock_order (mkXfer "A" "B" "bob" (literal 20000 100) None) = [l1; l2] /\
     lock_order (mkXfer "B" "A" "alice" (literal 1000 100) None) = [l1; l2] /\
     str_ltb l1 l2 = true /\ ((l1 = "A" /\ l2 = "B") \/ (l1 = "B" /\ l2 = "A"))) /\
  (forall S, rtc (step ps) (sys_init ps (store_of [wA; wB] [])) S ->
     (all_returned S \/ exists S', step ps S S') /\
     exists S', rtc (step ps) S S' /\ all_returned S') /\
  (forall S S', step ps S S' -> steps_left S' < steps_left S).
Proof.
  assert (H : "A" <> "B") by discriminate.
  split; [exact H|].
  exact (transfer_lock_order_no_deadlock "A" "B" "bob" "alice" (literal 20000 100)
           (literal 1000 100) None None (store_of [wA; wB] []) H).
Defined.

(** ** C9 — wallet provisioning *)

(** C9.  [createWallet(userId, type)] with a type other than [Basic] and
    [Premium] throws [Error('Unknown wallet type: ' + type)] before any
    write, the store unchanged; when it returns normally it has stored a
    wallet under a new id, owned by [userId], with balance 0.00 and the
    limit of the fixed table: 1000.00 for [Basic], 10000.00 for
    [Premium]. *)
Theorem createWallet_provisioning userId walletType s :
  (walletType <> "Basic" /\ walletType <> "Premium" ->
     createWallet userId walletType s =
       (Throw (Error "Error" ("Unknown wallet type: " ++ walletType)), s)) /\
  (forall w s2, createWallet userId walletType s = (Ok w, s2) ->
     w_balance w = 0%Z /\ w_userId w = userId /\ w_walletType w = walletType /\
     wallets s !! w_id w = None /\ wallets s2 = <[w_id w := w]> (wallets s) /\
     ((walletType = "Basic" /\ w_transactionLimit w = 100000%Z) \/
      (walletType = "Premium" /\ w_transactionLimit w = 1000000%Z))).
Proof.
  split.
  - intros [Hb Hp]. apply String.eqb_neq in Hb, Hp.
    unfold createWallet, WalletFactory_createWallet. rewrite Hb, Hp. reflexivity.
  - intros w s2 H. unfold createWallet in H.
    inv_bind H cfg s1 Hc H.
    assert (Hcfg : s1 = s /\ ((walletType = "Basic" /\ cfg = mkWalletConfig "Basic" 100000) \/
                              (walletType = "Premium" /\ cfg = mkWalletConfig "Premium" 1000000))).
    { unfold WalletFactory_createWallet in Hc.
      destruct (String.eqb walletType "Basic") eqn:Eb.
      - apply String.eqb_eq in Eb. injection Hc as <- <-. auto.
      - destruct (String.eqb walletType "Premium") eqn:Ep; [|discriminate Hc].
        apply String.eqb_eq in Ep. injection Hc as <- <-. auto. }
    destruct Hcfg as [-> Hcfg].
    inv_bind H w' s3 Hi H. unfold db_insert_wallet in Hi.
    inv_bind Hi u s4 Hf Hi. apply fault_point_Ok_inv in Hf. subst s4.
    unfold insert_wallet_row in Hi. cbn [wallets next_wallet set_faults] in Hi.
    destruct (wallets s !! fresh_wallet_id (next_wallet s)) eqn:Ef; [discriminate Hi|].
    injection Hi as <- <-.
    inv_bind H u5 s5 Hs H. apply serializeWallet_Ok in Hs as (Hw5 & _).
    unfold mret, M_ret in H. injection H as <- <-.
    rewrite Hw5. cbn. split; [reflexivity|]. split; [reflexivity|].
    destruct Hcfg as [[-> ->] | [-> ->]]; cbn; repeat split; auto.
Qed.

Lemma createWallet_provisioning_witness :
  ("Gold" <> "Basic" /\ "Gold" <> "Premium") /\
  createWallet "carol" "Gold" (store_of [wA] []) =
    (Throw (Error "Error" ("Unknown wallet type: " ++ "Gold")), store_of [wA] []) /\
  exists w s2,
    createWallet "carol" "Premium" (store_of [wA] []) = (Ok w, s2) /\
    w_balance w = 0%Z /\ w_userId w = "carol" /\ w_walletType w = "Premium" /\
    wallets (store_of [wA] []) !! w_id w = None /\
    wallets s2 = <[w_id w := w]> (wallets (store_of [wA] [])) /\
    (("Premium" = "Basic" /\ w_transactionLimit w = 100000%Z) \/
     ("Premium" = "Premium" /\ w_transactionLimit w = 1000000%Z)).
Proof.
  assert (H : "Gold" <> "Basic" /\ "Gold" <> "Premium") by (split; discriminate).
  split; [exact H|]. split; [exact (proj1 (createWallet_provisioning "carol" "Gold" _) H)|].
  set (res := createWallet "carol" "Premium" (store_of [wA] [])).
  assert (E : res = (Ok (ok_or wA (fst res)), snd res)) by (vm_compute; reflexivity).
  exists (ok_or wA (fst res)), (snd res). split; [exact E|].
  exact (proj2 (createWallet_provisioning "carol" "Premium" (store_of [wA] []))
           (ok_or wA (fst res)) (snd res) E).
Defined.

(** ** C10 — a transfer from a wallet to itself *)

(** C10 (amended).  Run sequentially, without the lock table and with no
    store or file-system failure, a transfer from an existing wallet [w]
    to itself whose amount is at most [w]'s balance and limit (JavaScript
    comparison of doubles) raises no error as soon as the column accepts
    the three values it writes, and the stored balance becomes
    [toFixed(2)] of the double [parseFloat(balance) + amount]: the credit,
    computed from the snapshot read before the debit, overwrites the
    debit.  For the literal of a whole number [a] of cents the balance
    grows by exactly [a] cents.  Under the lock table, the transfer takes
    the wallet's mutex as [lock1] and then waits for the same mutex as
    [lock2]: it never returns, and it reaches a state from which no step is
    possible. *)
Theorem self_transfer_anomaly walletId toUserId amount description s w :
  wallets s !! walletId = Some w ->
  faults s = [] ->
  num_lt (parseFloat (w_balance w)) amount = false ->
  num_lt (parseFloat (w_transactionLimit w)) amount = false ->
  (forall a nf nt,
     numeric_of (Shown amount) = Ok a ->
     numeric_of (Fixed2 (num_sub (parseFloat (w_balance w)) amount)) = Ok nf ->
     numeric_of (Fixed2 (num_add (parseFloat (w_balance w)) amount)) = Ok nt ->
     exists r s2,
       transfer walletId walletId toUserId amount description s = (Ok r, s2) /\
       balance_of s2 walletId = Some nt) /\
  (forall r s2, transfer walletId walletId toUserId amount description s = (Ok r, s2) ->
     forall a, amount = literal a 100 -> (Z.abs a < 10 ^ 12)%Z ->
       (Z.abs (w_balance w) < 10 ^ 12)%Z ->
       balance_of s2 walletId = Some (w_balance w + a)%Z) /\
  (let p := mkXfer walletId walletId toUserId amount description in
   (forall S, rtc (step [p]) (sys_init [p] s) S -> ~ all_returned S) /\
   exists S, rtc (step [p]) (sys_init [p] s) S /\ forall S', ~ step [p] S S').
Proof.
  intros Hw Hf Hb Hl. split; [|split].
  - intros a nf nt Ha Hnf Hnt.
    destruct s as [ws txs n nw f tr]. cbn in Hw, Hf. subst f.
    unfold transfer.
    repeat progress (run_M; rewrite ?Hw, ?Hb, ?Hl, ?lookup_insert_eq, ?i_amount_new_transaction,
                       ?Ha, ?Hnf, ?Hnt).
    do 2 eexists. split; [reflexivity|].
    unfold balance_of. cbn. rewrite !lookup_insert_eq. reflexivity.
  - intros r s2 H a -> Ha Hbw.
    apply transfer_Ok in H as (fw & tw & a' & nf & nt & Hf' & Ht' & _ & _ & _ & _ & Hnt & Hw2 & _).
    rewrite Hw in Hf', Ht'. injection Hf' as <-. injection Ht' as <-.
    rewrite stored_add_cents in Hnt by assumption.
    apply decimal_column_Ok in Hnt as [-> _].
    unfold balance_of. rewrite Hw2, lookup_insert_eq. reflexivity.
  - intros p. split.
    + intros S Hr Hall.
      assert (HI : self_inv walletId S).
      { apply (self_inv_rtc p walletId _ _ eq_refl eq_refl Hr). left. split; reflexivity. }
      destruct HI as [[Hpc _] | [Hpc _]]; unfold all_returned in Hall; rewrite Hpc in Hall;
        inversion Hall; discriminate.
    + exists (mkSys [1] {[walletId := 0]} s). split.
      * eapply rtc_l; [|apply rtc_refl].
        apply (step_lock1 [p] 0 p walletId walletId); try reflexivity.
        unfold lock_order. apply sort_pair_same.
      * intros S' Hs.
        assert (HI : self_inv walletId (mkSys [1] {[walletId := 0]} s)) by (right; split; reflexivity).
        inversion Hs as [i q l1 l2 pc h st Hq Hlo Hpc Hh | i q l1 l2 pc h st Hq Hlo Hpc Hh
                        | i q l1 l2 pc h st Hq Hlo Hpc | i q l1 l2 pc h st Hq Hlo Hpc]; subst;
          (destruct i as [|i]; [|discriminate Hq]); injection Hq as <-;
          unfold lock_order in Hlo; cbn in Hlo; rewrite sort_pair_same in Hlo;
          injection Hlo as <- <-; cbn in Hpc; try discriminate Hpc.
        rewrite lookup_singleton_eq in Hh. discriminate Hh.
Qed.

Lemma self_transfer_anomaly_witness :
  wallets (store_of [wA] []) !! "A" = Some wA /\
  faults (store_of [wA] []) = [] /\
  num_lt (parseFloat (w_balance wA)) (literal 10000 100) = false /\
  num_lt (parseFloat (w_transactionLimit wA)) (literal 10000 100) = false /\
  (exists r s2,
     transfer "A" "A" "alice" (literal 10000 100) None (store_of [wA] []) = (Ok r, s2) /\
     balance_of s2 "A" = Some 60000%Z) /\
  (let p := mkXfer "A" "A" "alice" (literal 10000 100) None in
   (forall S, rtc (step [p]) (sys_init [p] (store_of [wA] [])) S -> ~ all_returned S) /\
   exists S, rtc (step [p]) (sys_init [p] (store_of [wA] [])) S /\ forall S', ~ step [p] S S').
Proof.
  assert (H1 : wallets (store_of [wA] []) !! "A" = Some wA) by reflexivity.
  assert (H2 : faults (store_of [wA] []) = []) by reflexivity.
  assert (H3 : num_lt (parseFloat (w_balance wA)) (literal 10000 100) = false)
    by (vm_compute; reflexivity).
  assert (H4 : num_lt (parseFloat (w_transactionLimit wA)) (literal 10000 100) = false)
    by (vm_compute; reflexivity).
  destruct (self_transfer_anomaly "A" "alice" (literal 10000 100) None _ wA H1 H2 H3 H4)
    as (P1 & _ & P3).
  split; [exact H1|]. split; [exact H2|]. split; [exact H3|]. split; [exact H4|].
  split; [|exact P3].
  exact (P1 10000%Z 40000%Z 60000%Z ltac:(vm_compute; reflexivity)
           ltac:(vm_compute; reflexivity) ltac:(vm_compute; reflexivity)).
Defined.

(** C10 (counterexample).  The self-transfer of 1.005 on a wallet of
    balance 1.01 (limit 1000.00) returns normally, and the stored balance
    becomes 2.01: the double [1.01 + 1.005] lies just below 2.015, so the
    balance grows by 1.00, not by the amount 1.005. *)
Lemma self_transfer_anomaly_counterexample :
  let w := mkWallet "A" "alice" 101 "Basic" 100000 in
  let '(r, s2) := transfer "A" "A" "alice" (literal 1005 1000) None (store_of [w] []) in
  (exists t, r = Ok t) /\
  num_lt (parseFloat (w_balance w)) (literal 1005 1000) = false /\
  num_lt (parseFloat (w_transactionLimit w)) (literal 1005 1000) = false /\
  balance_of s2 "A" = Some 201%Z /\
  ~ (num_value (literal 1005 1000) == (201 - 101) # 100)%Q.
Proof.
  vm_compute. split; [eexists; reflexivity|].
  repeat split; try reflexivity; discriminate.
Qed.
(** * Further properties of the code *)

(** ** Sample facts *)

Lemma wallets_keyed_store_of f : wallets_keyed (store_of [wA; wB] f).
Proof.
  unfold wallets_keyed, store_of. cbn [wallets map list_to_map fold_right].
  repeat apply map_Forall_insert_2; [reflexivity | reflexivity | apply map_Forall_empty].
Qed.

Lemma wallets_keyed_store_of_C f : wallets_keyed (store_of [wC; wB] f).
Proof.
  unfold wallets_keyed, store_of. cbn [wallets map list_to_map fold_right].
  repeat apply map_Forall_insert_2; [reflexivity | reflexivity | apply map_Forall_empty].
Qed.

Lemma files_mirror_sample f : files_mirror sample_files (store_of [wA; wB] f).
Proof.
  intros id w H. unfold store_of in H. cbn [wallets map list_to_map fold_right] in H.
  apply lookup_insert_Some in H as [[<- <-]|[_ H]]; [reflexivity|].
  apply lookup_insert_Some in H as [[<- <-]|[_ H]]; [reflexivity|].
  rewrite lookup_empty in H. discriminate H.
Qed.

(** ** Wallet locks *)

Lemma getWalletLock_table a t :
  exists m, getWalletLock a t = (Some m, snd (getWalletLock a t)) /\
    walletLocks (snd (getWalletLock a t)) !! a = Some m.
Proof.
  unfold getWalletLock. destruct (walletLocks t !! a) as [m|] eqn:E; cbn.
  - rewrite E. eauto.
  - rewrite lookup_insert_eq. eauto.
Qed.

Lemma getWalletLock_keeps a t b m :
  walletLocks t !! b = Some m -> walletLocks (snd (getWalletLock a t)) !! b = Some m.
Proof.
  unfold getWalletLock. intros Hb. destruct (walletLocks t !! a) as [m'|] eqn:E; cbn; [exact Hb|].
  rewrite lookup_insert_ne; [exact Hb | congruence].
Qed.

Lemma getWalletLock_wf a t : lock_table_wf t -> lock_table_wf (snd (getWalletLock a t)).
Proof.
  unfold getWalletLock. intros [Hlt Hinj]. destruct (walletLocks t !! a) as [m'|] eqn:E; cbn.
  - split; assumption.
  - split.
    + apply map_Forall_insert_2; [cbn; lia|]. intros k m Hk. specialize (Hlt k m Hk). cbn in Hlt |- *. lia.
    + intros x y m Hx Hy. cbn in Hx, Hy.
      apply lookup_insert_Some in Hx, Hy.
      destruct Hx as [[<- <-]|[Hxa Hx]], Hy as [[<- Hy]|[Hya Hy]]; auto.
      * specialize (Hlt y _ Hy). cbn in Hlt. lia.
      * specialize (Hlt x _ Hx). cbn in Hlt. lia.
      * eauto.
Qed.

(** X1: Once getWalletLock has returned a mutex for a wallet id, a later call for any id keeps it: asking again for the first id returns the same mutex and leaves the table unchanged. *)
Theorem getWalletLock_same_mutex a b t m t1 r t2 :
  getWalletLock a t = (Some m, t1) -> getWalletLock b t1 = (r, t2) ->
  getWalletLock a t2 = (Some m, t2).
Proof.
  intros H1 H2.
  destruct (getWalletLock_table a t) as (m1 & E1 & L1). rewrite H1 in E1, L1. cbn in L1.
  injection E1 as <-.
  pose proof (getWalletLock_keeps b t1 a m L1) as L2. rewrite H2 in L2. cbn in L2.
  unfold getWalletLock. rewrite L2. cbn. rewrite L2. reflexivity.
Qed.

Lemma getWalletLock_same_mutex_witness :
  getWalletLock "A" empty_lock_table = (Some 0, snd (getWalletLock "A" empty_lock_table)) /\
  getWalletLock "B" (snd (getWalletLock "A" empty_lock_table)) =
    (Some 1, snd (getWalletLock "B" (snd (getWalletLock "A" empty_lock_table)))) /\
  getWalletLock "A" (snd (getWalletLock "B" (snd (getWalletLock "A" empty_lock_table)))) =
    (Some 0, snd (getWalletLock "B" (snd (getWalletLock "A" empty_lock_table)))).
Proof.
  assert (H1 : getWalletLock "A" empty_lock_table = (Some 0, snd (getWalletLock "A" empty_lock_table)))
    by reflexivity.
  assert (H2 : getWalletLock "B" (snd (getWalletLock "A" empty_lock_table)) =
    (Some 1, snd (getWalletLock "B" (snd (getWalletLock "A" empty_lock_table))))) by reflexivity.
  split; [exact H1|]. split; [exact H2|].
  exact (getWalletLock_same_mutex _ _ _ _ _ _ _ H1 H2).
Defined.

(** X2: On a well-formed lock table (every stored mutex below the creation counter, no mutex shared), getWalletLock for two different wallet ids returns two different mutexes, and the table stays well formed. *)
Theorem getWalletLock_distinct a b t ma t1 mb t2 :
  lock_table_wf t -> a <> b ->
  getWalletLock a t = (ma, t1) -> getWalletLock b t1 = (mb, t2) ->
  ma <> mb /\ lock_table_wf t2.
Proof.
  intros Hwf Hab H1 H2.
  destruct (getWalletLock_table a t) as (m1 & E1 & L1). rewrite H1 in E1, L1. cbn in L1.
  injection E1 as ->.
  destruct (getWalletLock_table b t1) as (m2 & E2 & L2). rewrite H2 in E2, L2. cbn in L2.
  injection E2 as ->.
  pose proof (getWalletLock_keeps b t1 a m1 L1) as L1'. rewrite H2 in L1'. cbn in L1'.
  pose proof (getWalletLock_wf a t Hwf) as W1. rewrite H1 in W1. cbn in W1.
  pose proof (getWalletLock_wf b t1 W1) as W2. rewrite H2 in W2. cbn in W2.
  split; [|exact W2].
  intros E. injection E as <-. apply Hab. exact (proj2 W2 a b m1 L1' L2).
Qed.

Lemma lock_table_wf_empty : lock_table_wf empty_lock_table.
Proof. split; [apply map_Forall_empty | intros a b m Ha; discriminate Ha]. Qed.

Lemma getWalletLock_distinct_witness :
  lock_table_wf empty_lock_table /\ "A" <> "B" /\ Some 0 <> Some 1 /\
  lock_table_wf (snd (getWalletLock "B" (snd (getWalletLock "A" empty_lock_table)))).
Proof.
  split; [exact lock_table_wf_empty|]. split; [discriminate|].
  exact (getWalletLock_distinct "A" "B" empty_lock_table (Some 0) _ (Some 1) _
           lock_table_wf_empty ltac:(discriminate) eq_refl eq_refl).
Defined.

(** ** Users and wallet provisioning *)

Lemma head_filter_None {A} (f : A -> bool) l :
  head (List.filter f l) = None <-> forall x, In x l -> f x = false.
Proof.
  induction l as [|y l IH]; cbn; [split; [tauto | reflexivity]|].
  destruct (f y) eqn:Ey; cbn.
  - split; [discriminate | intros H; rewrite (H y (or_introl eq_refl)) in Ey; discriminate].
  - rewrite IH. split; [intros H x [<-|Hx]; auto | intros H x Hx; auto].
Qed.

Lemma head_filter_Some {A} (f : A -> bool) l x :
  head (List.filter f l) = Some x -> In x l /\ f x = true.
Proof.
  induction l as [|y l IH]; cbn; [discriminate|].
  destruct (f y) eqn:Ey; cbn.
  - intros [= <-]. auto.
  - intros H. destruct (IH H). auto.
Qed.

Lemma in_wallet_rows (m : gmap string wallet) w :
  In w (map snd (map_to_list m)) <-> exists k, m !! k = Some w.
Proof.
  rewrite in_map_iff. split.
  - intros [[k w'] [Hw Hin]]. cbn in Hw. subst w'. exists k.
    apply elem_of_map_to_list, list_elem_of_In. exact Hin.
  - intros [k Hk]. exists (k, w). split; [reflexivity|].
    apply list_elem_of_In, elem_of_map_to_list. exact Hk.
Qed.

Lemma getWalletByUserId_Some userId s w :
  fst (getWalletByUserId userId s) = Ok (Some w) ->
  w_userId w = userId /\ exists k, wallets s !! k = Some w.
Proof.
  unfold getWalletByUserId. cbn. intros H. injection H as H.
  apply head_filter_Some in H as [Hin Hu]. apply String.eqb_eq in Hu.
  split; [exact Hu|]. apply in_wallet_rows. exact Hin.
Qed.

Lemma getWalletByUserId_None userId s :
  fst (getWalletByUserId userId s) = Ok None <->
  map_Forall (fun _ w => w_userId w <> userId) (wallets s).
Proof.
  unfold getWalletByUserId. cbn. split.
  - intros H. injection H as H. rewrite head_filter_None in H.
    intros k w Hk. apply String.eqb_neq, H, in_wallet_rows. eauto.
  - intros H. f_equal. apply head_filter_None. intros w Hin.
    apply in_wallet_rows in Hin as [k Hk]. apply String.eqb_neq. exact (H k w Hk).
Qed.

Lemma getWalletByUserId_state userId s : snd (getWalletByUserId userId s) = s.
Proof. reflexivity. Qed.

Lemma getWalletByUserId_found userId s k w :
  wallets s !! k = Some w -> w_userId w = userId ->
  exists w', fst (getWalletByUserId userId s) = Ok (Some w') /\ w_userId w' = userId.
Proof.
  intros Hk Hu. destruct (fst (getWalletByUserId userId s)) as [[w'|]|e] eqn:E.
  - exists w'. split; [reflexivity|]. exact (proj1 (getWalletByUserId_Some _ _ _ E)).
  - apply getWalletByUserId_None in E. exfalso. exact (E k w Hk Hu).
  - discriminate E.
Qed.

Lemma UM_bind_Ok_inv {A B} (m : UM A) (k : A -> UM B) st b st2 :
  (x ← m; k x) st = (Ok b, st2) -> exists a st1, m st = (Ok a, st1) /\ k a st1 = (Ok b, st2).
Proof. unfold mbind, UM_bind. destruct (m st) as [[a|e] st1]; [eauto | discriminate]. Qed.

Lemma lift_db_eq {A} (m : M A) st :
  lift_db m st = (fst (m (db st)), mkApp (users st) (snd (m (db st)))).
Proof. unfold lift_db. destruct (m (db st)). reflexivity. Qed.

Lemma createWallet_Ok userId walletType s w s2 :
  createWallet userId walletType s = (Ok w, s2) ->
  w_userId w = userId /\ w_balance w = 0%Z /\ wallets s !! w_id w = None /\
  wallets s2 = <[w_id w := w]> (wallets s) /\ transactions s2 = transactions s /\
  next_tx s2 = next_tx s /\ trace s2 = (trace s ++ [EvInsertWallet w; EvSerializeWallet w])%list /\
  exists cfg, WalletFactory_createWallet walletType s = (Ok cfg, s) /\
    w_walletType w = cfg_walletType cfg /\ w_transactionLimit w = cfg_transactionLimit cfg.
Proof.
  intros H. unfold createWallet in H.
  inv_bind H cfg s1 Hc H.
  assert (Hs1 : s1 = s).
  { unfold WalletFactory_createWallet in Hc.
    destruct (String.eqb walletType "Basic"); [injection Hc as _ <-; reflexivity|].
    destruct (String.eqb walletType "Premium"); [injection Hc as _ <-; reflexivity|discriminate Hc]. }
  subst s1.
  inv_bind H w' s3 Hi H. unfold db_insert_wallet in Hi.
  inv_bind Hi u s4 Hf Hi. apply fault_point_Ok_inv in Hf. subst s4.
  unfold insert_wallet_row in Hi. cbn [wallets next_wallet set_faults] in Hi.
  destruct (wallets s !! fresh_wallet_id (next_wallet s)) eqn:Ef; [discriminate Hi|].
  injection Hi as <- <-.
  inv_bind H u5 s5 Hs H. apply serializeWallet_Ok in Hs as (Hw5 & Ht5 & Hn5 & _ & Htr5).
  unfold mret, M_ret in H. injection H as <- <-.
  rewrite Hw5, Ht5, Hn5, Htr5. cbn. rewrite <- app_assoc. repeat split; try reflexivity; [exact Ef|].
  exists cfg. repeat split; assumption.
Qed.

Lemma upsert_user_row_Ok d us u us' :
  upsert_user_row d us = (Ok u, us') -> u_id u = d_id d /\ us' = <[d_id d := u]> us.
Proof.
  unfold upsert_user_row. destruct (us !! d_id d);
    match goal with |- context [if email_taken _ _ ?e then _ else _] => destruct (email_taken us (d_id d) e) end;
    intros H; try discriminate H; injection H as <- <-; auto.
Qed.

Lemma db_upsert_user_Ok d st u st1 :
  db_upsert_user d st = (Ok u, st1) ->
  u_id u = d_id d /\ users st1 = <[d_id d := u]> (users st) /\
  db st1 = set_faults (tail (faults (db st))) (db st).
Proof.
  unfold db_upsert_user. intros H. apply UM_bind_Ok_inv in H as (x & st0 & H0 & H).
  rewrite lift_db_eq in H0. injection H0 as Hf <-.
  destruct (fault_point (db st)) as [r s0] eqn:Efp. cbn in Hf |- *. subst r.
  apply fault_point_Ok_inv in Efp. subst s0.
  unfold users_upsert_row in H. cbn in H.
  destruct (upsert_user_row d (users st)) as [r us'] eqn:Eu. injection H as -> <-.
  apply upsert_user_row_Ok in Eu as [Hid ->]. auto.
Qed.

(** X3: When upsertUser succeeds, the returned user has the input's id and is stored under it, and getWalletByUserId then finds a wallet owned by that user. *)
Theorem upsertUser_has_wallet d st u st' :
  upsertUser d st = (Ok u, st') ->
  u_id u = d_id d /\ users st' !! d_id d = Some u /\
  exists w, fst (getWalletByUserId (d_id d) (db st')) = Ok (Some w) /\ w_userId w = d_id d.
Proof.
  unfold upsertUser. intros H. apply UM_bind_Ok_inv in H as (u1 & st1 & H1 & H).
  apply db_upsert_user_Ok in H1 as (Hid & Hus & Hdb).
  apply UM_bind_Ok_inv in H as (ew & st2 & H2 & H).
  rewrite lift_db_eq, getWalletByUserId_state in H2. apply pair_equal_spec in H2 as [Hew <-].
  rewrite Hid in Hew.
  destruct ew as [w|].
  - injection H as <- <-. cbn. rewrite Hus, lookup_insert_eq.
    split; [exact Hid|]. split; [reflexivity|].
    exists w. split; [exact Hew|]. exact (proj1 (getWalletByUserId_Some _ _ _ Hew)).
  - apply UM_bind_Ok_inv in H as (w & st3 & H3 & H).
    unfold mret, UM_ret in H. injection H as <- <-.
    rewrite lift_db_eq in H3. injection H3 as Hc <-. cbn [db users].
    rewrite Hus, lookup_insert_eq. split; [exact Hid|]. split; [reflexivity|].
    destruct (createWallet (u_id u1) "Basic" (db st1)) as [[w'|e] s3] eqn:Ec; [|discriminate Hc].
    injection Hc as ->. cbn [snd].
    apply createWallet_Ok in Ec as (Hu & _ & _ & Hws & _).
    rewrite Hid in Hu. cbn [db].
    apply (getWalletByUserId_found _ _ (w_id w) w); [rewrite Hws; apply lookup_insert_eq | exact Hu].
Qed.

Lemma upsertUser_has_wallet_witness :
  upsertUser (carol_signs_in "carol@example.com") (sample_app []) =
    (Ok carol_user, snd (upsertUser (carol_signs_in "carol@example.com") (sample_app []))) /\
  (u_id carol_user = "carol" /\
   users (snd (upsertUser (carol_signs_in "carol@example.com") (sample_app []))) !! "carol"
     = Some carol_user /\
   exists w, fst (getWalletByUserId "carol"
                    (db (snd (upsertUser (carol_signs_in "carol@example.com") (sample_app []))))) =
               Ok (Some w) /\ w_userId w = "carol").
Proof.
  assert (E : upsertUser (carol_signs_in "carol@example.com") (sample_app []) =
    (Ok carol_user, snd (upsertUser (carol_signs_in "carol@example.com") (sample_app []))))
    by (vm_compute; reflexivity).
  split; [exact E|]. exact (upsertUser_has_wallet _ _ _ _ E).
Defined.

(** X4: A successful upsertUser leaves the wallet table unchanged if the user already had a wallet; otherwise it adds exactly one wallet under a fresh id, owned by the user, with balance 0, type Basic and limit 1000.00. *)
Theorem upsertUser_wallets d st u st' :
  upsertUser d st = (Ok u, st') ->
  match fst (getWalletByUserId (d_id d) (db st)) with
  | Ok (Some _) => wallets (db st') = wallets (db st)
  | _ => exists w, wallets (db st) !! w_id w = None /\
           wallets (db st') = <[w_id w := w]> (wallets (db st)) /\
           w_userId w = d_id d /\ w_balance w = 0%Z /\ w_walletType w = "Basic" /\
           w_transactionLimit w = 100000%Z
  end.
Proof.
  unfold upsertUser. intros H. apply UM_bind_Ok_inv in H as (u1 & st1 & H1 & H).
  apply db_upsert_user_Ok in H1 as (Hid & Hus & Hdb).
  apply UM_bind_Ok_inv in H as (ew & st2 & H2 & H).
  rewrite lift_db_eq, getWalletByUserId_state in H2. apply pair_equal_spec in H2 as [Hew <-].
  rewrite Hid in Hew.
  assert (Hsame : fst (getWalletByUserId (d_id d) (db st)) = fst (getWalletByUserId (d_id d) (db st1)))
    by (rewrite Hdb; reflexivity).
  rewrite Hsame, Hew.
  destruct ew as [w|].
  - injection H as <- <-. cbn. rewrite Hdb. reflexivity.
  - apply UM_bind_Ok_inv in H as (w & st3 & H3 & H).
    unfold mret, UM_ret in H. injection H as <- <-.
    rewrite lift_db_eq in H3. injection H3 as Hc <-. cbn [db users].
    destruct (createWallet (u_id u1) "Basic" (db st1)) as [[w'|e] s3] eqn:Ec; [|discriminate Hc].
    injection Hc as ->. cbn [snd].
    apply createWallet_Ok in Ec as (Hu & Hb & Hfresh & Hws & _ & _ & _ & cfg & Hcfg & Ht & Hl).
    unfold WalletFactory_createWallet in Hcfg. cbn in Hcfg. injection Hcfg as <-.
    rewrite Hdb in Hfresh, Hws. cbn in Hfresh, Hws.
    exists w. rewrite Hid in Hu. repeat split; assumption.
Qed.

Lemma upsertUser_wallets_witness :
  upsertUser (carol_signs_in "carol@example.com") (sample_app []) =
    (Ok carol_user, snd (upsertUser (carol_signs_in "carol@example.com") (sample_app []))) /\
  match fst (getWalletByUserId "carol" (db (sample_app []))) with
  | Ok (Some _) => wallets (db (snd (upsertUser (carol_signs_in "carol@example.com") (sample_app []))))
                   = wallets (db (sample_app []))
  | _ => exists w, wallets (db (sample_app [])) !! w_id w = None /\
           wallets (db (snd (upsertUser (carol_signs_in "carol@example.com") (sample_app [])))) =
             <[w_id w := w]> (wallets (db (sample_app []))) /\
           w_userId w = "carol" /\ w_balance w = 0%Z /\ w_walletType w = "Basic" /\
           w_transactionLimit w = 100000%Z
  end.
Proof.
  assert (E : upsertUser (carol_signs_in "carol@example.com") (sample_app []) =
    (Ok carol_user, snd (upsertUser (carol_signs_in "carol@example.com") (sample_app []))))
    by (vm_compute; reflexivity).
  split; [exact E|]. exact (upsertUser_wallets _ _ _ _ E).
Defined.

(** X5: If another user already has the email the input sets, upsertUser fails with the unique-constraint error, leaves the users table unchanged and creates no wallet. *)
Theorem upsertUser_email_taken d st k v e :
  fst (fault_point (db st)) = Ok tt ->
  users st !! k = Some v -> u_id v <> d_id d -> u_email v = Some e ->
  d_email d = Some (Some e) ->
  upsertUser d st = (Throw unique_violation, mkApp (users st) (snd (fault_point (db st)))).
Proof.
  intros Hf Hk Hv He Hd.
  unfold upsertUser, db_upsert_user, mbind, UM_bind. rewrite lift_db_eq, Hf.
  unfold users_upsert_row. cbn [users db].
  assert (Ht : forall row, u_email row = Some e -> email_taken (users st) (d_id d) (u_email row) = true).
  { intros row Hr. rewrite Hr. unfold email_taken. apply existsb_exists.
    exists (k, v). split; [apply list_elem_of_In, elem_of_map_to_list; exact Hk|].
    cbn. apply andb_true_iff. split.
    - apply negb_true_iff, String.eqb_neq. exact Hv.
    - apply bool_decide_eq_true. exact He. }
  unfold upsert_user_row.
  destruct (users st !! d_id d) as [old|];
    rewrite Ht by (cbn; rewrite Hd; reflexivity); reflexivity.
Qed.

Lemma upsertUser_email_taken_witness :
  fst (fault_point (db (sample_app []))) = Ok tt /\
  users (sample_app []) !! "dave" = Some dave /\ u_id dave <> "carol" /\
  u_email dave = Some "dave@example.com" /\
  d_email (carol_signs_in "dave@example.com") = Some (Some "dave@example.com") /\
  upsertUser (carol_signs_in "dave@example.com") (sample_app []) =
    (Throw unique_violation,
     mkApp (users (sample_app [])) (snd (fault_point (db (sample_app []))))).
Proof.
  split; [reflexivity|]. split; [reflexivity|]. split; [discriminate|].
  split; [reflexivity|]. split; [reflexivity|].
  exact (upsertUser_email_taken (carol_signs_in "dave@example.com") (sample_app []) "dave" dave
           "dave@example.com" eq_refl eq_refl ltac:(discriminate) eq_refl eq_refl).
Defined.

(** ** Routes *)

Lemma getWalletByUserId_eq userId s :
  getWalletByUserId userId s = (fst (getWalletByUserId userId s), s).
Proof. reflexivity. Qed.

Lemma getWalletByUserId_keyed userId s w :
  wallets_keyed s -> fst (getWalletByUserId userId s) = Ok (Some w) ->
  wallets s !! w_id w = Some w.
Proof.
  intros Hk H. apply getWalletByUserId_Some in H as [_ [k Hw]].
  rewrite (Hk k w Hw). exact Hw.
Qed.

Lemma transfer_insufficient_eq f t u amount d s fw tw :
  wallets s !! f = Some fw -> wallets s !! t = Some tw ->
  num_lt (parseFloat (w_balance fw)) amount = true ->
  transfer f t u amount d s =
    (Throw (InsufficientFundsException (parseFloat (w_balance fw)) amount f), s).
Proof.
  intros Hf Ht Hb.
  unfold transfer. cbv beta iota zeta delta [mbind M_bind select_wallet].
  rewrite Hf, Ht. cbv beta iota zeta. rewrite Hb. reflexivity.
Qed.

Lemma transfer_limit_eq f t u amount d s fw tw :
  wallets s !! f = Some fw -> wallets s !! t = Some tw ->
  num_lt (parseFloat (w_balance fw)) amount = false ->
  num_lt (parseFloat (w_transactionLimit fw)) amount = true ->
  transfer f t u amount d s = (Throw (limit_error (w_transactionLimit fw)), s).
Proof.
  intros Hf Ht Hb Hl.
  unfold transfer. cbv beta iota zeta delta [mbind M_bind select_wallet].
  rewrite Hf, Ht. cbv beta iota zeta. rewrite Hb, Hl. reflexivity.
Qed.

Lemma deposit_limit_eq walletId amount m d s w :
  wallets s !! walletId = Some w ->
  num_lt (parseFloat (w_transactionLimit w)) amount = true ->
  deposit walletId amount m d s = (Throw (limit_error (w_transactionLimit w)), s).
Proof.
  intros Hw Hl.
  unfold deposit. cbv beta iota zeta delta [mbind M_bind select_wallet].
  rewrite Hw. cbv beta iota zeta. rewrite Hl. reflexivity.
Qed.

Lemma limit_message_nonempty limit :
  message_or (limit_error limit) "Failed to process transfer" = error_message (limit_error limit) /\
  message_or (limit_error limit) "Failed to process deposit" = error_message (limit_error limit).
Proof. split; reflexivity. Qed.

(** X6: The transfer route always answers (no error escapes it), and it changes the store only by running storage.transfer, after the body parsed, both wallets were found and their ids differ. *)
(** X6: The transfer route always answers (no error escapes it), and it changes the store only by running storage.transfer, after the body parsed, both wallets were found and their ids differ. *)
Theorem transfer_route_effect userId body s :
  (exists r, fst (transfer_route userId body s) = Ok r) /\
  (snd (transfer_route userId body s) = s \/
   exists req sw rw,
     parse_transfer body = Some req /\
     fst (getWalletByUserId userId s) = Ok (Some sw) /\
     fst (getWalletByUserId (tr_recipientUserId req) s) = Ok (Some rw) /\
     w_id sw <> w_id rw /\
     snd (transfer_route userId body s) =
       snd (transfer (w_id sw) (w_id rw) (tr_recipientUserId req) (tr_amount req)
              (tr_description req) s)).
Proof.
  unfold transfer_route, try_catch, mbind, M_bind, mret, M_ret.
  destruct (parse_transfer body) as [req|] eqn:Ep; [|split; [eexists; reflexivity | left; reflexivity]].
  rewrite (getWalletByUserId_eq userId s).
  destruct (fst (getWalletByUserId userId s)) as [[sw|]|e] eqn:Es;
    [| split; [eexists; reflexivity | left; reflexivity]
     | destruct e; (split; [eexists; reflexivity | left; reflexivity])].
  rewrite (getWalletByUserId_eq (tr_recipientUserId req) s).
  destruct (fst (getWalletByUserId (tr_recipientUserId req) s)) as [[rw|]|e] eqn:Er;
    [| split; [eexists; reflexivity | left; reflexivity]
     | destruct e; (split; [eexists; reflexivity | left; reflexivity])].
  destruct (String.eqb (w_id sw) (w_id rw)) eqn:Eq; [split; [eexists; reflexivity | left; reflexivity]|].
  apply String.eqb_neq in Eq.
  destruct (transfer (w_id sw) (w_id rw) (tr_recipientUserId req) (tr_amount req)
              (tr_description req) s) as [[tx|e] s'] eqn:Et.
  - split; [eexists; reflexivity|]. right. exists req, sw, rw. rewrite Et. auto 6.
  - split; [destruct e; eexists; reflexivity|]. right. exists req, sw, rw. rewrite Et.
    do 4 (split; [first [assumption | reflexivity]|]). destruct e; reflexivity.
Qed.

(** X7: A 200 answer from the transfer route means the body parsed, both wallets were found with different ids, storage.transfer on them succeeded with transaction tx and produced the final store, and the body is 'Transfer successful' with tx. *)
Theorem transfer_route_success userId body s b :
  fst (transfer_route userId body s) = Ok (200, b) ->
  exists req sw rw tx,
    parse_transfer body = Some req /\
    fst (getWalletByUserId userId s) = Ok (Some sw) /\
    fst (getWalletByUserId (tr_recipientUserId req) s) = Ok (Some rw) /\
    w_id sw <> w_id rw /\
    transfer (w_id sw) (w_id rw) (tr_recipientUserId req) (tr_amount req) (tr_description req) s =
      (Ok tx, snd (transfer_route userId body s)) /\
    b = BTransfer "Transfer successful" tx.
Proof.
  unfold transfer_route, try_catch, mbind, M_bind, mret, M_ret.
  destruct (parse_transfer body) as [req|] eqn:Ep; [|discriminate].
  rewrite (getWalletByUserId_eq userId s).
  destruct (fst (getWalletByUserId userId s)) as [[sw|]|e] eqn:Es;
    [| discriminate | destruct e; discriminate].
  rewrite (getWalletByUserId_eq (tr_recipientUserId req) s).
  destruct (fst (getWalletByUserId (tr_recipientUserId req) s)) as [[rw|]|e] eqn:Er;
    [| discriminate | destruct e; discriminate].
  destruct (String.eqb (w_id sw) (w_id rw)) eqn:Eq; [discriminate|].
  apply String.eqb_neq in Eq.
  destruct (transfer (w_id sw) (w_id rw) (tr_recipientUserId req) (tr_amount req)
              (tr_description req) s) as [[tx|e] s'] eqn:Et.
  - intros H. injection H as <-. exists req, sw, rw, tx. auto 7.
  - destruct e; cbn; intros H; injection H as H; discriminate H.
Qed.

Lemma transfer_route_success_witness :
  fst (transfer_route "alice" (transfer_body "bob" (literal 10000 100)) (store_of [wA; wB] [])) =
    Ok (200, BTransfer "Transfer successful" (Some alice_to_bob_out)) /\
  exists req sw rw tx,
    parse_transfer (transfer_body "bob" (literal 10000 100)) = Some req /\
    fst (getWalletByUserId "alice" (store_of [wA; wB] [])) = Ok (Some sw) /\
    fst (getWalletByUserId (tr_recipientUserId req) (store_of [wA; wB] [])) = Ok (Some rw) /\
    w_id sw <> w_id rw /\
    transfer (w_id sw) (w_id rw) (tr_recipientUserId req) (tr_amount req) (tr_description req)
      (store_of [wA; wB] []) =
      (Ok tx, snd (transfer_route "alice" (transfer_body "bob" (literal 10000 100)) (store_of [wA; wB] []))) /\
    BTransfer "Transfer successful" (Some alice_to_bob_out) = BTransfer "Transfer successful" tx.
Proof.
  assert (E : fst (transfer_route "alice" (transfer_body "bob" (literal 10000 100)) (store_of [wA; wB] [])) =
    Ok (200, BTransfer "Transfer successful" (Some alice_to_bob_out))) by (vm_compute; reflexivity).
  split; [exact E|]. exact (transfer_route_success _ _ _ _ E).
Defined.

(** X8: If the sender's and the recipient's wallets have the same id, the transfer route answers 400 'Cannot transfer to yourself' and leaves the store unchanged. *)
Theorem transfer_route_self userId body s req sw rw :
  parse_transfer body = Some req ->
  fst (getWalletByUserId userId s) = Ok (Some sw) ->
  fst (getWalletByUserId (tr_recipientUserId req) s) = Ok (Some rw) ->
  w_id sw = w_id rw ->
  transfer_route userId body s = (Ok (400, BMessage "Cannot transfer to yourself"), s).
Proof.
  intros Ep Es Er Eq.
  unfold transfer_route, try_catch, mbind, M_bind, mret, M_ret.
  rewrite Ep, (getWalletByUserId_eq userId s), Es,
    (getWalletByUserId_eq (tr_recipientUserId req) s), Er, Eq, String.eqb_refl.
  reflexivity.
Qed.

Lemma transfer_route_self_witness :
  parse_transfer (transfer_body "alice" (literal 10000 100)) = Some (mkTransferRequest "alice" (literal 10000 100) "WalletBalance" None) /\
  fst (getWalletByUserId "alice" (store_of [wA; wB] [])) = Ok (Some wA) /\
  transfer_route "alice" (transfer_body "alice" (literal 10000 100)) (store_of [wA; wB] []) =
    (Ok (400, BMessage "Cannot transfer to yourself"), store_of [wA; wB] []).
Proof.
  assert (Ep : parse_transfer (transfer_body "alice" (literal 10000 100)) =
                 Some (mkTransferRequest "alice" (literal 10000 100) "WalletBalance" None)) by (vm_compute; reflexivity).
  assert (Es : fst (getWalletByUserId "alice" (store_of [wA; wB] [])) = Ok (Some wA))
    by (vm_compute; reflexivity).
  split; [exact Ep|]. split; [exact Es|].
  exact (transfer_route_self "alice" _ _ _ wA wA Ep Es Es eq_refl).
Defined.

(** X9: If the amount exceeds the sender's balance (both wallets found, ids distinct), the transfer route answers 400 with the InsufficientFundsException message, the available balance and the requested amount, and leaves the store unchanged. *)
Theorem transfer_route_insufficient userId body s req sw rw :
  wallets_keyed s ->
  parse_transfer body = Some req ->
  fst (getWalletByUserId userId s) = Ok (Some sw) ->
  fst (getWalletByUserId (tr_recipientUserId req) s) = Ok (Some rw) ->
  w_id sw <> w_id rw ->
  num_lt (parseFloat (w_balance sw)) (tr_amount req) = true ->
  transfer_route userId body s =
    (Ok (400, BInsufficient
                (error_message (InsufficientFundsException (parseFloat (w_balance sw))
                                  (tr_amount req) (w_id sw)))
                (parseFloat (w_balance sw)) (tr_amount req)), s).
Proof.
  intros Hk Ep Es Er Eq Hb.
  unfold transfer_route, try_catch, mbind, M_bind, mret, M_ret.
  rewrite Ep, (getWalletByUserId_eq userId s), Es,
    (getWalletByUserId_eq (tr_recipientUserId req) s), Er.
  apply String.eqb_neq in Eq as Eq'. rewrite Eq'.
  rewrite (transfer_insufficient_eq _ _ _ _ _ _ sw rw); [reflexivity | | | exact Hb];
    eapply getWalletByUserId_keyed; eassumption.
Qed.

Lemma transfer_route_insufficient_witness :
  parse_transfer (transfer_body "bob" (literal 60000 100)) = Some (mkTransferRequest "bob" (literal 60000 100) "WalletBalance" None) /\
  transfer_route "alice" (transfer_body "bob" (literal 60000 100)) (store_of [wA; wB] []) =
    (Ok (400, BInsufficient "Insufficient funds: Available $500.00, Required $600.00"
                (parseFloat 50000) (literal 60000 100)), store_of [wA; wB] []).
Proof.
  assert (Ep : parse_transfer (transfer_body "bob" (literal 60000 100)) =
                 Some (mkTransferRequest "bob" (literal 60000 100) "WalletBalance" None)) by (vm_compute; reflexivity).
  split; [exact Ep|].
  exact (transfer_route_insufficient "alice" _ _ _ wA wB (wallets_keyed_store_of [])
           Ep ltac:(vm_compute; reflexivity) ltac:(vm_compute; reflexivity) ltac:(discriminate)
           ltac:(vm_compute; reflexivity)).
Defined.

(** X10: If the amount is within the sender's balance but above its transaction limit, the transfer route answers 500 with 'Amount exceeds transaction limit of $' and the limit, and the store is unchanged. *)
Theorem transfer_route_limit userId body s req sw rw :
  wallets_keyed s ->
  parse_transfer body = Some req ->
  fst (getWalletByUserId userId s) = Ok (Some sw) ->
  fst (getWalletByUserId (tr_recipientUserId req) s) = Ok (Some rw) ->
  w_id sw <> w_id rw ->
  num_lt (parseFloat (w_balance sw)) (tr_amount req) = false ->
  num_lt (parseFloat (w_transactionLimit sw)) (tr_amount req) = true ->
  transfer_route userId body s =
    (Ok (500, BMessage ("Amount exceeds transaction limit of $"
                          ++ decimal_to_string (w_transactionLimit sw))), s).
Proof.
  intros Hk Ep Es Er Eq Hb Hl.
  unfold transfer_route, try_catch, mbind, M_bind, mret, M_ret.
  rewrite Ep, (getWalletByUserId_eq userId s), Es,
    (getWalletByUserId_eq (tr_recipientUserId req) s), Er.
  apply String.eqb_neq in Eq as Eq'. rewrite Eq'.
  rewrite (transfer_limit_eq _ _ _ _ _ _ sw rw); [reflexivity | | | exact Hb | exact Hl];
    eapply getWalletByUserId_keyed; eassumption.
Qed.

Lemma transfer_route_limit_witness :
  parse_transfer (transfer_body "bob" (literal 150000 100)) = Some (mkTransferRequest "bob" (literal 150000 100) "WalletBalance" None) /\
  transfer_route "carol" (transfer_body "bob" (literal 150000 100)) (store_of [wC; wB] []) =
    (Ok (500, BMessage "Amount exceeds transaction limit of $1000.00"), store_of [wC; wB] []).
Proof.
  assert (Ep : parse_transfer (transfer_body "bob" (literal 150000 100)) =
                 Some (mkTransferRequest "bob" (literal 150000 100) "WalletBalance" None)) by (vm_compute; reflexivity).
  split; [exact Ep|].
  exact (transfer_route_limit "carol" _ _ _ wC wB (wallets_keyed_store_of_C [])
           Ep ltac:(vm_compute; reflexivity) ltac:(vm_compute; reflexivity) ltac:(discriminate)
           ltac:(vm_compute; reflexivity) ltac:(vm_compute; reflexivity)).
Defined.

(** X11: If the payment gateway returns an unsuccessful result, the deposit route answers 400 with the gateway's error message (or 'Payment processing failed') and leaves the store unchanged. *)
Theorem deposit_route_payment_declined pay userId body s req w p :
  parse_deposit body = Some req ->
  fst (getWalletByUserId userId s) = Ok (Some w) ->
  pay (dr_paymentMode req) (dr_amount req) (dr_description req) = Ok p ->
  p_success p = false ->
  deposit_route pay userId body s = (Ok (400, BMessage (payment_message p)), s).
Proof.
  intros Ep Ew Hp Hs.
  unfold deposit_route, try_catch, mbind, M_bind, mret, M_ret, from_result.
  rewrite Ep, (getWalletByUserId_eq userId s), Ew, Hp, Hs. reflexivity.
Qed.

Lemma deposit_route_payment_declined_witness :
  parse_deposit (deposit_body (literal 2500 100) "Card") = Some (mkDepositRequest (literal 2500 100) "Card" None) /\
  deposit_route gateway_declines "alice" (deposit_body (literal 2500 100) "Card") (store_of [wA; wB] []) =
    (Ok (400, BMessage "Card declined"), store_of [wA; wB] []).
Proof.
  assert (Ep : parse_deposit (deposit_body (literal 2500 100) "Card") = Some (mkDepositRequest (literal 2500 100) "Card" None))
    by (vm_compute; reflexivity).
  split; [exact Ep|].
  exact (deposit_route_payment_declined gateway_declines "alice" _ (store_of [wA; wB] []) _ wA _ Ep
           ltac:(vm_compute; reflexivity) eq_refl eq_refl).
Defined.

(** X12: A 200 answer from the deposit route means the body parsed, the wallet was found, the gateway reported success, storage.deposit succeeded with transaction tx and produced the final store, and the body carries tx and the gateway's transaction id. *)
Theorem deposit_route_success pay userId body s b :
  fst (deposit_route pay userId body s) = Ok (200, b) ->
  exists req w p tx,
    parse_deposit body = Some req /\
    fst (getWalletByUserId userId s) = Ok (Some w) /\
    pay (dr_paymentMode req) (dr_amount req) (dr_description req) = Ok p /\
    p_success p = true /\
    deposit (w_id w) (dr_amount req) (dr_paymentMode req) (dr_description req) s =
      (Ok tx, snd (deposit_route pay userId body s)) /\
    b = BDeposit "Deposit successful" tx (p_transactionId p).
Proof.
  unfold deposit_route, try_catch, mbind, M_bind, mret, M_ret, from_result.
  destruct (parse_deposit body) as [req|] eqn:Ep; [|discriminate].
  rewrite (getWalletByUserId_eq userId s).
  destruct (fst (getWalletByUserId userId s)) as [[w|]|e] eqn:Ew; [| discriminate | discriminate].
  destruct (pay (dr_paymentMode req) (dr_amount req) (dr_description req)) as [p|e] eqn:Hp;
    [|discriminate].
  destruct (p_success p) eqn:Hs; [|discriminate]. cbv beta iota delta [negb].
  destruct (deposit (w_id w) (dr_amount req) (dr_paymentMode req) (dr_description req) s)
    as [[tx|e] s'] eqn:Ed; [|intros H; cbn in H; congruence].

  intros H. injection H as <-. exists req, w, p, tx. auto 7.
Qed.

Lemma deposit_route_success_witness :
  fst (deposit_route gateway_approves "alice" (deposit_body (literal 2500 100) "UPI") (store_of [wA; wB] [])) =
    Ok (200, BDeposit "Deposit successful" (Some alice_deposit) (Some "pay_1")) /\
  exists req w p tx,
    parse_deposit (deposit_body (literal 2500 100) "UPI") = Some req /\
    fst (getWalletByUserId "alice" (store_of [wA; wB] [])) = Ok (Some w) /\
    gateway_approves (dr_paymentMode req) (dr_amount req) (dr_description req) = Ok p /\
    p_success p = true /\
    deposit (w_id w) (dr_amount req) (dr_paymentMode req) (dr_description req) (store_of [wA; wB] []) =
      (Ok tx, snd (deposit_route gateway_approves "alice" (deposit_body (literal 2500 100) "UPI") (store_of [wA; wB] []))) /\
    BDeposit "Deposit successful" (Some alice_deposit) (Some "pay_1") =
      BDeposit "Deposit successful" tx (p_transactionId p).
Proof.
  assert (E : fst (deposit_route gateway_approves "alice" (deposit_body (literal 2500 100) "UPI") (store_of [wA; wB] [])) =
    Ok (200, BDeposit "Deposit successful" (Some alice_deposit) (Some "pay_1")))
    by (vm_compute; reflexivity).
  split; [exact E|]. exact (deposit_route_success _ _ _ _ _ E).
Defined.

(** X13: If the gateway accepts a payment whose amount exceeds the wallet's transaction limit, the deposit route answers 500 with the limit message and the store is unchanged: the payment went through but no deposit is recorded. *)
Theorem deposit_route_paid_over_limit pay userId body s req w p :
  wallets_keyed s ->
  parse_deposit body = Some req ->
  fst (getWalletByUserId userId s) = Ok (Some w) ->
  pay (dr_paymentMode req) (dr_amount req) (dr_description req) = Ok p ->
  p_success p = true ->
  num_lt (parseFloat (w_transactionLimit w)) (dr_amount req) = true ->
  deposit_route pay userId body s =
    (Ok (500, BMessage ("Amount exceeds transaction limit of $"
                          ++ decimal_to_string (w_transactionLimit w))), s).
Proof.
  intros Hk Ep Ew Hp Hs Hl.
  unfold deposit_route, try_catch, mbind, M_bind, mret, M_ret, from_result.
  rewrite Ep, (getWalletByUserId_eq userId s), Ew, Hp, Hs. cbn [negb].
  rewrite (deposit_limit_eq _ _ _ _ _ w); [reflexivity | | exact Hl].
  eapply getWalletByUserId_keyed; eassumption.
Qed.

Lemma deposit_route_paid_over_limit_witness :
  parse_deposit (deposit_body (literal 200000 100) "Card") = Some (mkDepositRequest (literal 200000 100) "Card" None) /\
  deposit_route gateway_approves "alice" (deposit_body (literal 200000 100) "Card") (store_of [wA; wB] []) =
    (Ok (500, BMessage "Amount exceeds transaction limit of $1000.00"), store_of [wA; wB] []).
Proof.
  assert (Ep : parse_deposit (deposit_body (literal 200000 100) "Card") = Some (mkDepositRequest (literal 200000 100) "Card" None))
    by (vm_compute; reflexivity).
  split; [exact Ep|].
  exact (deposit_route_paid_over_limit gateway_approves "alice" _ _ _ wA _
           (wallets_keyed_store_of []) Ep ltac:(vm_compute; reflexivity) eq_refl eq_refl
           ltac:(vm_compute; reflexivity)).
Defined.

(** ** Analytics and wallet files *)

Lemma add_to_group_lookup acc tx m :
  add_to_group acc tx !! m =
    if String.eqb (t_paymentMode tx) m then add_opt (acc !! m) tx else acc !! m.
Proof.
  unfold add_to_group, add_opt.
  destruct (String.eqb (t_paymentMode tx) m) eqn:E.
  - apply String.eqb_eq in E. subst m.
    destruct (acc !! t_paymentMode tx) as [g|] eqn:Eg.
    + rewrite Eg, lookup_insert_eq. reflexivity.
    + rewrite !lookup_insert_eq. reflexivity.
  - apply String.eqb_neq in E.
    destruct (acc !! t_paymentMode tx) as [g|] eqn:Eg.
    + rewrite Eg, lookup_insert_ne by exact E. reflexivity.
    + rewrite lookup_insert_eq, !lookup_insert_ne by exact E. reflexivity.
Qed.

Lemma fold_add_to_group l acc m :
  fold_left add_to_group l acc !! m =
    fold_left add_opt (List.filter (fun tx => String.eqb (t_paymentMode tx) m) l) (acc !! m).
Proof.
  revert acc. induction l as [|tx l IH]; intros acc; [reflexivity|].
  cbn [fold_left List.filter]. rewrite IH, add_to_group_lookup.
  destruct (String.eqb (t_paymentMode tx) m); reflexivity.
Qed.

Lemma fold_add_opt l g :
  fold_left add_opt l (Some g) =
    Some (mkGroup (g_count g + length l)
            (fold_left (fun sum tx => num_add sum (parseFloat (t_amount tx))) l (g_totalAmount g))
            (g_transactions g ++ l)).
Proof.
  revert g. induction l as [|tx l IH]; intros g.
  - cbn. rewrite Nat.add_0_r, app_nil_r. destruct g; reflexivity.
  - cbn [fold_left]. unfold add_opt at 2. cbn [default]. rewrite IH. cbn.
    rewrite <- app_assoc. f_equal. f_equal. lia.
Qed.

Lemma filter_filter_andb {A} (f g : A -> bool) l :
  List.filter g (List.filter f l) = List.filter (fun x => f x && g x) l.
Proof.
  induction l as [|x l IH]; [reflexivity|]. cbn.
  destruct (f x); cbn; [destruct (g x); cbn|]; rewrite IH; reflexivity.
Qed.

(** X14: In the analytics result, the group of a payment mode is absent if no successful transaction used it; otherwise its count is the number of those transactions, its totalAmount the double obtained by adding parseFloat of their amounts one by one from 0, in order, and its list those transactions in order. *)
Theorem analytics_grouped isToday txs mode :
  let L := List.filter (fun tx => is_status "success" tx && String.eqb (t_paymentMode tx) mode) txs in
  groupedByPaymentType (analytics_of isToday txs) !! mode =
    match L with
    | [] => None
    | _ :: _ => Some (mkGroup (length L)
                   (fold_left (fun sum tx => num_add sum (parseFloat (t_amount tx))) L
                      (S754_zero false)) L)
    end.
Proof.
  intros L. unfold analytics_of. cbn [groupedByPaymentType].
  rewrite fold_add_to_group, lookup_empty, filter_filter_andb. fold L.
  destruct L as [|tx l]; [reflexivity|].
  cbn [fold_left]. unfold add_opt at 2. cbn [default].
  rewrite fold_add_opt. cbn. reflexivity.
Qed.

Lemma string_length_app a b : String.length (a ++ b) = String.length a + String.length b.
Proof. induction a as [|x a IH]; simpl; [reflexivity | f_equal; exact IH]. Qed.

Lemma string_app_cancel_r a b c : (a ++ c = b ++ c)%string -> a = b.
Proof.
  revert b. induction a as [|x a IH]; intros b H; destruct b as [|y b]; cbn in H.
  - reflexivity.
  - exfalso. apply (f_equal String.length) in H. rewrite ?string_length_app in H. simpl in H. rewrite ?string_length_app in H. lia.
  - exfalso. apply (f_equal String.length) in H. rewrite ?string_length_app in H. simpl in H. rewrite ?string_length_app in H. lia.
  - injection H as -> H. f_equal. exact (IH b H).
Qed.

Lemma wallet_file_name_inj a b : wallet_file_name a = wallet_file_name b -> a = b.
Proof.
  unfold wallet_file_name. cbn. intros H. repeat (injection H as H).
  exact (string_app_cancel_r a b ".json" H).
Qed.

Lemma wallet_json_no_stamp w : wallet_json w !! "serializedAt" = None.
Proof. reflexivity. Qed.

Lemma deserialize_serialized stamp w :
  delete "serializedAt" (serialized_json stamp w) = wallet_json w.
Proof.
  unfold serialized_json. apply delete_insert_id. apply wallet_json_no_stamp.
Qed.

Lemma deserializeWallet_write id stamp w files :
  deserializeWallet id (<[wallet_file_name (w_id w) := Some (serialized_json stamp w)]> files) =
    if String.eqb id (w_id w) then Some (wallet_json w) else deserializeWallet id files.
Proof.
  unfold deserializeWallet. destruct (String.eqb id (w_id w)) eqn:E.
  - apply String.eqb_eq in E. subst id. rewrite lookup_insert_eq, deserialize_serialized. reflexivity.
  - apply String.eqb_neq in E. rewrite lookup_insert_ne; [reflexivity|].
    intros H. apply E, wallet_file_name_inj. symmetry. exact H.
Qed.

Lemma apply_writes_app stamp l1 l2 files :
  apply_writes stamp (l1 ++ l2) files = apply_writes stamp l2 (apply_writes stamp l1 files).
Proof. unfold apply_writes. apply fold_left_app. Qed.

Lemma deserializeWallet_fail id w files :
  deserializeWallet id (<[wallet_file_name (w_id w) := None]> files) =
    if String.eqb id (w_id w) then None else deserializeWallet id files.
Proof.
  unfold deserializeWallet. destruct (String.eqb id (w_id w)) eqn:E.
  - apply String.eqb_eq in E. subst id. rewrite lookup_insert_eq. reflexivity.
  - apply String.eqb_neq in E. rewrite lookup_insert_ne; [reflexivity|].
    intros H. apply E, wallet_file_name_inj. symmetry. exact H.
Qed.

Lemma apply_writes_other stamp evs files id :
  (forall w, In (EvSerializeWallet w) evs \/ In (EvSerializeFailed w) evs -> w_id w <> id) ->
  deserializeWallet id (apply_writes stamp evs files) = deserializeWallet id files.
Proof.
  revert files. induction evs as [|ev evs IH]; intros files H; [reflexivity|].
  change (apply_writes stamp (ev :: evs) files) with (apply_writes stamp evs (apply_writes stamp [ev] files)).
  rewrite IH by (intros w [Hw|Hw]; apply H; [left|right]; right; exact Hw).
  destruct ev; try reflexivity; cbn.
  - rewrite deserializeWallet_write.
    destruct (String.eqb id (w_id w)) eqn:E; [|reflexivity].
    apply String.eqb_eq in E. exfalso. apply (H w (or_introl (or_introl eq_refl))). symmetry. exact E.
  - rewrite deserializeWallet_fail.
    destruct (String.eqb id (w_id w)) eqn:E; [|reflexivity].
    apply String.eqb_eq in E. exfalso. apply (H w (or_intror (or_introl eq_refl))). symmetry. exact E.
Qed.

(** X15: After a sequence of serializeWallet writes, deserializeWallet returns the fields of the last write for that wallet id, without serializedAt, whatever other wallets are written after it (a later write of the same wallet, completed or failed, is excluded). *)
Theorem deserializeWallet_last_write stamp pre w post files :
  (forall w', In (EvSerializeWallet w') post \/ In (EvSerializeFailed w') post -> w_id w' <> w_id w) ->
  deserializeWallet (w_id w) (apply_writes stamp (pre ++ EvSerializeWallet w :: post) files) =
    Some (wallet_json w).
Proof.
  intros H. rewrite apply_writes_app.
  change (EvSerializeWallet w :: post) with ([EvSerializeWallet w] ++ post)%list.
  rewrite apply_writes_app, apply_writes_other by exact H. cbn.
  rewrite deserializeWallet_write, String.eqb_refl. reflexivity.
Qed.

Lemma deserializeWallet_last_write_witness :
  deserializeWallet "A" (apply_writes sample_stamp
    ([EvSerializeWallet wA] ++ EvSerializeWallet (with_balance 7500 wA) :: [EvSerializeWallet wB])%list
    ∅) = Some (wallet_json (with_balance 7500 wA)).
Proof.
  apply (deserializeWallet_last_write sample_stamp [EvSerializeWallet wA] (with_balance 7500 wA)).
  intros w' [[H|[]]|[H|[]]]; [injection H as <-; discriminate | discriminate H].
Defined.

Lemma read_wallet_files_corrupt files names f :
  In f names -> files !! f = Some None -> read_wallet_files files names = None.
Proof.
  induction names as [|g names IH]; intros Hin Hf; [destruct Hin|].
  cbn. destruct Hin as [<-|Hin].
  - rewrite Hf. reflexivity.
  - destruct (files !! g) as [[d|]|]; [|reflexivity|reflexivity].
    rewrite (IH Hin Hf). reflexivity.
Qed.

Lemma in_file_names (files : gmap string (option jobject)) f :
  In f (map fst (map_to_list files)) <-> is_Some (files !! f).
Proof.
  rewrite in_map_iff. split.
  - intros [[g x] [Hg Hin]]. cbn in Hg. subst g. exists x.
    apply elem_of_map_to_list, list_elem_of_In. exact Hin.
  - intros [x Hx]. exists (f, x). split; [reflexivity|].
    apply list_elem_of_In, elem_of_map_to_list. exact Hx.
Qed.

(** X16: If one wallet_*.json file cannot be read or parsed, getAllSerializedWallets returns the empty list, dropping every readable wallet too. *)
Theorem getAllSerializedWallets_corrupt files f :
  is_wallet_file f = true -> files !! f = Some None -> getAllSerializedWallets files = [].
Proof.
  intros Hw Hf. unfold getAllSerializedWallets.
  rewrite (read_wallet_files_corrupt _ _ f); [reflexivity| |exact Hf].
  apply filter_In. split; [apply in_file_names; rewrite Hf; eauto | exact Hw].
Qed.

Lemma getAllSerializedWallets_corrupt_witness :
  is_wallet_file "wallet_A.json" = true /\ corrupt_files !! "wallet_A.json" = Some None /\
  getAllSerializedWallets corrupt_files = [].
Proof.
  split; [reflexivity|]. split; [reflexivity|].
  exact (getAllSerializedWallets_corrupt corrupt_files "wallet_A.json" eq_refl eq_refl).
Defined.

Lemma read_wallet_files_all files names :
  (forall g, In g names -> files !! g <> Some None /\ is_Some (files !! g)) ->
  exists ws, read_wallet_files files names = Some ws /\
    forall o, In o ws <-> exists g d, In g names /\ files !! g = Some (Some d) /\
                                      o = delete "serializedAt" d.
Proof.
  induction names as [|g names IH]; intros H.
  - exists []. split; [reflexivity|]. intros o. split; [intros []|]. intros (g & d & [] & _).
  - destruct IH as (ws & Hr & Hws); [intros g' Hg'; apply H; right; exact Hg'|].
    destruct (H g (or_introl eq_refl)) as [Hn [x Hx]].
    destruct x as [d|]; [|congruence].
    exists (delete "serializedAt" d :: ws). cbn. rewrite Hx, Hr. split; [reflexivity|].
    intros o. cbn. rewrite Hws. split.
    + intros [<-|(g' & d' & Hg' & Hd' & ->)]; [exists g, d; auto | exists g', d'; auto].
    + intros (g' & d' & [<-|Hg'] & Hd' & ->).
      * left. rewrite Hx in Hd'. injection Hd' as <-. reflexivity.
      * right. exists g', d'. auto.
Qed.

(** X17: When every wallet_*.json file is readable, getAllSerializedWallets returns exactly the contents of those files with serializedAt removed; other files are ignored. *)
Theorem getAllSerializedWallets_complete files :
  (forall f, is_wallet_file f = true -> files !! f <> Some None) ->
  forall o, In o (getAllSerializedWallets files) <->
    exists f d, is_wallet_file f = true /\ files !! f = Some (Some d) /\
                o = delete "serializedAt" d.
Proof.
  intros H. unfold getAllSerializedWallets.
  destruct (read_wallet_files_all files
              (List.filter is_wallet_file (map fst (map_to_list files)))) as (ws & Hr & Hws).
  { intros g Hg. apply filter_In in Hg as [Hin Hw]. split; [exact (H g Hw)|].
    apply in_file_names. exact Hin. }
  rewrite Hr. intros o. rewrite Hws. split.
  - intros (f & d & Hin & Hd & ->). apply filter_In in Hin as [_ Hw]. eauto.
  - intros (f & d & Hw & Hd & ->). exists f, d. split; [|auto].
    apply filter_In. split; [apply in_file_names; rewrite Hd; eauto | exact Hw].
Qed.

Lemma getAllSerializedWallets_complete_witness :
  (forall f, is_wallet_file f = true -> files_with_notes !! f <> Some None) /\
  forall o, In o (getAllSerializedWallets files_with_notes) <->
    exists f d, is_wallet_file f = true /\ files_with_notes !! f = Some (Some d) /\
                o = delete "serializedAt" d.
Proof.
  assert (H : forall f, is_wallet_file f = true -> files_with_notes !! f <> Some None).
  { intros f Hf Hl. unfold files_with_notes, sample_files, apply_writes in Hl. cbn [fold_left] in Hl.
    apply lookup_insert_Some in Hl as [[<- _]|[_ Hl]]; [discriminate Hf|].
    apply lookup_insert_Some in Hl as [[_ Hl]|[_ Hl]]; [discriminate Hl|].
    apply lookup_insert_Some in Hl as [[_ Hl]|[_ Hl]]; [discriminate Hl|].
    rewrite lookup_empty in Hl. discriminate Hl. }
  split; [exact H|]. exact (getAllSerializedWallets_complete files_with_notes H).
Defined.

Lemma toFixed2_cents_near x b :
  is_finite x = true -> (0 <= num_value x)%Q -> (0 <= b < 10 ^ 12)%Z ->
  (Qabs (num_value x - (b # 100)) < 1 # 200)%Q -> toFixed2 x = decimal_to_string b.
Proof.
  intros Hf H0 Hb Hn.
  assert (Hx : (num_value x < inject_Z (10 ^ 21))%Q).
  { rewrite Qabs_Qlt_condition, Qmake_cents in Hn. destruct Hn as [_ Hn].
    pose proof (Zcents_bound b ltac:(lia)) as [_ Hc].
    setoid_replace (inject_Z (10 ^ 21)) with (1000000000000000000000 # 1)%Q by reflexivity.
    lra. }
  rewrite (toFixed2_text x Hf H0 Hx), (round_cents_near _ b Hn). reflexivity.
Qed.

Lemma toFixed2_parseFloat b : (0 <= b < 10 ^ 12)%Z -> toFixed2 (parseFloat b) = decimal_to_string b.
Proof.
  intros Hb. destruct (parseFloat_near b ltac:(lia)) as [Hf He].
  apply toFixed2_cents_near; [exact Hf | | exact Hb |].
  - apply num_value_nonneg, parseFloat_nonneg. lia.
  - eapply Qle_lt_trans; [exact He|]. rewrite pow2_m19. reflexivity.
Qed.

(** ** Storage operations *)

Lemma mirror_insert stamp (m : gmap string wallet) files k w' :
  (forall id w, m !! id = Some w -> deserializeWallet id files = Some (wallet_json w)) ->
  w_id w' = k ->
  forall id w, <[k := w']> m !! id = Some w ->
    deserializeWallet id (<[wallet_file_name (w_id w') := Some (serialized_json stamp w')]> files)
      = Some (wallet_json w).
Proof.
  intros Hm Hk id w Hid. rewrite deserializeWallet_write.
  apply lookup_insert_Some in Hid as [[<- <-]|[Hne Hid]].
  - rewrite Hk, String.eqb_refl. reflexivity.
  - destruct (String.eqb id (w_id w')) eqn:E.
    + apply String.eqb_eq in E. congruence.
    + exact (Hm id w Hid).
Qed.

(** X18: If the wallet files match the wallet table, they still match it after any successful deposit, transfer or createWallet, once that operation's serialize writes are applied. *)
Theorem files_mirror_preserved stamp files s :
  wallets_keyed s -> files_mirror files s ->
  (forall walletId amount paymentMode description r s2,
     deposit walletId amount paymentMode description s = (Ok r, s2) ->
     exists evs, trace s2 = (trace s ++ evs)%list /\ files_mirror (apply_writes stamp evs files) s2) /\
  (forall fromWalletId toWalletId toUserId amount description r s2,
     transfer fromWalletId toWalletId toUserId amount description s = (Ok r, s2) ->
     exists evs, trace s2 = (trace s ++ evs)%list /\ files_mirror (apply_writes stamp evs files) s2) /\
  (forall userId walletType w s2,
     createWallet userId walletType s = (Ok w, s2) ->
     exists evs, trace s2 = (trace s ++ evs)%list /\ files_mirror (apply_writes stamp evs files) s2).
Proof.
  intros Hk Hm. split; [|split].
  - intros walletId amount paymentMode description r s2 H.
    apply deposit_Ok in H as (w & a & nb & Hw & _ & _ & _ & H). cbv zeta in H.
    destruct H as (Hws & _ & _ & Htr & _).
    eexists. split; [exact Htr|].
    unfold files_mirror. rewrite Hws. unfold apply_writes. cbn [fold_left].
    apply mirror_insert; [exact Hm|]. exact (Hk walletId w Hw).
  - intros fromWalletId toWalletId toUserId amount description r s2 H.
    apply transfer_Ok in H as (fw & tw & a & nf & nt & Hfw & Htw & _ & _ & _ & _ & _ & H).
    cbv zeta in H. destruct H as (Hws & _ & _ & Htr & _).
    eexists. split; [exact Htr|].
    unfold files_mirror. rewrite Hws. unfold apply_writes. cbn [fold_left].
    apply mirror_insert; [|exact (Hk toWalletId tw Htw)].
    apply mirror_insert; [exact Hm|]. exact (Hk fromWalletId fw Hfw).
  - intros userId walletType w s2 H.
    apply createWallet_Ok in H as (_ & _ & _ & Hws & _ & _ & Htr & _).
    eexists. split; [exact Htr|].
    unfold files_mirror. rewrite Hws. unfold apply_writes. cbn [fold_left].
    apply mirror_insert; [exact Hm | reflexivity].
Qed.

Lemma files_mirror_preserved_witness :
  wallets_keyed (store_of [wA; wB] []) /\ files_mirror sample_files (store_of [wA; wB] []) /\
  (forall walletId amount paymentMode description r s2,
     deposit walletId amount paymentMode description (store_of [wA; wB] []) = (Ok r, s2) ->
     exists evs, trace s2 = (trace (store_of [wA; wB] []) ++ evs)%list /\
                 files_mirror (apply_writes sample_stamp evs sample_files) s2) /\
  (forall fromWalletId toWalletId toUserId amount description r s2,
     transfer fromWalletId toWalletId toUserId amount description (store_of [wA; wB] []) = (Ok r, s2) ->
     exists evs, trace s2 = (trace (store_of [wA; wB] []) ++ evs)%list /\
                 files_mirror (apply_writes sample_stamp evs sample_files) s2) /\
  (forall userId walletType w s2,
     createWallet userId walletType (store_of [wA; wB] []) = (Ok w, s2) ->
     exists evs, trace s2 = (trace (store_of [wA; wB] []) ++ evs)%list /\
                 files_mirror (apply_writes sample_stamp evs sample_files) s2).
Proof.
  split; [exact (wallets_keyed_store_of [])|].
  split; [exact (files_mirror_sample [])|].
  exact (files_mirror_preserved sample_stamp sample_files (store_of [wA; wB] [])
           (wallets_keyed_store_of []) (files_mirror_sample [])).
Defined.

(** X19: If the wallet-file step of a deposit fails, the deposit throws that error while the new balance stays committed in the wallet table.  When ensureDirectory (or the opening of the file) fails, the wallet's file still holds the old wallet; when the write fails after the file was opened, and so truncated, the file no longer reads back as a wallet. *)
Theorem deposit_serialize_failure walletId amount paymentMode description s w a nb e rest stamp files :
  wallets s !! walletId = Some w -> w_id w = walletId ->
  num_lt (parseFloat (w_transactionLimit w)) amount = false ->
  numeric_of (Shown amount) = Ok a ->
  numeric_of (Fixed2 (num_add (parseFloat (w_balance w)) amount)) = Ok nb ->
  files_mirror files s ->
  (exists s2 evs,
    deposit walletId amount paymentMode description
      (set_faults (None :: None :: Some e :: None :: rest) s) = (Throw e, s2) /\
    wallets s2 = <[walletId := with_balance nb w]> (wallets s) /\
    trace s2 = (trace s ++ evs)%list /\
    deserializeWallet walletId (apply_writes stamp evs files) = Some (wallet_json w)) /\
  (exists s2 evs,
    deposit walletId amount paymentMode description
      (set_faults (None :: None :: None :: Some e :: None :: rest) s) = (Throw e, s2) /\
    wallets s2 = <[walletId := with_balance nb w]> (wallets s) /\
    trace s2 = (trace s ++ evs)%list /\
    deserializeWallet walletId (apply_writes stamp evs files) = None).
Proof.
  intros Hw Hid Hl Ha Hnb Hm. pose proof (Hm walletId w Hw) as Hd.
  destruct s as [ws txs n nw f tr]. cbn in Hw, Hd |- *.
  split.
  - unfold deposit.
    repeat progress (run_M; rewrite ?Hw, ?Hl, ?lookup_insert_eq, ?i_amount_new_transaction, ?Ha, ?Hnb).
    eexists. eexists. split; [reflexivity|]. split; [reflexivity|]. split.
    + rewrite <- !app_assoc. reflexivity.
    + exact Hd.
  - unfold deposit.
    repeat progress (run_M; rewrite ?Hw, ?Hl, ?lookup_insert_eq, ?i_amount_new_transaction, ?Ha, ?Hnb).
    eexists. eexists. split; [reflexivity|]. split; [reflexivity|]. split.
    + rewrite <- !app_assoc. reflexivity.
    + unfold apply_writes. cbn [fold_left app].
      rewrite deserializeWallet_fail. cbn [w_id with_balance]. rewrite Hid, String.eqb_refl. reflexivity.
Qed.

Lemma deposit_serialize_failure_witness :
  (exists s2 evs,
    deposit "A" (literal 2500 100) "UPI" None
      (set_faults [None; None; Some e_fs; None] (store_of [wA; wB] [])) = (Throw e_fs, s2) /\
    wallets s2 = <["A" := with_balance 52500 wA]> (wallets (store_of [wA; wB] [])) /\
    trace s2 = (trace (store_of [wA; wB] []) ++ evs)%list /\
    deserializeWallet "A" (apply_writes sample_stamp evs sample_files) = Some (wallet_json wA)) /\
  (exists s2 evs,
    deposit "A" (literal 2500 100) "UPI" None
      (set_faults [None; None; None; Some e_fs; None] (store_of [wA; wB] [])) = (Throw e_fs, s2) /\
    wallets s2 = <["A" := with_balance 52500 wA]> (wallets (store_of [wA; wB] [])) /\
    trace s2 = (trace (store_of [wA; wB] []) ++ evs)%list /\
    deserializeWallet "A" (apply_writes sample_stamp evs sample_files) = None).
Proof.
  exact (deposit_serialize_failure "A" (literal 2500 100) "UPI" None (store_of [wA; wB] [])
           wA 2500 52500 e_fs [] sample_stamp sample_files eq_refl eq_refl
           ltac:(vm_compute; reflexivity) ltac:(vm_compute; reflexivity)
           ltac:(vm_compute; reflexivity) (files_mirror_sample _)).
Defined.

(** X20: If a transfer's credit to the recipient fails after the sender was debited, the error is raised, the debit stays in place, and the outgoing record is marked failed with the error's message. *)
Theorem transfer_credit_failure fromWalletId toWalletId toUserId amount description s fw tw a nf e rest :
  fromWalletId <> toWalletId ->
  wallets s !! fromWalletId = Some fw ->
  wallets s !! toWalletId = Some tw ->
  num_lt (parseFloat (w_balance fw)) amount = false ->
  num_lt (parseFloat (w_transactionLimit fw)) amount = false ->
  numeric_of (Shown amount) = Ok a ->
  numeric_of (Fixed2 (num_sub (parseFloat (w_balance fw)) amount)) = Ok nf ->
  faults s = None :: None :: None :: None :: Some e :: None :: rest ->
  let k := next_tx s in
  let out := tx_row k a (new_transaction fromWalletId amount "transfer_out" "WalletBalance"
               "pending" description (Some toWalletId) (Some toUserId)) in
  exists s2,
    transfer fromWalletId toWalletId toUserId amount description s = (Throw e, s2) /\
    wallets s2 = <[fromWalletId := with_balance nf fw]> (wallets s) /\
    transactions s2 = map (set_status k "failed" (Some (error_message e))) (transactions s ++ [out])%list.
Proof.
  intros Hne Hfw Htw Hb Hl Ha Hnf Hf k out.
  destruct s as [ws txs n nw f tr]. cbn in Hfw, Htw, Hf, k |- *. subst f k out.
  unfold transfer.
  repeat progress (run_M; rewrite ?Hfw, ?Htw, ?Hb, ?Hl, ?lookup_insert_eq,
                     ?(lookup_insert_ne _ _ _ _ Hne), ?i_amount_new_transaction, ?Ha, ?Hnf).
  eexists. split; [reflexivity|]. split; reflexivity.
Qed.

Lemma transfer_credit_failure_witness :
  exists s2,
    transfer "A" "B" "bob" (literal 10000 100) None
      (store_of [wA; wB] [None; None; None; None; Some e_conn; None]) = (Throw e_conn, s2) /\
    wallets s2 = <["A" := with_balance 40000 wA]>
                   (wallets (store_of [wA; wB] [None; None; None; None; Some e_conn; None])) /\
    transactions s2 = map (set_status 0 "failed" (Some "Connection terminated unexpectedly"))
      [tx_row 0 10000 (new_transaction "A" (literal 10000 100) "transfer_out" "WalletBalance" "pending"
                         None (Some "B") (Some "bob"))].
Proof.
  exact (transfer_credit_failure "A" "B" "bob" (literal 10000 100) None
           (store_of [wA; wB] [None; None; None; None; Some e_conn; None]) wA wB 10000 40000 e_conn []
           ltac:(discriminate) eq_refl eq_refl ltac:(vm_compute; reflexivity)
           ltac:(vm_compute; reflexivity) ltac:(vm_compute; reflexivity)
           ltac:(vm_compute; reflexivity) eq_refl).
Defined.

Lemma find_fresh_app k l x :
  Forall (fun t => t_id t < k) l ->
  find (fun t => Nat.eqb (t_id t) k) (l ++ [x])%list =
    if Nat.eqb (t_id x) k then Some x else None.
Proof.
  induction 1 as [|t l Ht _ IH]; cbn; [destruct (Nat.eqb (t_id x) k); reflexivity|].
  replace (Nat.eqb (t_id t) k) with false by (symmetry; apply Nat.eqb_neq; lia).
  exact IH.
Qed.

(** X21: A successful deposit appends exactly one transaction, with the next id, the wallet id, type deposit, status success, the given payment mode and description, and as amount what the numeric(12,2) column makes of String(amount); it sets the balance to what the column makes of toFixed(2) of parseFloat(old balance) + amount.  The two roundings can differ: a 1.005 deposit on 0.00 records 1.01 and stores a balance of 1.00. *)
Theorem deposit_success walletId amount paymentMode description s r s2 :
  Forall (fun t => t_id t < next_tx s) (transactions s) ->
  deposit walletId amount paymentMode description s = (Ok r, s2) ->
  exists w a nb t,
    wallets s !! walletId = Some w /\
    num_lt (parseFloat (w_transactionLimit w)) amount = false /\
    numeric_of (Shown amount) = Ok a /\
    numeric_of (Fixed2 (num_add (parseFloat (w_balance w)) amount)) = Ok nb /\
    r = Some t /\ transactions s2 = (transactions s ++ [t])%list /\
    t_id t = next_tx s /\ t_walletId t = walletId /\ t_type t = "deposit" /\
    t_status t = "success" /\ t_amount t = a /\
    t_paymentMode t = paymentMode /\ t_description t = description /\
    wallets s2 = <[walletId := with_balance nb w]> (wallets s).
Proof.
  intros Hfresh H.
  apply deposit_Ok in H as (w & a & nb & Hw & Hl & Ha & Hnb & H). cbv zeta in H.
  destruct H as (Hws & Hts & _ & _ & Hr).
  set (t0 := tx_row (next_tx s) a (new_transaction walletId amount "deposit" paymentMode "pending"
                                    description None None)) in *.
  set (t := set_status (next_tx s) "success" None t0).
  assert (Ht : transactions s2 = (transactions s ++ [t])%list).
  { rewrite Hts, map_app, map_set_status_fresh by exact Hfresh. reflexivity. }
  exists w, a, nb, t. rewrite Hr, Ht, find_fresh_app by exact Hfresh.
  unfold t. rewrite set_status_same by reflexivity. cbn. rewrite Nat.eqb_refl.
  repeat split; assumption || reflexivity.
Qed.

Lemma deposit_success_witness :
  deposit "B" (literal 1005 1000) "UPI" None (store_of [wA; wB] []) =
    (Ok (Some bob_odd_deposit), snd (deposit "B" (literal 1005 1000) "UPI" None (store_of [wA; wB] []))) /\
  t_amount bob_odd_deposit = 101%Z /\
  balance_of (snd (deposit "B" (literal 1005 1000) "UPI" None (store_of [wA; wB] []))) "B" = Some 100%Z /\
  exists w a nb t,
    wallets (store_of [wA; wB] []) !! "B" = Some w /\
    num_lt (parseFloat (w_transactionLimit w)) (literal 1005 1000) = false /\
    numeric_of (Shown (literal 1005 1000)) = Ok a /\
    numeric_of (Fixed2 (num_add (parseFloat (w_balance w)) (literal 1005 1000))) = Ok nb /\
    Some bob_odd_deposit = Some t /\
    transactions (snd (deposit "B" (literal 1005 1000) "UPI" None (store_of [wA; wB] []))) =
      (transactions (store_of [wA; wB] []) ++ [t])%list /\
    t_id t = next_tx (store_of [wA; wB] []) /\ t_walletId t = "B" /\ t_type t = "deposit" /\
    t_status t = "success" /\ t_amount t = a /\
    t_paymentMode t = "UPI" /\ t_description t = None /\
    wallets (snd (deposit "B" (literal 1005 1000) "UPI" None (store_of [wA; wB] []))) =
      <["B" := with_balance nb w]> (wallets (store_of [wA; wB] [])).
Proof.
  assert (E : deposit "B" (literal 1005 1000) "UPI" None (store_of [wA; wB] []) =
    (Ok (Some bob_odd_deposit), snd (deposit "B" (literal 1005 1000) "UPI" None (store_of [wA; wB] []))))
    by (vm_compute; reflexivity).
  split; [exact E|]. split; [reflexivity|]. split; [vm_compute; reflexivity|].
  exact (deposit_success "B" (literal 1005 1000) "UPI" None (store_of [wA; wB] []) _ _
           (List.Forall_nil _) E).
Defined.

(** X22: For a finite amount above the sender's balance by less than half a cent, the transfer fails with an InsufficientFundsException whose message shows the same figure as Available and as Required, both being formatted with toFixed(2). *)
Theorem transfer_insufficient_message fromWalletId toWalletId toUserId amount description s fw tw :
  wallets s !! fromWalletId = Some fw -> wallets s !! toWalletId = Some tw ->
  (0 <= w_balance fw < 10 ^ 12)%Z ->
  is_finite amount = true ->
  num_lt (parseFloat (w_balance fw)) amount = true ->
  (num_value amount < (w_balance fw # 100) + (1 # 200))%Q ->
  exists e, transfer fromWalletId toWalletId toUserId amount description s = (Throw e, s) /\
    error_message e = "Insufficient funds: Available $" ++ decimal_to_string (w_balance fw)
                        ++ ", Required $" ++ decimal_to_string (w_balance fw).
Proof.
  intros Hf Ht Hb Hfin H1 H2.
  eexists. split; [exact (transfer_insufficient_eq _ _ _ _ _ _ _ _ Hf Ht H1)|].
  cbn [error_message]. rewrite toFixed2_parseFloat by exact Hb.
  destruct (parseFloat_near (w_balance fw) ltac:(lia)) as [Hpf He].
  assert (Hp0 : (0 <= num_value (parseFloat (w_balance fw)))%Q)
    by (apply num_value_nonneg, parseFloat_nonneg; lia).
  unfold parseFloat in H1, Hp0.
  rewrite (num_lt_finite _ _ Hpf Hfin), Qlt_bool_true in H1.
  rewrite pow2_m19, Qabs_Qle_condition in He. destruct He as [He _].
  rewrite (toFixed2_cents_near amount (w_balance fw)); [reflexivity | exact Hfin | lra | exact Hb |].
  rewrite Qabs_Qlt_condition. lra.
Qed.

Lemma transfer_insufficient_message_witness :
  exists e, transfer "B" "A" "alice" (literal 4 1000) None (store_of [wA; wB] []) =
              (Throw e, store_of [wA; wB] []) /\
    error_message e = "Insufficient funds: Available $0.00, Required $0.00".
Proof.
  exact (transfer_insufficient_message "B" "A" "alice" (literal 4 1000) None (store_of [wA; wB] [])
           wB wA eq_refl eq_refl ltac:(cbn; lia) eq_refl
           ltac:(vm_compute; reflexivity) ltac:(vm_compute; reflexivity)).
Defined.
